(** * TinyG2 persistence: the file-based (ARM) settings store

    A shallow embedding of [persistence.cpp] (the rotating-file write
    engine, its CRC check, the write cache and the flush scheduler) and the
    properties of the specification stated over it.

    Conventions.
    - A [float] is carried as its 32-bit IEEE-754 pattern (a [Z] in
      [0, 2^32)); [isnan], [isinf] and the C comparison [!=] are functions of
      that pattern, so nothing here depends on floating-point arithmetic.
    - [index_t] is [uint16_t] (config.h); its wrap-around is written out.
    - The global [nvm] singleton is the record [nvmSingleton_t]; everything
      the code reaches outside of it (the card, the canonical machine, the
      tick counter, the exception channel) is the rest of [world].
    - Code is written in a small state monad whose outcomes are a returned
      value, an execution that leaves defined C++ behaviour, or a loop that
      does not finish within the fuel given.
    - The FatFs driver is not part of persistence.cpp; [Module FatFs] is a
      model of the calls the code makes, with a schedule of failures so
      that every error path of the code can be taken.

    The definitions come first (the code, then the vocabulary of the
    properties and the data of the concrete runs), the lemmas and the
    claims C1 to C10 follow, and then further properties (X1, X2, ...) of
    the same code and of its EEPROM ([__AVR]) variant. *)

From Stdlib Require Import ZArith List Bool Lia.
From Stdlib Require Import Strings.Byte.
From stdpp Require Import base option list gmap.

Local Open Scope Z_scope.

(** ** Bytes, words and the 4-byte value encoding *)

Definition byte_of_Z (z : Z) : byte :=
  default x00 (Byte.of_N (Z.to_N (z mod 256))).

Definition Z_of_byte (b : byte) : Z := Z.of_N (Byte.to_N b).

(** [memcpy] of a 32-bit object to bytes and back (little-endian host). *)
Definition le32_encode (v : Z) : list byte :=
  [byte_of_Z v; byte_of_Z (Z.shiftr v 8);
   byte_of_Z (Z.shiftr v 16); byte_of_Z (Z.shiftr v 24)].

Definition le32_decode (bs : list byte) : Z :=
  foldr (fun b acc => Z_of_byte b + 256 * acc) 0 bs.

Definition wrap16 (z : Z) : Z := z mod 65536.
Definition wrap32 (z : Z) : Z := z mod 4294967296.

(** [memcpy (buf + off, src, length src)]. *)
Definition memcpy_to (off : nat) (src buf : list byte) : list byte :=
  take off buf ++ src ++ drop (off + length src)%nat buf.

(** [memset (buf + off, 0, n)]. *)
Definition memset0 (off n : nat) (buf : list byte) : list byte :=
  memcpy_to off (replicate n x00) buf.

(** ** The value type: a float seen through its bits *)

Definition float_exp (b : Z) : Z := Z.land (Z.shiftr b 23) 255.
Definition float_mant (b : Z) : Z := Z.land b 8388607.

Definition isnan (b : Z) : bool := (float_exp b =? 255) && negb (float_mant b =? 0).
Definition isinf (b : Z) : bool := (float_exp b =? 255) && (float_mant b =? 0).
Definition float_is_zero (b : Z) : bool := Z.land b 2147483647 =? 0.

(** The C comparison [a != b] on floats: true when either side is a NaN,
    false for equal patterns and for the two zeros. *)
Definition float_ne (a b : Z) : bool :=
  isnan a || isnan b || negb ((a =? b) || (float_is_zero a && float_is_zero b)).

(** ** CRC32

    Modelled from the spec: the CRC32 primitive [crc32 (running_state,
    buffer, length)] is an external collaborator of the store; this is the
    usual reflected CRC-32 (polynomial 0xEDB88320) in its running form, the
    state being complemented on entry and on exit. *)

Definition crc_bit (c : Z) : Z :=
  if Z.odd c then Z.lxor (Z.shiftr c 1) 3988292384 else Z.shiftr c 1.

Definition crc_byte (c : Z) (b : byte) : Z :=
  Nat.iter 8 crc_bit (Z.lxor c (Z_of_byte b)).

Definition crc32 (crc : Z) (buf : list byte) : Z :=
  Z.lxor (fold_left crc_byte buf (Z.lxor crc 4294967295)) 4294967295.

(** ** Status codes and configuration constants *)

Inductive stat_t :=
  | STAT_OK
  | STAT_NOOP
  | STAT_FILE_NOT_OPEN
  | STAT_PERSISTENCE_ERROR.

Inductive FRESULT :=
  | FR_OK
  | FR_DISK_ERR
  | FR_NO_FILE
  | FR_NO_PATH
  | FR_DENIED
  | FR_EXIST
  | FR_INVALID_OBJECT.

#[global] Instance stat_t_eq_dec : EqDecision stat_t.
Proof. solve_decision. Defined.

#[global] Instance FRESULT_eq_dec : EqDecision FRESULT.
Proof. solve_decision. Defined.

(** Modelled from the spec: canonical_machine.h is not among the sources;
    the cycle state is [CYCLE_OFF] exactly when the machine is not moving. *)
Inductive cmCycleState :=
  | CYCLE_OFF
  | CYCLE_MACHINING
  | CYCLE_PROBE
  | CYCLE_HOMING
  | CYCLE_JOG.

#[global] Instance cmCycleState_eq_dec : EqDecision cmCycleState.
Proof. solve_decision. Defined.

Definition NVM_VALUE_LEN : Z := 4.
Definition CRC_LEN : Z := 4.
Definition PERSISTENCE_FILENAME_CNT : Z := 3.

(** persistence.h is not among the sources: the constants it defines are
    parameters of the development. [NAN_AS_UINT32] is what the initialiser
    [uint32_t filecrc = NAN] leaves in [filecrc] (the conversion is not
    defined by the language). *)
Record Config := mkConfig {
  IO_BUFFER_SIZE : Z;
  MIN_WRITE_INTERVAL : Z;
  MAX_WRITE_FAILURES : Z;
  NAN_AS_UINT32 : Z
}.

(** ** Files, the card and the singleton *)

(** A path handed to the filesystem: [persist_bin n] is
    [persist/persist<n>.bin]. A file object that was never opened belongs
    to no file: its path is [no_path]. *)
Inductive path :=
  | persist_bin (n : Z)
  | no_path.

#[global] Instance path_eq_dec : EqDecision path.
Proof. solve_decision. Defined.

(** The table [filenames]: its [PERSISTENCE_FILENAME_CNT] entries, and
    nothing outside of them. *)
Definition filenames (i : Z) : option path :=
  if (0 <=? i) && (i <? PERSISTENCE_FILENAME_CNT) then Some (persist_bin i) else None.

(** The file object [FIL]: [fil_fs] is the owner pointer ([f_is_open]),
    [fptr] and [fsize] are kept when the object is closed. *)
Record FIL := mkFIL {
  fil_fs : bool;
  fil_path : path;
  fil_write : bool;
  fptr : Z;
  fsize : Z
}.

Definition FIL_closed : FIL := mkFIL false no_path false 0 0.

Record nvObj_t := mkNv {
  index : Z;
  value : Z
}.

Record nvmSingleton_t := mkNvm {
  tmp_value : Z;
  fat_fs_type : bool;
  file : FIL;
  file_index : Z;
  io_buffer : list byte;
  write_cache : gmap Z Z;
  last_write_systick : Z;
  write_failures : Z
}.

(** What one call into the filesystem driver does: it goes through, it
    fails with a disk error after [n] bytes, or (for a write) it reports
    success with only [n] bytes taken because the volume is full. *)
Inductive fault :=
  | Pass
  | Fail (n : Z)
  | Full (n : Z).

Record world := mkWorld {
  nvm : nvmSingleton_t;
  persist_dir : bool;
  disk : gmap Z (list byte);
  faults : list fault;
  cycle_state : cmCycleState;
  systick : Z;
  exceptions : list stat_t
}.

Definition upd_nvm (f : nvmSingleton_t -> nvmSingleton_t) (w : world) : world :=
  mkWorld (f (nvm w)) (persist_dir w) (disk w) (faults w)
          (cycle_state w) (systick w) (exceptions w).

Definition set_disk (d : gmap Z (list byte)) (w : world) : world :=
  mkWorld (nvm w) (persist_dir w) d (faults w)
          (cycle_state w) (systick w) (exceptions w).

Definition set_persist_dir (b : bool) (w : world) : world :=
  mkWorld (nvm w) b (disk w) (faults w)
          (cycle_state w) (systick w) (exceptions w).

Definition set_faults (fs : list fault) (w : world) : world :=
  mkWorld (nvm w) (persist_dir w) (disk w) fs
          (cycle_state w) (systick w) (exceptions w).

Definition set_cycle_state (c : cmCycleState) (w : world) : world :=
  mkWorld (nvm w) (persist_dir w) (disk w) (faults w)
          c (systick w) (exceptions w).

Definition add_exception (s : stat_t) (w : world) : world :=
  mkWorld (nvm w) (persist_dir w) (disk w) (faults w)
          (cycle_state w) (systick w) (exceptions w ++ [s]).

Definition set_tmp_value (v : Z) (n : nvmSingleton_t) : nvmSingleton_t :=
  mkNvm v (fat_fs_type n) (file n) (file_index n) (io_buffer n)
        (write_cache n) (last_write_systick n) (write_failures n).

Definition set_fat_fs_type (b : bool) (n : nvmSingleton_t) : nvmSingleton_t :=
  mkNvm (tmp_value n) b (file n) (file_index n) (io_buffer n)
        (write_cache n) (last_write_systick n) (write_failures n).

Definition set_file (f : FIL) (n : nvmSingleton_t) : nvmSingleton_t :=
  mkNvm (tmp_value n) (fat_fs_type n) f (file_index n) (io_buffer n)
        (write_cache n) (last_write_systick n) (write_failures n).

Definition set_file_index (i : Z) (n : nvmSingleton_t) : nvmSingleton_t :=
  mkNvm (tmp_value n) (fat_fs_type n) (file n) i (io_buffer n)
        (write_cache n) (last_write_systick n) (write_failures n).

Definition set_io_buffer (b : list byte) (n : nvmSingleton_t) : nvmSingleton_t :=
  mkNvm (tmp_value n) (fat_fs_type n) (file n) (file_index n) b
        (write_cache n) (last_write_systick n) (write_failures n).

Definition set_write_cache (c : gmap Z Z) (n : nvmSingleton_t) : nvmSingleton_t :=
  mkNvm (tmp_value n) (fat_fs_type n) (file n) (file_index n) (io_buffer n)
        c (last_write_systick n) (write_failures n).

Definition set_last_write_systick (t : Z) (n : nvmSingleton_t) : nvmSingleton_t :=
  mkNvm (tmp_value n) (fat_fs_type n) (file n) (file_index n) (io_buffer n)
        (write_cache n) t (write_failures n).

Definition set_write_failures (k : Z) (n : nvmSingleton_t) : nvmSingleton_t :=
  mkNvm (tmp_value n) (fat_fs_type n) (file n) (file_index n) (io_buffer n)
        (write_cache n) (last_write_systick n) k.

(** ** The monad of the code *)

Inductive outcome (A : Type) :=
  | Ret (a : A)
  | Undefined
  | Diverges.

Arguments Ret {A} a.
Arguments Undefined {A}.
Arguments Diverges {A}.

Definition M (A : Type) : Type := world -> outcome A * world.

Definition ret {A} (a : A) : M A := fun w => (Ret a, w).

Definition bind {A B} (m : M A) (k : A -> M B) : M B :=
  fun w =>
    match m w with
    | (Ret a, w') => k a w'
    | (Undefined, w') => (Undefined, w')
    | (Diverges, w') => (Diverges, w')
    end.

Definition undefined {A} : M A := fun w => (Undefined, w).
Definition diverges {A} : M A := fun w => (Diverges, w).
Definition gets {A} (f : world -> A) : M A := fun w => (Ret (f w), w).
Definition modify (f : world -> world) : M unit := fun w => (Ret tt, f w).

Declare Scope code_scope.
Delimit Scope code_scope with code.
Notation "x <- m ;; k" := (bind m (fun x => k))
  (at level 100, m at next level, right associativity) : code_scope.
Notation "m ;;; k" := (bind m (fun _ => k))
  (at level 100, right associativity) : code_scope.
Local Open Scope code_scope.

(** The [fs_ritorno (a, msg)] macro: leave with [STAT_PERSISTENCE_ERROR]
    (here: the value [err] built around it) unless [a] is [FR_OK]. *)
Definition fs_ritorno {A} (a : M FRESULT) (err : A) (k : M A) : M A :=
  r <- a ;; if decide (r = FR_OK) then k else ret err.

(** The [ritorno (a)] macro: leave with the status of [a] unless it is
    [STAT_OK]. *)
Definition ritorno {A} (a : M stat_t) (err : stat_t -> A) (k : M A) : M A :=
  st <- a ;; if decide (st = STAT_OK) then k else ret (err st).

(** ** The filesystem driver

    Modelled from the spec: the block-filesystem driver (FatFs: mount,
    mkdir, open, seek, read, write, sync, close, unlink, stat, and the
    [f_eof], [f_remain] and [f_is_open] queries on a file object) is an
    external collaborator, specified only at its boundary. The card holds
    the directory [persist] and the content of each generation file. Every
    call into the driver takes the next entry of the fault schedule
    ([Pass] once the schedule is used up); a failure is transient: it
    affects that call only. Written data is on the card as soon as the
    call returns. *)
Module FatFs.

Definition next_fault : M fault :=
  fun w =>
    match faults w with
    | [] => (Ret Pass, w)
    | f :: fs => (Ret f, set_faults fs w)
    end.

Definition is_fail (f : fault) : bool :=
  match f with Fail _ => true | _ => false end.

Definition lookup_file (p : path) (w : world) : option (list byte) :=
  match p with
  | persist_bin n => if persist_dir w then disk w !! n else None
  | no_path => None
  end.

Definition store_file (p : path) (c : list byte) (w : world) : world :=
  match p with
  | persist_bin n => set_disk (<[n := c]> (disk w)) w
  | no_path => w
  end.

Definition remove_file (p : path) (w : world) : world :=
  match p with
  | persist_bin n => set_disk (delete n (disk w)) w
  | no_path => w
  end.

Definition f_is_open (fp : FIL) : bool := fil_fs fp.
Definition f_eof (fp : FIL) : bool := fptr fp =? fsize fp.
Definition f_remain (fp : FIL) : Z := wrap32 (fsize fp - fptr fp).

Definition close_FIL (fp : FIL) : FIL :=
  mkFIL false (fil_path fp) (fil_write fp) (fptr fp) (fsize fp).

Definition set_fptr (p s : Z) (fp : FIL) : FIL :=
  mkFIL (fil_fs fp) (fil_path fp) (fil_write fp) p s.

(** [f_mount (&nvm.fat_fs, "", 1)]. *)
Definition f_mount : M FRESULT :=
  f <- next_fault ;;
  if is_fail f then ret FR_DISK_ERR
  else modify (upd_nvm (set_fat_fs_type true)) ;;; ret FR_OK.

(** [f_mkdir (PERSISTENCE_DIR)]: a directory that is created is empty. *)
Definition f_mkdir : M FRESULT :=
  f <- next_fault ;;
  if is_fail f then ret FR_DISK_ERR
  else
    d <- gets persist_dir ;;
    if d then ret FR_EXIST
    else modify (fun w => set_persist_dir true (set_disk ∅ w)) ;;; ret FR_OK.

Definition f_stat (p : path) : M FRESULT :=
  f <- next_fault ;;
  if is_fail f then ret FR_DISK_ERR
  else
    c <- gets (lookup_file p) ;;
    ret (if c is Some _ then FR_OK else FR_NO_FILE).

(** [f_open (fp, p, FA_READ | FA_OPEN_EXISTING)]: the file object is
    cleared first, so it is closed whenever the call fails. *)
Definition f_open_existing (fp : FIL) (p : path) : M (FRESULT * FIL) :=
  f <- next_fault ;;
  if is_fail f then ret (FR_DISK_ERR, close_FIL fp)
  else
    c <- gets (lookup_file p) ;;
    match c with
    | Some bytes => ret (FR_OK, mkFIL true p false 0 (Z.of_nat (length bytes)))
    | None => ret (FR_NO_FILE, close_FIL fp)
    end.

(** [f_open (fp, p, FA_WRITE | FA_OPEN_ALWAYS)]: an existing file is opened
    as it is (not truncated), a missing one is created empty. *)
Definition f_open_always (fp : FIL) (p : path) : M (FRESULT * FIL) :=
  f <- next_fault ;;
  if is_fail f then ret (FR_DISK_ERR, close_FIL fp)
  else
    d <- gets persist_dir ;;
    match p with
    | persist_bin n =>
        if d then
          c <- gets (lookup_file p) ;;
          match c with
          | Some bytes => ret (FR_OK, mkFIL true p true 0 (Z.of_nat (length bytes)))
          | None => modify (store_file p []) ;;; ret (FR_OK, mkFIL true p true 0 0)
          end
        else ret (FR_NO_PATH, close_FIL fp)
    | no_path => ret (FR_NO_PATH, close_FIL fp)
    end.

Definition f_sync (fp : FIL) : M FRESULT :=
  f <- next_fault ;;
  if negb (f_is_open fp) then ret FR_INVALID_OBJECT
  else if is_fail f then ret FR_DISK_ERR
  else ret FR_OK.

(** The internal [validate ()] of the driver, which the code calls to see
    whether an open file object can still be used. *)
Definition validate (fp : FIL) : M FRESULT :=
  f <- next_fault ;;
  if negb (f_is_open fp) then ret FR_INVALID_OBJECT
  else if is_fail f then ret FR_DISK_ERR
  else ret FR_OK.

Definition f_close (fp : FIL) : M (FRESULT * FIL) :=
  f <- next_fault ;;
  if negb (f_is_open fp) then ret (FR_INVALID_OBJECT, fp)
  else if is_fail f then ret (FR_DISK_ERR, fp)
  else ret (FR_OK, close_FIL fp).

Definition f_unlink (p : path) : M FRESULT :=
  f <- next_fault ;;
  if is_fail f then ret FR_DISK_ERR
  else
    c <- gets (lookup_file p) ;;
    match c with
    | Some _ => modify (remove_file p) ;;; ret FR_OK
    | None => ret FR_NO_FILE
    end.

(** [f_lseek] on a file opened for reading: the offset is clipped to the
    file size. (The code never seeks in the file it writes.) *)
Definition f_lseek (fp : FIL) (ofs : Z) : M (FRESULT * FIL) :=
  f <- next_fault ;;
  if negb (f_is_open fp) then ret (FR_INVALID_OBJECT, fp)
  else if is_fail f then ret (FR_DISK_ERR, fp)
  else ret (FR_OK, set_fptr (Z.min ofs (fsize fp)) (fsize fp) fp).

(** [f_read (fp, buf, btr, &br)]: yields the bytes transferred, whose
    number is [br]. [br] is zeroed before anything else; at most the bytes
    left in the file are transferred, fewer when the call fails midway. *)
Definition f_read (fp : FIL) (btr : Z) : M (FRESULT * FIL * list byte) :=
  f <- next_fault ;;
  if negb (f_is_open fp) then ret (FR_INVALID_OBJECT, fp, [])
  else
    c <- gets (lookup_file (fil_path fp)) ;;
    let rcnt := Z.max 0 (Z.min btr (fsize fp - fptr fp)) in
    let n := match f with Fail k => Z.max 0 (Z.min k rcnt) | _ => rcnt end in
    let data := take (Z.to_nat n)
                  (drop (Z.to_nat (fptr fp)) (default [] c)
                   ++ replicate (Z.to_nat n) x00) in
    ret (if is_fail f then FR_DISK_ERR else FR_OK,
         set_fptr (fptr fp + n) (fsize fp) fp, data).

(** [f_write (fp, buf, length data, &bw)]: yields [bw]. *)
Definition f_write (fp : FIL) (data : list byte) : M (FRESULT * FIL * Z) :=
  f <- next_fault ;;
  if negb (f_is_open fp) then ret (FR_INVALID_OBJECT, fp, 0)
  else if negb (fil_write fp) then ret (FR_DENIED, fp, 0)
  else
    c <- gets (lookup_file (fil_path fp)) ;;
    let len := Z.of_nat (length data) in
    let n := match f with
             | Fail k | Full k => Z.max 0 (Z.min k len)
             | Pass => len
             end in
    let old := default [] c in
    let pos := Z.to_nat (fptr fp) in
    let new := take pos (old ++ replicate pos x00)
               ++ take (Z.to_nat n) data
               ++ drop (pos + Z.to_nat n)%nat old in
    modify (store_file (fil_path fp) new) ;;;
    ret (if is_fail f then FR_DISK_ERR else FR_OK,
         set_fptr (fptr fp + n) (Z.max (fsize fp) (fptr fp + n)) fp, n).

(** [f_polldisk ()] refreshes the driver's view of the card; nothing the
    store keeps depends on it. *)
Definition f_polldisk : M unit := ret tt.

End FatFs.

(** ** persistence.cpp *)

Import FatFs.

(** [std::map::insert (std::pair (k, v))]: a key that is already present
    keeps its element. *)
Definition map_insert (k v : Z) (m : gmap Z Z) : gmap Z Z :=
  match m !! k with
  | Some _ => m
  | None => <[k := v]> m
  end.

(** The expression [filenames[i]]. An [i] outside the table reads past
    the end of the array, which the language does not define. *)
Definition filenames_at (i : Z) : M path :=
  match filenames i with
  | Some p => ret p
  | None => undefined
  end.

(** Modelled from the spec: report.h is not among the sources;
    [rpt_exception (status, NULL)] reports [status] on the exception
    channel and hands it back. *)
Definition rpt_exception (st : stat_t) : M stat_t :=
  modify (add_exception st) ;;; ret st.

Definition NEXT_FILE_INDEX (n : nvmSingleton_t) : Z :=
  (file_index n + 1) mod PERSISTENCE_FILENAME_CNT.

Definition PREV_FILE_INDEX (n : nvmSingleton_t) : Z :=
  (file_index n + PERSISTENCE_FILENAME_CNT - 1) mod PERSISTENCE_FILENAME_CNT.

(** Driver calls on the file object [nvm.file]. *)
Definition on_nvm_file {A} (op : FIL -> M (A * FIL)) : M A :=
  fp <- gets (fun w => file (nvm w)) ;;
  r <- op fp ;;
  modify (upd_nvm (set_file (snd r))) ;;;
  ret (fst r).

(** [f_read (&nvm.file, &nvm.io_buffer, btr, &br)]: the bytes land at the
    start of [nvm.io_buffer]; yields the result code and [br]. *)
Definition nvm_f_read (btr : Z) : M (FRESULT * Z) :=
  fp <- gets (fun w => file (nvm w)) ;;
  r <- f_read fp btr ;;
  modify (upd_nvm (fun n =>
    set_io_buffer (memcpy_to 0 (snd r) (io_buffer n)) (set_file (snd (fst r)) n))) ;;;
  ret (fst (fst r), Z.of_nat (length (snd r))).

Definition persistence_init : M unit :=
  t <- gets systick ;;
  modify (upd_nvm (fun n =>
    set_write_failures 0 (set_last_write_systick t (set_file_index 0 n)))).

(** [active_file_index ()]: the [for] loop over [i], with [n] iterations
    left to try. *)
Fixpoint active_file_index_loop (n : nat) (i : Z) : M Z :=
  match n with
  | O => ret i
  | S n' =>
      if i <? PERSISTENCE_FILENAME_CNT then
        p <- filenames_at i ;;
        r <- f_stat p ;;
        if decide (r = FR_OK) then
          let next := (i + 1) mod PERSISTENCE_FILENAME_CNT in
          if next >? i then
            p2 <- filenames_at next ;;
            r2 <- f_stat p2 ;;
            ret (if decide (r2 = FR_OK) then next else i)
          else ret i
        else active_file_index_loop n' (i + 1)
      else ret i
  end.

Definition active_file_index : M Z :=
  active_file_index_loop (S (Z.to_nat PERSISTENCE_FILENAME_CNT)) 0.

Section Persistence.

Variable cfg : Config.

(** [check_persistence_file_crc ()]: the [while (!f_eof (&nvm.file))] loop.
    When the last chunk is shorter than the trailer, [br -= CRC_LEN] wraps
    and both the [memcpy] and [crc32] run off the buffer. *)
Fixpoint check_crc_loop (fuel : nat) (crc filecrc : Z) : M stat_t :=
  fp <- gets (fun w => file (nvm w)) ;;
  if f_eof fp then
    ret (if decide (crc = filecrc) then STAT_OK else STAT_PERSISTENCE_ERROR)
  else
    match fuel with
    | O => diverges
    | S fuel' =>
        r <- nvm_f_read (IO_BUFFER_SIZE cfg) ;;
        if decide (fst r = FR_OK) then
          fp' <- gets (fun w => file (nvm w)) ;;
          buf <- gets (fun w => io_buffer (nvm w)) ;;
          if f_eof fp' then
            if snd r <? CRC_LEN then undefined
            else
              let br := snd r - CRC_LEN in
              let filecrc' :=
                le32_decode (take (Z.to_nat CRC_LEN) (drop (Z.to_nat br) buf)) in
              check_crc_loop fuel' (crc32 crc (take (Z.to_nat br) buf)) filecrc'
          else
            check_crc_loop fuel' (crc32 crc (take (Z.to_nat (snd r)) buf)) filecrc
        else ret STAT_PERSISTENCE_ERROR
    end.

Definition check_persistence_file_crc : M stat_t :=
  fs_ritorno (on_nvm_file (fun fp => f_lseek fp 0)) STAT_PERSISTENCE_ERROR (
    fp <- gets (fun w => file (nvm w)) ;;
    check_crc_loop (Z.to_nat (fsize fp)) 0 (NAN_AS_UINT32 cfg)).

Definition prepare_persistence_file : M stat_t :=
  fp <- gets (fun w => file (nvm w)) ;;
  valid <- (if f_is_open fp
            then r <- validate fp ;; ret (bool_decide (r = FR_OK))
            else ret false) ;;
  if valid then ret STAT_OK
  else
    let rest : M stat_t :=
      f_mkdir ;;;
      idx <- active_file_index ;;
      p <- filenames_at idx ;;
      fs_ritorno (on_nvm_file (fun fp => f_open_existing fp p))
                 STAT_PERSISTENCE_ERROR (
        modify (upd_nvm (set_file_index idx)) ;;;
        st <- check_persistence_file_crc ;;
        if decide (st = STAT_OK) then
          prev <- gets (fun w => PREV_FILE_INDEX (nvm w)) ;;
          q <- filenames_at prev ;;
          f_unlink q ;;;
          ret STAT_OK
        else
          on_nvm_file f_close ;;;
          cur <- gets (fun w => file_index (nvm w)) ;;
          q <- filenames_at cur ;;
          f_unlink q ;;;
          modify (upd_nvm (set_file_index 0)) ;;;
          ret STAT_PERSISTENCE_ERROR) in
    mounted <- gets (fun w => fat_fs_type (nvm w)) ;;
    if mounted then rest
    else fs_ritorno f_mount STAT_PERSISTENCE_ERROR rest.

(** [read_persistent_value (nv)]: yields the status and [*nv] as the call
    leaves it. *)
Definition read_persistent_value (nv : nvObj_t) : M (stat_t * nvObj_t) :=
  ritorno prepare_persistence_file (fun st => (st, nv)) (
    fs_ritorno (on_nvm_file (fun fp => f_lseek fp (index nv * NVM_VALUE_LEN)))
               (STAT_PERSISTENCE_ERROR, nv) (
      r <- nvm_f_read NVM_VALUE_LEN ;;
      if decide (fst r = FR_OK) then
        if decide (snd r = NVM_VALUE_LEN) then
          buf <- gets (fun w => io_buffer (nvm w)) ;;
          ret (STAT_OK,
               mkNv (index nv) (le32_decode (take (Z.to_nat NVM_VALUE_LEN) buf)))
        else ret (STAT_PERSISTENCE_ERROR, nv)
      else ret (STAT_PERSISTENCE_ERROR, nv))).

(** [write_persistent_value (nv)], the [__ARM] variant. *)
Definition write_persistent_value (nv : nvObj_t) : M (stat_t * nvObj_t) :=
  modify (upd_nvm (set_tmp_value (value nv))) ;;;
  r <- read_persistent_value nv ;;
  tmp <- gets (fun w => tmp_value (nvm w)) ;;
  let nv1 := snd r in
  (if negb (bool_decide (fst r = STAT_OK))
      || isnan (value nv1) || isinf (value nv1)
      || float_ne (value nv1) tmp
   then modify (upd_nvm (fun n =>
          set_write_cache (map_insert (index nv1) tmp (write_cache n)) n))
   else ret tt) ;;;
  ret (STAT_OK, mkNv (index nv1) tmp).

(** The inner [for] of the flush: the elements of the snapshot from
    [lower_bound (cnt)] up to [lower_bound (cnt + step)], in key order, are
    copied into the buffer and erased. *)
Definition overlay_window (cnt hi : Z) (temp : gmap Z Z) (buf : list byte) : list byte :=
  foldl (fun b k =>
           match temp !! k with
           | Some v =>
               memcpy_to (Z.to_nat (wrap16 ((k - cnt) * NVM_VALUE_LEN)))
                         (le32_encode v) b
           | None => b
           end)
        buf (seqZ cnt (hi - cnt)).

Definition erase_window (cnt hi : Z) (temp : gmap Z Z) : gmap Z Z :=
  filter (fun kv => ~ (cnt <= fst kv < hi)) temp.

(** When [cnt + step] wraps in [index_t] the end iterator lies before the
    start iterator: the loop is empty if both coincide and runs off the end
    of the map otherwise. *)
Definition window_runs_off (cnt hi : Z) (temp : gmap Z Z) : bool :=
  (hi <? cnt) && negb (bool_decide (filter (fun kv => hi <= fst kv < cnt) temp = ∅)).

(** The outer [for (index_t cnt = 0; ...; cnt += step)] of the flush. It
    yields [inl st] when the function returns [st] from inside the loop and
    [inr (f_out, crc)] when the loop is left. *)
Fixpoint flush_loop (fuel : nat) (f_out : FIL) (cnt crc : Z) (temp : gmap Z Z)
  : M (stat_t + FIL * Z) :=
  fp <- gets (fun w => file (nvm w)) ;;
  if negb (bool_decide (temp ≠ ∅)) && negb (f_remain fp >? CRC_LEN)
  then ret (inr (f_out, crc))
  else
    match fuel with
    | O => diverges
    | S fuel' =>
        let step := wrap16 (IO_BUFFER_SIZE cfg / NVM_VALUE_LEN) in
        let io_byte_count :=
          wrap16 (if f_is_open fp
                  then Z.min (IO_BUFFER_SIZE cfg) (wrap32 (f_remain fp - CRC_LEN))
                  else IO_BUFFER_SIZE cfg) in
        r <- nvm_f_read io_byte_count ;;
        let bw := snd r in
        modify (upd_nvm (fun n =>
          set_io_buffer (memset0 (Z.to_nat bw) (Z.to_nat (io_byte_count - bw))
                                 (io_buffer n)) n)) ;;;
        let hi := wrap16 (cnt + step) in
        if window_runs_off cnt hi temp then undefined
        else
          modify (upd_nvm (fun n =>
            set_io_buffer (overlay_window cnt hi temp (io_buffer n)) n)) ;;;
          let temp' := erase_window cnt hi temp in
          buf <- gets (fun w => io_buffer (nvm w)) ;;
          let window := take (Z.to_nat io_byte_count) buf in
          wr <- f_write f_out window ;;
          if decide (fst (fst wr) = FR_OK) then
            if decide (snd wr = io_byte_count) then
              fs_ritorno (f_sync (snd (fst wr))) (inl STAT_PERSISTENCE_ERROR) (
                flush_loop fuel' (snd (fst wr)) (wrap16 (cnt + step))
                           (crc32 crc window) temp')
            else ret (inl STAT_PERSISTENCE_ERROR)
          else ret (inl STAT_PERSISTENCE_ERROR)
    end.

(** [write_persistent_values ()]; [fuel] bounds the windows processed. *)
Definition write_persistent_values (fuel : nat) : M stat_t :=
  cs <- gets cycle_state ;;
  if decide (cs = CYCLE_OFF) then
    let rest : M stat_t :=
      next <- gets (fun w => NEXT_FILE_INDEX (nvm w)) ;;
      p <- filenames_at next ;;
      o <- f_open_always FIL_closed p ;;
      if decide (fst o = FR_OK) then
        fs_ritorno (f_sync (snd o)) STAT_PERSISTENCE_ERROR (
          temp_write_cache <- gets (fun w => write_cache (nvm w)) ;;
          l <- flush_loop fuel (snd o) 0 0 temp_write_cache ;;
          match l with
          | inl st => ret st
          | inr (f_out, crc) =>
              wr <- f_write f_out (le32_encode crc) ;;
              if decide (fst (fst wr) = FR_OK) then
                c <- f_close (snd (fst wr)) ;;
                if decide (fst c = FR_OK) then
                  fp <- gets (fun w => file (nvm w)) ;;
                  if f_is_open fp then
                    fs_ritorno (on_nvm_file f_close) STAT_PERSISTENCE_ERROR (
                      cur <- gets (fun w => file_index (nvm w)) ;;
                      q <- filenames_at cur ;;
                      fs_ritorno (f_unlink q) STAT_PERSISTENCE_ERROR (
                        modify (upd_nvm (set_file_index 0)) ;;;
                        ret STAT_OK))
                  else ret STAT_OK
                else ret STAT_PERSISTENCE_ERROR
              else ret STAT_PERSISTENCE_ERROR
          end)
      else ret STAT_PERSISTENCE_ERROR in
    st <- prepare_persistence_file ;;
    if decide (st = STAT_OK) then
      fs_ritorno (on_nvm_file (fun fp => f_lseek fp 0)) STAT_PERSISTENCE_ERROR rest
    else rest
  else rpt_exception STAT_FILE_NOT_OPEN.

(** [write_persistent_values_callback ()]. *)
Definition write_persistent_values_callback (fuel : nat) : M stat_t :=
  f_polldisk ;;;
  cache <- gets (fun w => write_cache (nvm w)) ;;
  if bool_decide (cache ≠ ∅) then
    now <- gets systick ;;
    last <- gets (fun w => last_write_systick (nvm w)) ;;
    if wrap32 (now - last) <? MIN_WRITE_INTERVAL cfg then ret STAT_NOOP
    else
      st <- write_persistent_values fuel ;;
      (if decide (st = STAT_OK) then
         modify (upd_nvm (fun n => set_write_failures 0 (set_write_cache ∅ n)))
       else
         next <- gets (fun w => NEXT_FILE_INDEX (nvm w)) ;;
         p <- filenames_at next ;;
         f_unlink p ;;;
         modify (upd_nvm (fun n => set_write_failures (write_failures n + 1) n)) ;;;
         k <- gets (fun w => write_failures (nvm w)) ;;
         if k >=? MAX_WRITE_FAILURES cfg then
           modify (upd_nvm (fun n => set_write_failures 0 (set_write_cache ∅ n)))
         else ret tt) ;;;
      now' <- gets systick ;;
      modify (upd_nvm (set_last_write_systick now')) ;;;
      ret STAT_OK
  else ret STAT_NOOP.

End Persistence.

(** * Vocabulary of the properties *)

(** [keeps proj m]: whatever its outcome, [m] leaves the part [proj] of the
    world as it found it. *)
Definition keeps {X} (proj : world -> X) {A} (m : M A) : Prop :=
  forall w, proj (snd (m w)) = proj w.

(** [commutes T m]: [m] neither reads nor writes what [T] changes. *)
Definition commutes (T : world -> world) {A} (m : M A) : Prop :=
  forall w, m (T w) = (fst (m w), T (snd (m w))).

(** The part of the singleton that belongs to the accessors and to the
    scheduler: the staged value, the cache, the failure counter and the tick
    of the last flush. *)
Definition staging (w : world) : Z * gmap Z Z * Z * Z :=
  (tmp_value (nvm w), write_cache (nvm w), write_failures (nvm w),
   last_write_systick (nvm w)).

(** A file of [len] bytes can be scanned by [check_persistence_file_crc]:
    its last chunk is empty or holds the whole 4-byte trailer. *)
Definition tail_ok (cfg : Config) (len : Z) : Prop :=
  ~ (0 < len mod IO_BUFFER_SIZE cfg < CRC_LEN).

(** The singleton after a scan: the file object and the buffer changed. *)
Definition scanned (fp : FIL) (buf : list byte) (w : world) : world :=
  upd_nvm (fun n => set_io_buffer buf (set_file fp n)) w.

(** What the scan computes from the bytes [rest] that are still to be read:
    the CRC of all but the last four, and the last four as the stored CRC. *)
Definition scan_result (crc filecrc : Z) (rest : list byte) : Z * Z :=
  match rest with
  | [] => (crc, filecrc)
  | _ => (crc32 crc (take (length rest - 4) rest),
          le32_decode (drop (length rest - 4) rest))
  end.

Definition scan_status (r : Z * Z) : stat_t :=
  if decide (fst r = snd r) then STAT_OK else STAT_PERSISTENCE_ERROR.

(** One turn of the window loop of the flush, entered with a baseline read
    that fails after [k] bytes (the next two driver calls go through):
    the turn does not leave the function; the window it writes to the new
    file holds the bytes the read supplied, zeros for the rest, and the
    cache entries of the window on top; the loop goes on with the next
    window. [base] is the baseline file, [out] the new file so far. *)
Definition window_still_written (cfg : Config) (fuel : nat) (f_out : FIL)
    (cnt crc : Z) (temp : gmap Z Z) (w : world) (k : Z) (fs : list fault)
    (base out : list byte) : Prop :=
  let step := IO_BUFFER_SIZE cfg / NVM_VALUE_LEN in
  let hi := wrap16 (cnt + step) in
  let fp := file (nvm w) in
  let n := Z.min (IO_BUFFER_SIZE cfg) (fsize fp - fptr fp - CRC_LEN) in
  let got := Z.max 0 (Z.min k n) in
  let supplied := take (Z.to_nat got) (drop (Z.to_nat (fptr fp)) base) in
  let filled := supplied ++ replicate (Z.to_nat (n - got)) x00 in
  exists stale w',
    let window :=
      take (Z.to_nat n) (overlay_window cnt hi temp (filled ++ stale)) in
    length (filled ++ stale) = Z.to_nat (IO_BUFFER_SIZE cfg) /\
    length window = Z.to_nat n /\
    flush_loop cfg (S fuel) f_out cnt crc temp w
    = flush_loop cfg fuel
        (set_fptr (fptr f_out + n) (fsize f_out + n) f_out)
        (wrap16 (cnt + step)) (crc32 crc window) (erase_window cnt hi temp) w' /\
    lookup_file (fil_path f_out) w' = Some (out ++ window) /\
    fptr (file (nvm w')) = fptr fp + got /\
    faults w' = fs.

(** ** Sample data for concrete runs *)

(** A configuration to run the code with: a 512-byte buffer, a budget of
    three failures, and [filecrc] starting at 0. *)
Definition sample_config : Config := mkConfig 512 1000 3 0.

(** The same with a buffer of [n] bytes. *)
Definition config_with_buffer (n : Z) : Config := mkConfig n 1000 3 0.

(** The pattern of the float that equals the integer [n], [1 <= n < 2^24]. *)
Definition float_of_int (n : Z) : Z :=
  let e := Z.log2 n in (127 + e) * 2 ^ 23 + (n - 2 ^ e) * 2 ^ (23 - e).

Definition float_5_5 : Z := 1085276160.
Definition float_150_5 : Z := 1125548032.

(** The bytes of the value slots [l], and a generation file around them. *)
Definition values (l : list Z) : list byte := concat (map le32_encode l).

Definition generation (content : list byte) : list byte :=
  content ++ le32_encode (crc32 0 content).

(** The value slots [{0: 1.0, 1: 2.0, ..., 99: 100.0}] and the baseline
    generation that holds them. *)
Definition slots100 : list Z := map float_of_int (seqZ 1 100).

Definition baseline100 : list byte := generation (values slots100).

(** The singleton after [persistence_init], with a buffer of [n] bytes and
    [cache] pending; a world around it with the machine idle or moving. *)
Definition fresh_nvm (n : Z) (cache : gmap Z Z) : nvmSingleton_t :=
  mkNvm 0 false FIL_closed 0 (replicate (Z.to_nat n) x00) cache 0 0.

Definition idle_world (n : Z) (card : gmap Z (list byte)) (cache : gmap Z Z)
    (schedule : list fault) : world :=
  mkWorld (fresh_nvm n cache) true card schedule CYCLE_OFF 5000 [].

Definition moving_world (n : Z) (card : gmap Z (list byte)) (cache : gmap Z Z) : world :=
  set_cycle_state CYCLE_MACHINING (idle_world n card cache []).

(** The world [dt] ticks later. *)
Definition advance (dt : Z) (w : world) : world :=
  mkWorld (nvm w) (persist_dir w) (disk w) (faults w)
          (cycle_state w) (systick w + dt) (exceptions w).

(** A generation file whose content changed after its checksum was
    written: the slots now read [1.0; 3.0], the trailer is the CRC of
    [1.0; 2.0]. *)
Definition changed_body : list byte := values [float_of_int 1; float_of_int 3].

Definition stale_trailer : list byte :=
  le32_encode (crc32 0 (values [float_of_int 1; float_of_int 2])).

(** The flush at the head of its first window: the baseline is open at
    offset 0, the new file exists and is empty, and the read that comes
    next fails after 100 bytes. *)
Definition first_window_f_out : FIL := mkFIL true (persist_bin 1) true 0 0.

Definition first_window_world : world :=
  mkWorld (mkNvm 0 true (mkFIL true (persist_bin 0) false 0 404) 0
                 (replicate 512 x00) ∅ 0 0)
          true {[0 := baseline100; 1 := []]} [Fail 100; Pass; Pass]
          CYCLE_OFF 5000 [].

(** Running the code: the status a call returned, if it returned. *)
Definition status_of {A} (r : outcome (stat_t * A) * world) : option stat_t :=
  match fst r with
  | Ret (st, _) => Some st
  | _ => None
  end.

(** * Further definitions

    The vocabulary of the further properties and the [__AVR] variant of
    the accessors. *)

Definition word32 (x : Z) : Prop := 0 <= x < 4294967296.

#[global] Instance word32_dec x : Decision (word32 x).
Proof. unfold word32. apply _. Defined.

Definition buffer_fits (cfg : Config) : Prop :=
  CRC_LEN <= IO_BUFFER_SIZE cfg < 65536 /\ IO_BUFFER_SIZE cfg mod NVM_VALUE_LEN = 0.

Definition current_generation (cfg : Config) (k : Z) (l : list Z) (w : world) : Prop :=
  let fp := file (nvm w) in
  let size := Z.of_nat (length (generation (values l))) in
  faults w = [] /\ persist_dir w = true /\
  0 <= k < PERSISTENCE_FILENAME_CNT /\
  disk w !! k = Some (generation (values l)) /\
  disk w !! ((k + 1) mod PERSISTENCE_FILENAME_CNT) = None /\
  Forall word32 l /\
  length (io_buffer (nvm w)) = Z.to_nat (IO_BUFFER_SIZE cfg) /\
  (f_is_open fp = true ->
     fil_path fp = persist_bin k /\ fsize fp = size /\ 0 <= fptr fp <= size /\
     file_index (nvm w) = k /\
     disk w !! ((k + 2) mod PERSISTENCE_FILENAME_CNT) = None).

(** [preserves P m]: whatever its outcome, [m] keeps the property [P] of
    the world. *)
Definition preserves (P : world -> Prop) {A} (m : M A) : Prop :=
  forall w, P w -> P (snd (m w)).

(** [yields m Q]: every value [m] returns has [Q]. *)
Definition yields {A} (m : M A) (Q : A -> Prop) : Prop :=
  forall w a, fst (m w) = Ret a -> Q a.

(** The files on the card have the property [Q]. *)
Definition card_has (Q : gmap Z (list byte) -> Prop) (w : world) : Prop := Q (disk w).

(** The buffer [nvm.io_buffer] has [n] bytes. *)
Definition buffer_length (n : nat) (w : world) : Prop :=
  length (io_buffer (nvm w)) = n.

(** The value slots [ys], numbered from [first], with each slot that has an
    entry in [cache] holding that entry. *)
Definition patched (cache : gmap Z Z) (first : Z) (ys : list Z) : list Z :=
  imap (fun j y => default y (cache !! (first + Z.of_nat j))) ys.

(** The card holds no generation file, no file is open, and the driver
    does not fail. *)
Definition no_generation (w : world) : Prop :=
  faults w = [] /\
  f_is_open (file (nvm w)) = false /\
  forall j, 0 <= j < PERSISTENCE_FILENAME_CNT -> disk w !! j = None.





(** The pending entries are 32-bit values at indices below [bound]. *)
Definition cache_below (bound : Z) (cache : gmap Z Z) : Prop :=
  forall k v, cache !! k = Some v -> 0 <= k < bound /\ word32 v.

(** The paths of slot [q]: its file, or none (a file object that is not
    open). A write to them changes no other slot. *)
Definition slot_path (q : Z) (p : path) : Prop := p = persist_bin q \/ p = no_path.

(** ** persistence.cpp, the [__AVR] variant

    The settings are in the EEPROM, one 4-byte value per index, and a write
    goes there at once. *)

Definition NVM_BASE_ADDR : Z := 0.

Module Avr.

(** The [__AVR] fields of [nvmSingleton_t]. persistence.h is not among the
    sources: [nvm.address] is taken to be a [uint16_t], like the local
    [nvm_address] of the read. *)
Record nvmSingleton_t := mkNvm {
  base_addr : Z;
  profile_base : Z;
  address : Z;
  tmp_value : Z;
  byte_array : list byte
}.

(** What the code reaches: the singleton, the EEPROM, the canonical
    machine and the exception channel. *)
Record world := mkWorld {
  nvm : nvmSingleton_t;
  eeprom : gmap Z byte;
  cycle_state : cmCycleState;
  exceptions : list stat_t
}.

(** Modelled from the spec: the byte-addressable NVM is an external
    collaborator, a direct read and write path. [EEPROM_ReadBytes (address,
    buf, size)] yields the [size] bytes from [address] on, a cell that was
    never written reading as erased; [EEPROM_WriteBytes (address, buf,
    size)] stores them. *)
Definition EEPROM_ReadBytes (addr : Z) (size : Z) (mem : gmap Z byte) : list byte :=
  map (fun k => default xff (mem !! (addr + k))) (seqZ 0 size).

Definition EEPROM_WriteBytes (addr : Z) (bs : list byte) (mem : gmap Z byte)
  : gmap Z byte :=
  foldl (fun m kb => <[addr + Z.of_nat (fst kb) := snd kb]> m) mem
        (zip (seq 0 (length bs)) bs).

Definition persistence_init (w : world) : world :=
  mkWorld (mkNvm NVM_BASE_ADDR 0 (address (nvm w)) (tmp_value (nvm w))
                 (byte_array (nvm w)))
          (eeprom w) (cycle_state w) (exceptions w).

(** [read_persistent_value (nv)]: the status and [*nv] as the call leaves
    it. *)
Definition read_persistent_value (nv : nvObj_t) (w : world) : stat_t * nvObj_t :=
  let nvm_address := wrap16 (profile_base (nvm w) + index nv * NVM_VALUE_LEN) in
  let nvm_byte_array := EEPROM_ReadBytes nvm_address NVM_VALUE_LEN (eeprom w) in
  (STAT_OK, mkNv (index nv) (le32_decode nvm_byte_array)).

Section Write.

(** util.h is not among the sources: the comparison [fp_NE] of two floats
    is a parameter. *)
Variable fp_NE : Z -> Z -> bool.

(** [write_persistent_value (nv)]: the status, [*nv] as the call leaves it
    and the world after it. *)
Definition write_persistent_value (nv : nvObj_t) (w : world)
  : stat_t * nvObj_t * world :=
  if decide (cycle_state w <> CYCLE_OFF) then
    (STAT_FILE_NOT_OPEN, nv,
     mkWorld (nvm w) (eeprom w) (cycle_state w)
             (exceptions w ++ [STAT_FILE_NOT_OPEN]))
  else
    let n := nvm w in
    let tmp := value nv in
    let n1 := mkNvm (base_addr n) (profile_base n) (address n) tmp (byte_array n) in
    let w1 := mkWorld n1 (eeprom w) (cycle_state w) (exceptions w) in
    let r := read_persistent_value nv w1 in
    if decide (fst r = STAT_OK) then
      let nv1 := snd r in
      let w2 :=
        if isnan (value nv1) || isinf (value nv1) || fp_NE (value nv1) tmp then
          let bytes := le32_encode tmp in
          let addr := wrap16 (profile_base n1 + index nv1 * NVM_VALUE_LEN) in
          mkWorld (mkNvm (base_addr n1) (profile_base n1) addr tmp bytes)
                  (EEPROM_WriteBytes addr bytes (eeprom w1))
                  (cycle_state w1) (exceptions w1)
        else w1 in
      (STAT_OK, mkNv (index nv1) tmp, w2)
    else (fst r, snd r, w1).

End Write.

End Avr.

(** ** Sample stores *)

(** A store with the generation [baseline100] in slot 0, nothing open, and
    the value 5.5 pending for index 5. *)
Definition settled_store : world :=
  idle_world 512 {[0 := baseline100]} {[5 := float_5_5]} [].

(** A card without a directory, the same entry pending. *)
Definition blank_store : world :=
  mkWorld (fresh_nvm 512 {[5 := float_5_5]}) false ∅ [] CYCLE_OFF 5000 [].


(** The singleton with [fp] open. *)
Definition opened_store (fp : FIL) (card : gmap Z (list byte)) : world :=
  mkWorld (mkNvm 0 true fp 0 (replicate 512 x00) ∅ 0 0) true card [] CYCLE_OFF 5000 [].

(** The EEPROM store after [persistence_init], nothing written yet. *)
Definition blank_eeprom : Avr.world :=
  Avr.persistence_init (Avr.mkWorld (Avr.mkNvm 0 0 0 0 []) ∅ CYCLE_OFF []).

(** * Properties *)

(** ** Reasoning about code in the monad *)

Lemma bind_Ret {A B} (m : M A) (k : A -> M B) w a w' :
  m w = (Ret a, w') -> bind m k w = k a w'.
Proof. intros H. unfold bind. now rewrite H. Qed.

Lemma bind_Undefined {A B} (m : M A) (k : A -> M B) w w' :
  m w = (Undefined, w') -> bind m k w = (Undefined, w').
Proof. intros H. unfold bind. now rewrite H. Qed.

Lemma bind_Diverges {A B} (m : M A) (k : A -> M B) w w' :
  m w = (Diverges, w') -> bind m k w = (Diverges, w').
Proof. intros H. unfold bind. now rewrite H. Qed.

Lemma bind_bind {A B C} (m : M A) (k1 : A -> M B) (k2 : B -> M C) w :
  bind (bind m k1) k2 w = bind m (fun a => bind (k1 a) k2) w.
Proof. unfold bind. destruct (m w) as [[a | | ] w1]; reflexivity. Qed.

(** One step of symbolic execution: the first action of the code returns. *)
Ltac run_step :=
  rewrite ?bind_bind;
  first [ erewrite bind_Ret by eassumption
        | erewrite bind_Ret by reflexivity ];
  cbv beta; rewrite ?bind_bind.

(** ** Code that leaves a part of the world alone *)

Section Keeps.

Context {X : Type} (proj : world -> X).

Lemma keeps_ret {A} (a : A) : keeps proj (ret a).
Proof. now intros w. Qed.

Lemma keeps_undefined {A} : keeps proj (@undefined A).
Proof. now intros w. Qed.

Lemma keeps_diverges {A} : keeps proj (@diverges A).
Proof. now intros w. Qed.

Lemma keeps_gets {A} (f : world -> A) : keeps proj (gets f).
Proof. now intros w. Qed.

Lemma keeps_modify (f : world -> world) :
  (forall w, proj (f w) = proj w) -> keeps proj (modify f).
Proof. intros H w. apply H. Qed.

Lemma keeps_bind {A B} (m : M A) (k : A -> M B) :
  keeps proj m -> (forall a, keeps proj (k a)) -> keeps proj (bind m k).
Proof.
  intros Hm Hk w. unfold bind. specialize (Hm w).
  destruct (m w) as [[a | | ] w1]; simpl in *; try assumption.
  rewrite <- Hm. apply Hk.
Qed.

Lemma keeps_fs_ritorno {A} (a : M FRESULT) (err : A) (k : M A) :
  keeps proj a -> keeps proj k -> keeps proj (fs_ritorno a err k).
Proof.
  intros Ha Hk. unfold fs_ritorno. apply keeps_bind; [assumption | intros r].
  destruct (decide (r = FR_OK)); [assumption | apply keeps_ret].
Qed.

Lemma keeps_ritorno {A} (a : M stat_t) (err : stat_t -> A) (k : M A) :
  keeps proj a -> keeps proj k -> keeps proj (ritorno a err k).
Proof.
  intros Ha Hk. unfold ritorno. apply keeps_bind; [assumption | intros r].
  destruct (decide (r = STAT_OK)); [assumption | apply keeps_ret].
Qed.

Lemma keeps_filenames_at i : keeps proj (filenames_at i).
Proof.
  unfold filenames_at. destruct (filenames i); [apply keeps_ret | apply keeps_undefined].
Qed.

End Keeps.

Section Commutes.

Context (T : world -> world).

Lemma commutes_ret {A} (a : A) : commutes T (ret a).
Proof. now intros w. Qed.

Lemma commutes_undefined {A} : commutes T (@undefined A).
Proof. now intros w. Qed.

Lemma commutes_diverges {A} : commutes T (@diverges A).
Proof. now intros w. Qed.

Lemma commutes_gets {A} (f : world -> A) :
  (forall w, f (T w) = f w) -> commutes T (gets f).
Proof. intros H w. unfold gets. simpl. now rewrite H. Qed.

Lemma commutes_modify (f : world -> world) :
  (forall w, f (T w) = T (f w)) -> commutes T (modify f).
Proof. intros H w. unfold modify. simpl. now rewrite H. Qed.

Lemma commutes_bind {A B} (m : M A) (k : A -> M B) :
  commutes T m -> (forall a, commutes T (k a)) -> commutes T (bind m k).
Proof.
  intros Hm Hk w. unfold bind. rewrite (Hm w).
  destruct (m w) as [[a | | ] w1]; simpl; try reflexivity.
  apply Hk.
Qed.

Lemma commutes_fs_ritorno {A} (a : M FRESULT) (err : A) (k : M A) :
  commutes T a -> commutes T k -> commutes T (fs_ritorno a err k).
Proof.
  intros Ha Hk. unfold fs_ritorno. apply commutes_bind; [assumption | intros r].
  destruct (decide (r = FR_OK)); [assumption | apply commutes_ret].
Qed.

Lemma commutes_ritorno {A} (a : M stat_t) (err : stat_t -> A) (k : M A) :
  commutes T a -> commutes T k -> commutes T (ritorno a err k).
Proof.
  intros Ha Hk. unfold ritorno. apply commutes_bind; [assumption | intros r].
  destruct (decide (r = STAT_OK)); [assumption | apply commutes_ret].
Qed.

Lemma commutes_filenames_at i : commutes T (filenames_at i).
Proof.
  unfold filenames_at.
  destruct (filenames i); [apply commutes_ret | apply commutes_undefined].
Qed.

End Commutes.

(** ** The table of file names *)

Lemma filenames_slot i :
  0 <= i < PERSISTENCE_FILENAME_CNT -> filenames i = Some (persist_bin i).
Proof.
  intros H. unfold filenames.
  destruct (Z.leb_spec 0 i); [| lia].
  destruct (Z.ltb_spec i PERSISTENCE_FILENAME_CNT); [| lia].
  reflexivity.
Qed.

Lemma filenames_at_slot i w :
  0 <= i < PERSISTENCE_FILENAME_CNT -> filenames_at i w = (Ret (persist_bin i), w).
Proof. intros H. unfold filenames_at. now rewrite (filenames_slot i H). Qed.

Lemma filenames_at_outside i w :
  ~ (0 <= i < PERSISTENCE_FILENAME_CNT) -> filenames_at i w = (Undefined, w).
Proof.
  intros H. unfold filenames_at, filenames.
  destruct (Z.leb_spec 0 i); destruct (Z.ltb_spec i PERSISTENCE_FILENAME_CNT);
    simpl; try reflexivity; lia.
Qed.

Lemma NEXT_FILE_INDEX_range n : 0 <= NEXT_FILE_INDEX n < PERSISTENCE_FILENAME_CNT.
Proof. apply Z.mod_pos_bound. reflexivity. Qed.

(** Breaking a piece of code down to its driver calls and state accesses. *)
Ltac keeps_step :=
  lazymatch goal with
  | |- keeps _ (ret _) => apply keeps_ret
  | |- keeps _ undefined => apply keeps_undefined
  | |- keeps _ diverges => apply keeps_diverges
  | |- keeps _ (gets _) => apply keeps_gets
  | |- keeps _ (filenames_at _) => apply keeps_filenames_at
  | |- keeps _ (fs_ritorno _ _ _) => apply keeps_fs_ritorno
  | |- keeps _ (ritorno _ _ _) => apply keeps_ritorno
  | |- keeps _ (bind _ _) => apply keeps_bind; [ | intros ? ]
  | |- keeps _ (modify _) =>
      apply keeps_modify; intros [[] ? ? ? ? ? ?]; reflexivity
  | |- keeps _ (if ?b then _ else _) => destruct b
  | |- keeps _ (match ?x with _ => _ end) => destruct x
  | |- keeps _ (let _ := _ in _) => cbv zeta
  end.

Ltac commutes_step :=
  lazymatch goal with
  | |- commutes _ (ret _) => apply commutes_ret
  | |- commutes _ undefined => apply commutes_undefined
  | |- commutes _ (filenames_at _) => apply commutes_filenames_at
  | |- commutes _ diverges => apply commutes_diverges
  | |- commutes _ (gets _) =>
      apply commutes_gets; intros [[] ? ? ? ? ? ?]; reflexivity
  | |- commutes _ (fs_ritorno _ _ _) => apply commutes_fs_ritorno
  | |- commutes _ (ritorno _ _ _) => apply commutes_ritorno
  | |- commutes _ (bind _ _) => apply commutes_bind; [ | intros ? ]
  | |- commutes _ (modify _) =>
      apply commutes_modify; intros [[] ? ? ? ? ? ?]; reflexivity
  | |- commutes _ (if ?b then _ else _) => destruct b
  | |- commutes _ (match ?x with _ => _ end) => destruct x
  | |- commutes _ (let _ := _ in _) => cbv zeta
  end.

Lemma disk_remove_file p w : disk (remove_file p w) ⊆ disk w.
Proof. destruct p; simpl; [apply delete_subseteq | reflexivity]. Qed.

(** ** What the driver and the file layer leave alone *)

Lemma keeps_next_fault : keeps staging next_fault.
Proof. intros w. unfold next_fault. now destruct (faults w). Qed.

Lemma staging_store_file p c w : staging (store_file p c w) = staging w.
Proof. now destruct p. Qed.

Lemma staging_remove_file p w : staging (remove_file p w) = staging w.
Proof. now destruct p. Qed.

Ltac keeps_driver :=
  repeat first
    [ apply keeps_next_fault
    | apply keeps_modify; intros ?;
      first [ apply staging_store_file | apply staging_remove_file ]
    | keeps_step ].

Lemma keeps_f_mount : keeps staging f_mount.
Proof. unfold f_mount. keeps_driver. Qed.

Lemma keeps_f_mkdir : keeps staging f_mkdir.
Proof. unfold f_mkdir. keeps_driver. Qed.

Lemma keeps_f_stat p : keeps staging (f_stat p).
Proof. unfold f_stat. keeps_driver. Qed.

Lemma keeps_f_open_existing fp p : keeps staging (f_open_existing fp p).
Proof. unfold f_open_existing. keeps_driver. Qed.

Lemma keeps_f_open_always fp p : keeps staging (f_open_always fp p).
Proof. unfold f_open_always. keeps_driver. Qed.

Lemma keeps_f_sync fp : keeps staging (f_sync fp).
Proof. unfold f_sync. keeps_driver. Qed.

Lemma keeps_validate fp : keeps staging (validate fp).
Proof. unfold validate. keeps_driver. Qed.

Lemma keeps_f_close fp : keeps staging (f_close fp).
Proof. unfold f_close. keeps_driver. Qed.

Lemma keeps_f_unlink p : keeps staging (f_unlink p).
Proof. unfold f_unlink. keeps_driver. Qed.

Lemma keeps_f_lseek fp ofs : keeps staging (f_lseek fp ofs).
Proof. unfold f_lseek. keeps_driver. Qed.

Lemma keeps_f_read fp btr : keeps staging (f_read fp btr).
Proof. unfold f_read. keeps_driver. Qed.

Lemma keeps_f_write fp data : keeps staging (f_write fp data).
Proof. unfold f_write. keeps_driver. Qed.

Lemma keeps_on_nvm_file {A} (op : FIL -> M (A * FIL)) :
  (forall fp, keeps staging (op fp)) -> keeps staging (on_nvm_file op).
Proof. intros H. unfold on_nvm_file. keeps_driver. apply H. Qed.

Lemma keeps_nvm_f_read btr : keeps staging (nvm_f_read btr).
Proof. unfold nvm_f_read. keeps_driver. apply keeps_f_read. Qed.

Lemma keeps_active_file_index_loop n i : keeps staging (active_file_index_loop n i).
Proof.
  revert i. induction n as [| n IH]; intros i; simpl.
  - apply keeps_ret.
  - keeps_driver; first [ apply keeps_f_stat | apply IH ].
Qed.

Lemma keeps_active_file_index : keeps staging active_file_index.
Proof. apply keeps_active_file_index_loop. Qed.

Create HintDb frame.

#[local] Hint Resolve keeps_f_mount keeps_f_mkdir keeps_f_stat keeps_f_open_existing
  keeps_f_open_always keeps_f_sync keeps_validate keeps_f_close keeps_f_unlink
  keeps_f_lseek keeps_f_read keeps_f_write keeps_nvm_f_read
  keeps_active_file_index : frame.

Ltac keeps_code :=
  repeat first
    [ solve [ auto with frame ]
    | apply keeps_on_nvm_file; intros ?
    | keeps_step ].

Section FramePersistence.

Variable cfg : Config.

Lemma keeps_check_crc_loop fuel crc filecrc :
  keeps staging (check_crc_loop cfg fuel crc filecrc).
Proof.
  revert crc filecrc. induction fuel as [| fuel IH]; intros crc filecrc; simpl.
  - keeps_code.
  - keeps_code; apply IH.
Qed.

Lemma keeps_check_persistence_file_crc :
  keeps staging (check_persistence_file_crc cfg).
Proof. unfold check_persistence_file_crc. keeps_code. apply keeps_check_crc_loop. Qed.

Lemma keeps_prepare_persistence_file :
  keeps staging (prepare_persistence_file cfg).
Proof.
  unfold prepare_persistence_file.
  keeps_code; apply keeps_check_persistence_file_crc.
Qed.

Lemma keeps_read_persistent_value nv :
  keeps staging (read_persistent_value cfg nv).
Proof.
  unfold read_persistent_value.
  keeps_code. apply keeps_prepare_persistence_file.
Qed.

Lemma keeps_flush_loop fuel f_out cnt crc temp :
  keeps staging (flush_loop cfg fuel f_out cnt crc temp).
Proof.
  revert f_out cnt crc temp.
  induction fuel as [| fuel IH]; intros f_out cnt crc temp; simpl.
  - keeps_code.
  - keeps_code.
Qed.

Lemma keeps_rpt_exception st : keeps staging (rpt_exception st).
Proof. unfold rpt_exception. keeps_code. Qed.

Lemma keeps_write_persistent_values fuel :
  keeps staging (write_persistent_values cfg fuel).
Proof.
  unfold write_persistent_values.
  keeps_code;
    first [ apply keeps_prepare_persistence_file
          | apply keeps_flush_loop
          | apply keeps_rpt_exception ].
Qed.

End FramePersistence.


(** ** The accessors in terms of the read they perform *)

Lemma staging_cache w1 w2 :
  staging w1 = staging w2 -> write_cache (nvm w1) = write_cache (nvm w2).
Proof. unfold staging. congruence. Qed.

Lemma read_persistent_value_nv cfg nv w st nv1 w1 :
  read_persistent_value cfg nv w = (Ret (st, nv1), w1) ->
  index nv1 = index nv /\ (st <> STAT_OK -> nv1 = nv).
Proof.
  unfold read_persistent_value, ritorno, fs_ritorno, bind, ret, gets.
  repeat case_match; intros; simplify_eq; simpl; auto.
  all: split; [reflexivity | congruence].
Qed.

(** The outcome of [write_persistent_value] in terms of that of the read. *)
Lemma write_persistent_value_unfold cfg nv w :
  let w0 := upd_nvm (set_tmp_value (value nv)) w in
  write_persistent_value cfg nv w =
  match read_persistent_value cfg nv w0 with
  | (Ret (st, nv1), w1) =>
      (Ret (STAT_OK, mkNv (index nv) (value nv)),
       if negb (bool_decide (st = STAT_OK)) || isnan (value nv1) || isinf (value nv1)
          || float_ne (value nv1) (value nv)
       then upd_nvm (fun n => set_write_cache
                       (map_insert (index nv) (value nv) (write_cache n)) n) w1
       else w1)
  | (Undefined, w1) => (Undefined, w1)
  | (Diverges, w1) => (Diverges, w1)
  end.
Proof.
  intros w0. unfold write_persistent_value.
  unfold bind at 1. unfold modify at 1. fold w0.
  pose proof (keeps_read_persistent_value cfg nv w0) as K.
  unfold bind at 1.
  destruct (read_persistent_value cfg nv w0) as [[[st nv1] | | ] w1] eqn:E; try reflexivity.
  simpl in K.
  assert (Ht : tmp_value (nvm w1) = value nv).
  { unfold staging, w0 in K. simpl in K. congruence. }
  destruct (read_persistent_value_nv _ _ _ _ _ _ E) as [Hi _].
  unfold bind, gets. simpl. rewrite Ht, Hi.
  destruct (negb (bool_decide (st = STAT_OK)) || isnan (value nv1) || isinf (value nv1)
          || float_ne (value nv1) (value nv)); reflexivity.
Qed.

Lemma f_unlink_returns p w : exists r w', f_unlink p w = (Ret r, w').
Proof.
  unfold f_unlink, bind, next_fault, gets, modify, ret.
  repeat case_match; simplify_eq; eauto.
Qed.

Lemma cache_of_staging w1 w2 :
  staging w1 = staging w2 ->
  write_cache (nvm w1) = write_cache (nvm w2) /\
  write_failures (nvm w1) = write_failures (nvm w2).
Proof. unfold staging. intros H. split; congruence. Qed.

(** ** The write path does not look at the cycle state *)

Section CycleBlind.

Variable c : cmCycleState.

Lemma commutes_next_fault : commutes (set_cycle_state c) next_fault.
Proof. intros w. unfold next_fault. destruct w as [? ? ? [|] ? ? ?]; reflexivity. Qed.

Ltac commutes_driver :=
  repeat first
    [ apply commutes_next_fault
    | apply commutes_gets; intros [[] ? ? ? ? ? ?]; 
      match goal with |- lookup_file ?p _ = _ => destruct p; reflexivity end
    | apply commutes_modify; intros [[] ? ? ? ? ? ?];
      match goal with 
      | |- store_file ?p _ _ = _ => destruct p; reflexivity 
      | |- remove_file ?p _ = _ => destruct p; reflexivity 
      end
    | commutes_step ].

Lemma commutes_f_mount : commutes (set_cycle_state c) f_mount.
Proof. unfold f_mount. commutes_driver. Qed.

Lemma commutes_f_mkdir : commutes (set_cycle_state c) f_mkdir.
Proof. unfold f_mkdir. commutes_driver. Qed.

Lemma commutes_f_stat p : commutes (set_cycle_state c) (f_stat p).
Proof. unfold f_stat. commutes_driver. Qed.

Lemma commutes_f_open_existing fp p : commutes (set_cycle_state c) (f_open_existing fp p).
Proof. unfold f_open_existing. commutes_driver. Qed.

Lemma commutes_validate fp : commutes (set_cycle_state c) (validate fp).
Proof. unfold validate. commutes_driver. Qed.

Lemma commutes_f_close fp : commutes (set_cycle_state c) (f_close fp).
Proof. unfold f_close. commutes_driver. Qed.

Lemma commutes_f_unlink p : commutes (set_cycle_state c) (f_unlink p).
Proof. unfold f_unlink. commutes_driver. Qed.

Lemma commutes_f_lseek fp ofs : commutes (set_cycle_state c) (f_lseek fp ofs).
Proof. unfold f_lseek. commutes_driver. Qed.

Lemma commutes_f_read fp btr : commutes (set_cycle_state c) (f_read fp btr).
Proof. unfold f_read. commutes_driver. Qed.

Lemma commutes_on_nvm_file {A} (op : FIL -> M (A * FIL)) :
  (forall fp, commutes (set_cycle_state c) (op fp)) ->
  commutes (set_cycle_state c) (on_nvm_file op).
Proof. intros H. unfold on_nvm_file. commutes_driver. apply H. Qed.

Lemma commutes_nvm_f_read btr : commutes (set_cycle_state c) (nvm_f_read btr).
Proof. unfold nvm_f_read. commutes_driver. apply commutes_f_read. Qed.

Lemma commutes_active_file_index_loop n i :
  commutes (set_cycle_state c) (active_file_index_loop n i).
Proof.
  revert i. induction n as [| n IH]; intros i; simpl.
  - apply commutes_ret.
  - commutes_driver; first [ apply commutes_f_stat | apply IH ].
Qed.

Create HintDb cycle.

#[local] Hint Resolve commutes_f_mount commutes_f_mkdir commutes_f_stat
  commutes_f_open_existing commutes_validate commutes_f_close commutes_f_unlink
  commutes_f_lseek commutes_nvm_f_read commutes_active_file_index_loop : cycle.

Ltac commutes_code :=
  repeat first
    [ solve [ auto with cycle ]
    | apply commutes_on_nvm_file; intros ?
    | commutes_step ].

Variable cfg : Config.

Lemma commutes_check_crc_loop fuel crc filecrc :
  commutes (set_cycle_state c) (check_crc_loop cfg fuel crc filecrc).
Proof.
  revert crc filecrc. induction fuel as [| fuel IH]; intros crc filecrc; simpl.
  - commutes_code.
  - commutes_code.
Qed.

Lemma commutes_check_persistence_file_crc :
  commutes (set_cycle_state c) (check_persistence_file_crc cfg).
Proof. unfold check_persistence_file_crc. commutes_code. apply commutes_check_crc_loop. Qed.

Lemma commutes_prepare_persistence_file :
  commutes (set_cycle_state c) (prepare_persistence_file cfg).
Proof.
  unfold prepare_persistence_file, active_file_index.
  commutes_code; apply commutes_check_persistence_file_crc.
Qed.

Lemma commutes_read_persistent_value nv :
  commutes (set_cycle_state c) (read_persistent_value cfg nv).
Proof.
  unfold read_persistent_value.
  commutes_code. apply commutes_prepare_persistence_file.
Qed.

Lemma commutes_write_persistent_value nv :
  commutes (set_cycle_state c) (write_persistent_value cfg nv).
Proof.
  unfold write_persistent_value.
  commutes_code. apply commutes_read_persistent_value.
Qed.

End CycleBlind.

Lemma set_cycle_state_id w : set_cycle_state (cycle_state w) w = w.
Proof. now destruct w. Qed.

Lemma set_cycle_state_twice c1 c2 w :
  set_cycle_state c1 (set_cycle_state c2 w) = set_cycle_state c1 w.
Proof. now destruct w. Qed.

(** ** Scanning a file: what it computes when no call fails *)

Lemma crc32_app crc a b : crc32 (crc32 crc a) b = crc32 crc (a ++ b).
Proof.
  unfold crc32. rewrite fold_left_app.
  now rewrite Z.lxor_assoc, Z.lxor_nilpotent, Z.lxor_0_r.
Qed.

Lemma crc32_nil crc : crc32 crc [] = crc.
Proof.
  unfold crc32. simpl. now rewrite Z.lxor_assoc, Z.lxor_nilpotent, Z.lxor_0_r.
Qed.

Lemma next_fault_nofault w : faults w = [] -> next_fault w = (Ret Pass, w).
Proof. intros H. unfold next_fault. now rewrite H. Qed.

Lemma lookup_file_upd_nvm p f w : lookup_file p (upd_nvm f w) = lookup_file p w.
Proof. now destruct p. Qed.

Lemma scanned_same w : scanned (file (nvm w)) (io_buffer (nvm w)) w = w.
Proof. now destruct w as [[] ? ? ? ? ? ?]. Qed.

Lemma f_read_nofault fp btr w content :
  faults w = [] ->
  f_is_open fp = true ->
  lookup_file (fil_path fp) w = Some content ->
  0 <= fptr fp ->
  fsize fp = Z.of_nat (length content) ->
  let n := Z.min btr (fsize fp - fptr fp) in
  let data := take (Z.to_nat n) (drop (Z.to_nat (fptr fp)) content) in
  0 <= n ->
  f_read fp btr w = (Ret (FR_OK, set_fptr (fptr fp + n) (fsize fp) fp, data), w)
  /\ Z.of_nat (length data) = n.
Proof.
  intros Hf Ho Hl Hp Hs n data Hn.
  assert (Hlen : Z.of_nat (length data) = n).
  { unfold data. rewrite length_take, length_drop. unfold n in *. lia. }
  split; [| exact Hlen].
  unfold f_read.
  rewrite (bind_Ret _ _ _ _ _ (next_fault_nofault w Hf)).
  rewrite Ho. simpl. run_step. rewrite Hl. unfold ret. simpl.
  assert (Hmax : Z.max 0 (Z.min btr (fsize fp - fptr fp)) = n) by (unfold n; lia).
  rewrite Hmax.
  assert (Hdata : take (Z.to_nat n)
                    (drop (Z.to_nat (fptr fp)) content ++ replicate (Z.to_nat n) x00)
                  = data).
  { unfold data. apply take_app_le. rewrite length_drop. unfold n in *. lia. }
  now rewrite Hdata.
Qed.

Lemma nvm_f_read_nofault btr w content :
  faults w = [] ->
  f_is_open (file (nvm w)) = true ->
  lookup_file (fil_path (file (nvm w))) w = Some content ->
  0 <= fptr (file (nvm w)) ->
  fsize (file (nvm w)) = Z.of_nat (length content) ->
  let fp := file (nvm w) in
  let n := Z.min btr (fsize fp - fptr fp) in
  let data := take (Z.to_nat n) (drop (Z.to_nat (fptr fp)) content) in
  0 <= n ->
  nvm_f_read btr w
  = (Ret (FR_OK, n),
     scanned (set_fptr (fptr fp + n) (fsize fp) fp)
             (data ++ drop (length data) (io_buffer (nvm w))) w).
Proof.
  intros Hf Ho Hl Hp Hs fp n data Hn.
  destruct (f_read_nofault (file (nvm w)) btr w content Hf Ho Hl Hp Hs Hn)
    as [E Hlen].
  unfold nvm_f_read. do 3 run_step. unfold ret. simpl.
  fold fp n data in Hlen |- *. rewrite Hlen. reflexivity.
Qed.

Lemma scan_result_cons crc filecrc rest :
  (0 < length rest)%nat ->
  scan_result crc filecrc rest
  = (crc32 crc (take (length rest - 4) rest),
     le32_decode (drop (length rest - 4) rest)).
Proof. destruct rest; simpl; [lia | reflexivity]. Qed.

Section ScanNoFault.

Variable cfg : Config.
Hypothesis buffer_holds_trailer : CRC_LEN <= IO_BUFFER_SIZE cfg.

Lemma check_crc_loop_nofault fuel : forall crc filecrc w content,
  faults w = [] ->
  f_is_open (file (nvm w)) = true ->
  lookup_file (fil_path (file (nvm w))) w = Some content ->
  0 <= fptr (file (nvm w)) <= fsize (file (nvm w)) ->
  fsize (file (nvm w)) = Z.of_nat (length content) ->
  tail_ok cfg (fsize (file (nvm w)) - fptr (file (nvm w))) ->
  fsize (file (nvm w)) - fptr (file (nvm w)) <= Z.of_nat fuel ->
  exists buf,
    check_crc_loop cfg fuel crc filecrc w
    = (Ret (scan_status
              (scan_result crc filecrc
                 (drop (Z.to_nat (fptr (file (nvm w)))) content))),
       scanned (set_fptr (fsize (file (nvm w))) (fsize (file (nvm w))) (file (nvm w)))
               buf w).
Proof.
  unfold CRC_LEN in *.
  assert (Heof : forall crc filecrc w content,
    fsize (file (nvm w)) = Z.of_nat (length content) ->
    fptr (file (nvm w)) = fsize (file (nvm w)) ->
    forall fuel, exists buf,
    check_crc_loop cfg fuel crc filecrc w
    = (Ret (scan_status
              (scan_result crc filecrc
                 (drop (Z.to_nat (fptr (file (nvm w)))) content))),
       scanned (set_fptr (fsize (file (nvm w))) (fsize (file (nvm w))) (file (nvm w)))
               buf w)).
  { intros crc filecrc w content Hs He fuel0.
    exists (io_buffer (nvm w)).
    rewrite drop_ge by lia. simpl.
    assert (Hfp : set_fptr (fsize (file (nvm w))) (fsize (file (nvm w))) (file (nvm w))
                  = file (nvm w)).
    { destruct (file (nvm w)); simpl in *. now subst. }
    rewrite Hfp, scanned_same.
    destruct fuel0; simpl; run_step; unfold f_eof; rewrite He, Z.eqb_refl; reflexivity. }
  induction fuel as [| fuel IH]; intros crc filecrc w content Hf Ho Hl Hp Hs Ht Hfuel.
  - apply Heof; [assumption | lia].
  - destruct (Z.eq_dec (fptr (file (nvm w))) (fsize (file (nvm w)))) as [He | Hne].
    { apply Heof; assumption. }
    set (fp := file (nvm w)) in *.
    set (r := fsize fp - fptr fp) in *.
    set (rest := drop (Z.to_nat (fptr fp)) content).
    assert (Hrest : Z.of_nat (length rest) = r).
    { unfold rest, r. rewrite length_drop. lia. }
    set (n := Z.min (IO_BUFFER_SIZE cfg) r).
    assert (Hn : 0 <= n) by (unfold n, r; lia).
    pose proof (nvm_f_read_nofault (IO_BUFFER_SIZE cfg) w content Hf Ho Hl
                  (proj1 Hp) Hs Hn) as E.
    fold fp r n rest in E.
    set (data := take (Z.to_nat n) rest) in *.
    set (buf1 := data ++ drop (length data) (io_buffer (nvm w))) in *.
    set (fp1 := set_fptr (fptr fp + n) (fsize fp) fp) in *.
    set (w1 := scanned fp1 buf1 w) in *.
    assert (Hdata : Z.of_nat (length data) = n).
    { unfold data. rewrite length_take. unfold n. lia. }
    simpl. run_step. fold fp. unfold f_eof at 1.
    destruct (Z.eqb_spec (fptr fp) (fsize fp)) as [? | _]; [contradiction |].
    run_step. simpl.
    destruct (decide (FR_OK = FR_OK)) as [_ | ?]; [| contradiction].
    do 2 run_step.
    change (file (nvm w1)) with fp1. change (io_buffer (nvm w1)) with buf1.
    unfold tail_ok, CRC_LEN in Ht.
    unfold f_eof. change (fptr fp1) with (fptr fp + n). change (fsize fp1) with (fsize fp).
    assert (Hw1 : faults w1 = [] /\ f_is_open fp1 = true /\
                  lookup_file (fil_path fp1) w1 = Some content /\
                  fsize fp1 = Z.of_nat (length content)).
    { repeat split; try assumption.
      all: unfold w1, scanned; now rewrite lookup_file_upd_nvm. }
    destruct Hw1 as (Hf1 & Ho1 & Hl1 & Hs1).
    assert (Hpos : (0 < length rest)%nat) by (unfold r in Hrest; lia).
    rewrite (scan_result_cons crc filecrc rest Hpos).
    destruct (Z.eqb_spec (fptr fp + n) (fsize fp)) as [Heq | Hneq].
    + assert (Hnr : n = r) by (unfold r; lia).
      assert (H4 : 4 <= r).
      { destruct (Z.eq_dec r (IO_BUFFER_SIZE cfg)) as [-> | ]; [lia |].
        assert (r mod IO_BUFFER_SIZE cfg = r) by (apply Z.mod_small; unfold n in *; lia).
        lia. }
      destruct (Z.ltb_spec n CRC_LEN) as [? | _]; [unfold CRC_LEN in *; lia |].
      destruct (IH (crc32 crc (take (Z.to_nat (n - CRC_LEN)) buf1))
                   (le32_decode (take (Z.to_nat CRC_LEN)
                                      (drop (Z.to_nat (n - CRC_LEN)) buf1)))
                   w1 content) as [bufa Ea];
        try assumption.
      { change (file (nvm w1)) with fp1. simpl. lia. }
      { change (file (nvm w1)) with fp1. simpl. unfold tail_ok.
        replace (fsize fp - (fptr fp + n)) with 0 by lia.
        rewrite Z.mod_0_l by lia. unfold CRC_LEN. lia. }
      { change (file (nvm w1)) with fp1. simpl. lia. }
      exists bufa. rewrite Ea. change (file (nvm w1)) with fp1. simpl.
      rewrite (drop_ge content) by lia. simpl.
      assert (Hdr : data = rest).
      { unfold data. apply take_ge. lia. }
      unfold buf1. rewrite Hdr. unfold CRC_LEN.
      replace (Z.to_nat (n - 4)) with (length rest - 4)%nat by lia.
      replace (Z.to_nat 4) with 4%nat by reflexivity.
      rewrite take_app_le by lia.
      rewrite drop_app_le by lia.
      rewrite take_app_le by (rewrite length_drop; lia).
      rewrite (take_ge (drop _ rest)) by (rewrite length_drop; lia).
      reflexivity.
    + assert (Hnb : n = IO_BUFFER_SIZE cfg) by (unfold n, r in *; lia).
      assert (Hlt : IO_BUFFER_SIZE cfg < r) by (unfold n, r in *; lia).
      assert (Hmod : (r - IO_BUFFER_SIZE cfg) mod IO_BUFFER_SIZE cfg
                     = r mod IO_BUFFER_SIZE cfg).
      { replace (r - IO_BUFFER_SIZE cfg) with (r + (-1) * IO_BUFFER_SIZE cfg) by lia.
        apply Z.mod_add. lia. }
      assert (H4 : 4 <= r - IO_BUFFER_SIZE cfg).
      { destruct (Z.lt_ge_cases (r - IO_BUFFER_SIZE cfg) 4); [| assumption].
        rewrite <- Hmod in Ht.
        rewrite Z.mod_small in Ht by lia. lia. }
      destruct (IH (crc32 crc (take (Z.to_nat n) buf1)) filecrc w1 content)
        as [bufa Ea]; try assumption.
      { change (file (nvm w1)) with fp1. simpl. unfold r in *. lia. }
      { change (file (nvm w1)) with fp1. simpl. unfold tail_ok, CRC_LEN.
        replace (fsize fp - (fptr fp + n)) with (r - IO_BUFFER_SIZE cfg)
          by (unfold r; lia).
        now rewrite Hmod. }
      { change (file (nvm w1)) with fp1. simpl. unfold r in *. lia. }
      exists bufa. rewrite Ea. change (file (nvm w1)) with fp1. simpl.
      assert (Hrest' : drop (Z.to_nat (fptr fp + n)) content = drop (Z.to_nat n) rest).
      { unfold rest. rewrite drop_drop. f_equal. lia. }
      rewrite Hrest'.
      rewrite scan_result_cons by (rewrite length_drop; lia).
      unfold buf1.
      replace (Z.to_nat n) with (length data) at 1 by lia.
      rewrite take_app_length.
      rewrite crc32_app. unfold data.
      rewrite take_take_drop, drop_drop, length_drop.
      replace (Z.to_nat n + (length rest - Z.to_nat n - 4))%nat
        with (length rest - 4)%nat by lia.
      reflexivity.
Qed.

End ScanNoFault.

(** Driver calls when nothing fails. *)
Lemma f_mount_nofault w :
  faults w = [] -> f_mount w = (Ret FR_OK, upd_nvm (set_fat_fs_type true) w).
Proof.
  intros Hf. unfold f_mount.
  now rewrite (bind_Ret _ _ _ _ _ (next_fault_nofault w Hf)).
Qed.

Lemma f_mkdir_exists w :
  faults w = [] -> persist_dir w = true -> f_mkdir w = (Ret FR_EXIST, w).
Proof.
  intros Hf Hd. unfold f_mkdir.
  rewrite (bind_Ret _ _ _ _ _ (next_fault_nofault w Hf)). simpl.
  run_step. now rewrite Hd.
Qed.

Lemma f_stat_nofault p w :
  faults w = [] ->
  f_stat p w = (Ret (if lookup_file p w is Some _ then FR_OK else FR_NO_FILE), w).
Proof.
  intros Hf. unfold f_stat.
  rewrite (bind_Ret _ _ _ _ _ (next_fault_nofault w Hf)). simpl.
  now run_step.
Qed.

Lemma f_open_existing_nofault fp p w bytes :
  faults w = [] -> lookup_file p w = Some bytes ->
  f_open_existing fp p w
  = (Ret (FR_OK, mkFIL true p false 0 (Z.of_nat (length bytes))), w).
Proof.
  intros Hf Hl. unfold f_open_existing.
  rewrite (bind_Ret _ _ _ _ _ (next_fault_nofault w Hf)). simpl.
  run_step. now rewrite Hl.
Qed.

Lemma f_lseek_nofault fp ofs w :
  faults w = [] -> f_is_open fp = true ->
  f_lseek fp ofs w = (Ret (FR_OK, set_fptr (Z.min ofs (fsize fp)) (fsize fp) fp), w).
Proof.
  intros Hf Ho. unfold f_lseek.
  rewrite (bind_Ret _ _ _ _ _ (next_fault_nofault w Hf)). now rewrite Ho.
Qed.

Lemma f_close_nofault fp w :
  faults w = [] -> f_is_open fp = true ->
  f_close fp w = (Ret (FR_OK, close_FIL fp), w).
Proof.
  intros Hf Ho. unfold f_close.
  rewrite (bind_Ret _ _ _ _ _ (next_fault_nofault w Hf)). now rewrite Ho.
Qed.

Lemma f_unlink_nofault p w bytes :
  faults w = [] -> lookup_file p w = Some bytes ->
  f_unlink p w = (Ret FR_OK, remove_file p w).
Proof.
  intros Hf Hl. unfold f_unlink.
  rewrite (bind_Ret _ _ _ _ _ (next_fault_nofault w Hf)). simpl.
  run_step. now rewrite Hl.
Qed.

Lemma active_file_index_loop_nofault n : forall i w,
  0 <= i -> faults w = [] -> exists r, active_file_index_loop n i w = (Ret r, w).
Proof.
  induction n as [| n IH]; intros i w Hi Hf; simpl; [eauto |].
  destruct (Z.ltb_spec i PERSISTENCE_FILENAME_CNT) as [Hlt |]; [| eauto].
  rewrite (bind_Ret _ _ _ _ _ (filenames_at_slot i w (conj Hi Hlt))).
  rewrite (bind_Ret _ _ _ _ _ (f_stat_nofault (persist_bin i) w Hf)).
  destruct (decide (_ = FR_OK)); [| apply IH; [lia | assumption]].
  destruct (_ >? i); [| eauto].
  rewrite (bind_Ret _ _ _ _ _ (filenames_at_slot _ w
             (Z.mod_pos_bound (i + 1) PERSISTENCE_FILENAME_CNT eq_refl))).
  rewrite (bind_Ret _ _ _ _ _ (f_stat_nofault _ w Hf)). eauto.
Qed.

Lemma commutes_upd_nvm_next_fault g : commutes (upd_nvm g) next_fault.
Proof. intros w. unfold next_fault. destruct w as [? ? ? [|] ? ? ?]; reflexivity. Qed.

Lemma commutes_upd_nvm_f_stat g p : commutes (upd_nvm g) (f_stat p).
Proof.
  unfold f_stat. apply commutes_bind; [apply commutes_upd_nvm_next_fault | intros f].
  destruct (is_fail f); [apply commutes_ret |].
  apply commutes_bind; [| intros ?; apply commutes_ret].
  apply commutes_gets. intros w. apply lookup_file_upd_nvm.
Qed.

Lemma commutes_upd_nvm_active_file_index_loop g n i :
  commutes (upd_nvm g) (active_file_index_loop n i).
Proof.
  revert i. induction n as [| n IH]; intros i; simpl; [apply commutes_ret |].
  repeat first [ apply commutes_upd_nvm_f_stat | apply IH | commutes_step ].
Qed.

Section Corruption.

Variable cfg : Config.
Hypothesis buffer_holds_trailer : CRC_LEN <= IO_BUFFER_SIZE cfg.

Lemma check_persistence_file_crc_nofault w content :
  faults w = [] ->
  f_is_open (file (nvm w)) = true ->
  lookup_file (fil_path (file (nvm w))) w = Some content ->
  fsize (file (nvm w)) = Z.of_nat (length content) ->
  tail_ok cfg (Z.of_nat (length content)) ->
  exists buf,
    check_persistence_file_crc cfg w
    = (Ret (scan_status (scan_result 0 (NAN_AS_UINT32 cfg) content)),
       scanned (set_fptr (fsize (file (nvm w))) (fsize (file (nvm w))) (file (nvm w)))
               buf w).
Proof.
  intros Hf Ho Hl Hs Ht.
  set (fp0 := set_fptr (0 `min` fsize (file (nvm w))) (fsize (file (nvm w))) (file (nvm w))).
  set (w0 := upd_nvm (set_file fp0) w).
  destruct (check_crc_loop_nofault cfg buffer_holds_trailer
              (Z.to_nat (fsize fp0)) 0 (NAN_AS_UINT32 cfg) w0 content)
    as [buf E].
  - assumption.
  - assumption.
  - unfold w0. now rewrite lookup_file_upd_nvm.
  - simpl. lia.
  - assumption.
  - simpl.
    replace (fsize (file (nvm w)) - 0 `min` fsize (file (nvm w)))
      with (Z.of_nat (length content)) by lia.
    assumption.
  - simpl. lia.
  - exists buf.
    unfold check_persistence_file_crc, fs_ritorno, on_nvm_file.
    run_step. rewrite (bind_Ret _ _ _ _ _ (f_lseek_nofault _ 0 w Hf Ho)).
    do 2 run_step. simpl. run_step.
    change (check_crc_loop cfg (Z.to_nat (fsize fp0)) 0 (NAN_AS_UINT32 cfg) w0
            = (Ret (scan_status (scan_result 0 (NAN_AS_UINT32 cfg) content)),
               scanned (set_fptr (fsize (file (nvm w))) (fsize (file (nvm w)))
                                 (file (nvm w))) buf w)).
    rewrite E. simpl.
    replace (Z.to_nat (0 `min` fsize (file (nvm w)))) with 0%nat by lia.
    reflexivity.
Qed.

End Corruption.

(** ** A window of the flush whose baseline read fails *)

Lemma next_fault_cons w f fs :
  faults w = f :: fs -> next_fault w = (Ret f, set_faults fs w).
Proof. intros H. unfold next_fault. now rewrite H. Qed.

Lemma length_memcpy_to off src (buf : list byte) :
  (off + length src <= length buf)%nat ->
  length (memcpy_to off src buf) = length buf.
Proof.
  intros H. unfold memcpy_to.
  rewrite !length_app, length_take, length_drop. lia.
Qed.

Lemma length_le32_encode v : length (le32_encode v) = 4%nat.
Proof. reflexivity. Qed.

Lemma length_overlay_window cnt hi temp buf step :
  0 <= step -> 4 * step <= Z.of_nat (length buf) -> 4 * step <= 65536 ->
  hi - cnt <= step ->
  length (overlay_window cnt hi temp buf) = length buf.
Proof.
  intros Hs Hb Hw Hh. unfold overlay_window.
  assert (HF : Forall (fun k => cnt <= k < cnt + step) (seqZ cnt (hi - cnt))).
  { apply Forall_seqZ. intros k Hk. lia. }
  revert buf Hb. induction HF as [| k l Hk _ IH]; intros buf Hb; [reflexivity |].
  simpl. rewrite IH.
  - destruct (temp !! k); [| reflexivity].
    apply length_memcpy_to. rewrite length_le32_encode.
    unfold wrap16, NVM_VALUE_LEN. rewrite Z.mod_small by lia. lia.
  - destruct (temp !! k); [| assumption].
    rewrite length_memcpy_to; [assumption |].
    rewrite length_le32_encode.
    unfold wrap16, NVM_VALUE_LEN. rewrite Z.mod_small by lia. lia.
Qed.

(** A read that fails after [k] bytes. *)
Lemma nvm_f_read_fail btr w k fs base :
  faults w = Fail k :: fs ->
  f_is_open (file (nvm w)) = true ->
  lookup_file (fil_path (file (nvm w))) w = Some base ->
  0 <= fptr (file (nvm w)) ->
  fsize (file (nvm w)) = Z.of_nat (length base) ->
  0 <= btr <= fsize (file (nvm w)) - fptr (file (nvm w)) ->
  let fp := file (nvm w) in
  let got := Z.max 0 (Z.min k btr) in
  let data := take (Z.to_nat got) (drop (Z.to_nat (fptr fp)) base) in
  nvm_f_read btr w
  = (Ret (FR_DISK_ERR, got),
     scanned (set_fptr (fptr fp + got) (fsize fp) fp)
             (data ++ drop (Z.to_nat got) (io_buffer (nvm w)))
             (set_faults fs w))
  /\ length data = Z.to_nat got.
Proof.
  intros Hf Ho Hl Hp Hs Hb fp got data.
  assert (Hlen : length data = Z.to_nat got).
  { unfold data. rewrite length_take, length_drop. unfold got, fp in *. lia. }
  split; [| exact Hlen].
  unfold nvm_f_read, f_read.
  run_step. rewrite (bind_Ret _ _ _ _ _ (next_fault_cons w _ _ Hf)).
  rewrite Ho. simpl. run_step.
  assert (Hl' : lookup_file (fil_path fp) (set_faults fs w) = Some base).
  { unfold fp. destruct (fil_path (file (nvm w))); exact Hl. }
  fold fp. rewrite Hl'. simpl. run_step. unfold ret. simpl.
  replace (Z.max 0 (Z.min btr (fsize fp - fptr fp))) with btr by (unfold fp; lia).
  fold got.
  assert (Hdata : take (Z.to_nat got)
                    (drop (Z.to_nat (fptr fp)) base ++ replicate (Z.to_nat got) x00)
                  = data).
  { unfold data. apply take_app_le. rewrite length_drop. unfold got, fp in *. lia. }
  rewrite Hdata, Hlen. rewrite Z2Nat.id by (unfold got; lia).
  unfold memcpy_to. simpl. rewrite Hlen. reflexivity.
Qed.

(** A write at the end of the file that goes through. *)
Lemma f_write_append fp data w fs out :
  faults w = Pass :: fs ->
  f_is_open fp = true -> fil_write fp = true ->
  lookup_file (fil_path fp) w = Some out ->
  fptr fp = Z.of_nat (length out) ->
  fsize fp = Z.of_nat (length out) ->
  let n := Z.of_nat (length data) in
  f_write fp data w
  = (Ret (FR_OK, set_fptr (fptr fp + n) (fsize fp + n) fp, n),
     store_file (fil_path fp) (out ++ data) (set_faults fs w)).
Proof.
  intros Hf Ho Hw Hl Hp Hs n.
  unfold f_write.
  rewrite (bind_Ret _ _ _ _ _ (next_fault_cons w _ _ Hf)).
  rewrite Ho, Hw. simpl. run_step.
  assert (Hl' : lookup_file (fil_path fp) (set_faults fs w) = Some out).
  { destruct (fil_path fp); exact Hl. }
  rewrite Hl'. simpl. run_step. unfold ret. fold n.
  replace (Z.to_nat (fptr fp)) with (length out) by lia.
  replace (Z.to_nat n) with (length data) by (unfold n; lia).
  rewrite take_app_length, firstn_all.
  rewrite drop_ge by lia. rewrite app_nil_r.
  replace (fsize fp `max` (fptr fp + n)) with (fsize fp + n) by lia.
  reflexivity.
Qed.

Lemma f_sync_pass fp w fs :
  faults w = Pass :: fs -> f_is_open fp = true ->
  f_sync fp w = (Ret FR_OK, set_faults fs w).
Proof.
  intros Hf Ho. unfold f_sync.
  rewrite (bind_Ret _ _ _ _ _ (next_fault_cons w _ _ Hf)). now rewrite Ho.
Qed.

Lemma failed_read_window cfg fuel f_out cnt crc temp w k fs base out :
  0 < IO_BUFFER_SIZE cfg < 65536 ->
  length (io_buffer (nvm w)) = Z.to_nat (IO_BUFFER_SIZE cfg) ->
  faults w = Fail k :: Pass :: Pass :: fs ->
  f_is_open (file (nvm w)) = true ->
  lookup_file (fil_path (file (nvm w))) w = Some base ->
  0 <= fptr (file (nvm w)) ->
  fsize (file (nvm w)) = Z.of_nat (length base) ->
  fsize (file (nvm w)) < 4294967296 ->
  CRC_LEN < fsize (file (nvm w)) - fptr (file (nvm w)) ->
  f_is_open f_out = true ->
  fil_write f_out = true ->
  lookup_file (fil_path f_out) w = Some out ->
  fptr f_out = Z.of_nat (length out) ->
  fsize f_out = Z.of_nat (length out) ->
  0 <= cnt < 65536 ->
  let step := IO_BUFFER_SIZE cfg / NVM_VALUE_LEN in
  let hi := wrap16 (cnt + step) in
  window_runs_off cnt hi temp = false ->
  window_still_written cfg fuel f_out cnt crc temp w k fs base out.
Proof.
  intros Hbuf Hlenb Hf Ho Hl Hp Hs H32 Hrem Hoo How Hlo Hpo Hso Hcnt step hi Hoff.
  unfold window_still_written. fold step hi.
  set (fp := file (nvm w)).
  set (n := Z.min (IO_BUFFER_SIZE cfg) (fsize fp - fptr fp - CRC_LEN)).
  set (got := Z.max 0 (Z.min k n)).
  set (supplied := take (Z.to_nat got) (drop (Z.to_nat (fptr fp)) base)).
  set (filled := supplied ++ replicate (Z.to_nat (n - got)) x00).
  unfold CRC_LEN, NVM_VALUE_LEN in *.
  assert (Hn : 0 < n <= IO_BUFFER_SIZE cfg) by (unfold n, fp; lia).
  assert (Hgot : 0 <= got <= n) by (unfold got; lia).
  assert (Hremain : f_remain fp = fsize fp - fptr fp).
  { unfold f_remain, wrap32. apply Z.mod_small. unfold fp. lia. }
  assert (Hcount :
    wrap16 (if f_is_open fp
            then Z.min (IO_BUFFER_SIZE cfg) (wrap32 (f_remain fp - 4))
            else IO_BUFFER_SIZE cfg) = n).
  { unfold fp at 1. rewrite Ho, Hremain. unfold wrap32, wrap16.
    rewrite (Z.mod_small (fsize fp - fptr fp - 4)) by (unfold fp; lia).
    fold n. apply Z.mod_small. lia. }
  destruct (nvm_f_read_fail n w k (Pass :: Pass :: fs) base Hf Ho Hl Hp Hs)
    as [Er Hdata]; [unfold fp in *; lia |].
  fold fp got supplied in Er, Hdata.
  set (buf1 := supplied ++ drop (Z.to_nat got) (io_buffer (nvm w))) in *.
  set (w1 := scanned (set_fptr (fptr fp + got) (fsize fp) fp) buf1
                     (set_faults (Pass :: Pass :: fs) w)) in *.
  set (stale := drop (Z.to_nat got + Z.to_nat (n - got)) buf1).
  assert (Hlen1 : length buf1 = Z.to_nat (IO_BUFFER_SIZE cfg)).
  { unfold buf1. rewrite length_app, length_drop, Hdata, Hlenb. lia. }
  assert (Hbuf2 : memset0 (Z.to_nat got) (Z.to_nat (n - got)) buf1 = filled ++ stale).
  { unfold memset0, memcpy_to, filled, stale. rewrite length_replicate.
    rewrite <- app_assoc. f_equal.
    unfold buf1. rewrite <- Hdata. apply take_app_length. }
  assert (Hlen2 : length (filled ++ stale) = Z.to_nat (IO_BUFFER_SIZE cfg)).
  { rewrite <- Hbuf2. unfold memset0. rewrite length_memcpy_to; [exact Hlen1 |].
    rewrite length_replicate. lia. }
  assert (Hstep : 0 <= step /\ 4 * step <= IO_BUFFER_SIZE cfg).
  { unfold step. split; [apply Z.div_pos; lia |].
    apply Z.mul_div_le. lia. }
  assert (Hstep16 : wrap16 step = step).
  { unfold wrap16. apply Z.mod_small. lia. }
  assert (Hhi : hi - cnt <= step).
  { unfold hi, wrap16.
    pose proof (Z.mod_le (cnt + step) 65536). lia. }
  set (buf3 := overlay_window cnt hi temp (filled ++ stale)).
  assert (Hlen3 : length buf3 = Z.to_nat (IO_BUFFER_SIZE cfg)).
  { unfold buf3. rewrite (length_overlay_window cnt hi temp _ step); try lia. }
  set (window := take (Z.to_nat n) buf3).
  assert (Hlenw : length window = Z.to_nat n).
  { unfold window. rewrite length_take. lia. }
  set (w2 := upd_nvm (fun nv => set_io_buffer
                                  (overlay_window cnt hi temp (io_buffer nv)) nv)
               (upd_nvm (fun nv => set_io_buffer
                          (memset0 (Z.to_nat got) (Z.to_nat (n - got)) (io_buffer nv)) nv)
                        w1)).
  assert (Hlo2 : lookup_file (fil_path f_out) w2 = Some out).
  { destruct (fil_path f_out); exact Hlo. }
  pose proof (f_write_append f_out window w2 (Pass :: fs) out eq_refl Hoo How Hlo2 Hpo Hso)
    as Ew.
  cbv zeta in Ew. rewrite Hlenw in Ew. rewrite Z2Nat.id in Ew by lia.
  set (w3 := store_file (fil_path f_out) (out ++ window) (set_faults (Pass :: fs) w2)) in *.
  set (f_out' := set_fptr (fptr f_out + n) (fsize f_out + n) f_out) in *.
  assert (Hf3 : faults w3 = Pass :: fs).
  { unfold w3. destruct (fil_path f_out); reflexivity. }
  pose proof (f_sync_pass f_out' w3 fs Hf3 Hoo) as Esync.
  exists stale, (set_faults fs w3).
  cbv zeta. fold buf3 window.
  split; [exact Hlen2 |]. split; [exact Hlenw |].
  split; [| split; [| split]].
  - assert (Hcond : negb (bool_decide (temp ≠ ∅)) && negb (f_remain fp >? 4) = false).
    { rewrite Hremain. destruct (Z.gtb_spec (fsize fp - fptr fp) 4);
        [now rewrite andb_false_r | unfold fp in *; lia]. }
    simpl. run_step. fold fp. unfold CRC_LEN, NVM_VALUE_LEN.
    rewrite Hcond, Hcount.
    rewrite (bind_Ret _ _ _ _ _ Er). simpl fst. simpl snd.
    run_step. fold step. rewrite Hstep16. fold hi. rewrite Hoff.
    run_step. run_step.
    change (io_buffer (nvm _)) with
      (overlay_window cnt hi temp (memset0 (Z.to_nat got) (Z.to_nat (n - got)) buf1)).
    rewrite Hbuf2. fold buf3 window.
    match goal with
    | |- bind (f_write f_out window) _ ?W = _ => change W with w2
    end.
    rewrite (bind_Ret _ _ _ _ _ Ew). cbn [fst snd].
    destruct (decide (FR_OK = FR_OK)) as [_ | ?]; [| contradiction].
    destruct (decide (n = n)) as [_ | ?]; [| contradiction].
    unfold fs_ritorno. rewrite (bind_Ret _ _ _ _ _ Esync).
    destruct (decide (FR_OK = FR_OK)) as [_ | ?]; [| contradiction].
    reflexivity.
  - unfold w3. destruct (fil_path f_out) as [q |]; [| discriminate].
    simpl in *. destruct (persist_dir w); [| discriminate].
    apply lookup_insert_eq.
  - unfold w3. destruct (fil_path f_out); reflexivity.
  - unfold w3. destruct (fil_path f_out); reflexivity.
Qed.

(** ** A window of the flush past the end of the open baseline *)

(** A read of no bytes that goes through. *)
Lemma nvm_f_read_nothing w fs :
  faults w = Pass :: fs ->
  f_is_open (file (nvm w)) = true ->
  0 <= fsize (file (nvm w)) - fptr (file (nvm w)) ->
  nvm_f_read 0 w
  = (Ret (FR_OK, 0),
     scanned (set_fptr (fptr (file (nvm w)) + 0) (fsize (file (nvm w))) (file (nvm w)))
             (io_buffer (nvm w)) (set_faults fs w)).
Proof.
  intros Hf Ho Hr. unfold nvm_f_read, f_read.
  run_step. rewrite (bind_Ret _ _ _ _ _ (next_fault_cons w _ _ Hf)).
  rewrite Ho. simpl. do 3 run_step. unfold ret. simpl.
  replace (Z.max 0 (Z.min 0 (fsize (file (nvm w)) - fptr (file (nvm w))))) with 0 by lia.
  simpl. reflexivity.
Qed.

(** One turn of the window loop of the flush once the open baseline has
    been read up to its trailer, with entries still in the snapshot: the
    window has no bytes, the new file is not extended, and the entries of
    the window are erased from the snapshot. *)
Lemma window_past_baseline_is_empty cfg fuel f_out cnt crc temp w fs out :
  0 < IO_BUFFER_SIZE cfg < 65536 ->
  faults w = Pass :: Pass :: Pass :: fs ->
  f_is_open (file (nvm w)) = true ->
  fsize (file (nvm w)) - fptr (file (nvm w)) = CRC_LEN ->
  temp <> ∅ ->
  f_is_open f_out = true ->
  fil_write f_out = true ->
  lookup_file (fil_path f_out) w = Some out ->
  fptr f_out = Z.of_nat (length out) ->
  fsize f_out = Z.of_nat (length out) ->
  let step := IO_BUFFER_SIZE cfg / NVM_VALUE_LEN in
  let hi := wrap16 (cnt + step) in
  window_runs_off cnt hi temp = false ->
  exists w',
    flush_loop cfg (S fuel) f_out cnt crc temp w
    = flush_loop cfg fuel (set_fptr (fptr f_out + 0) (fsize f_out + 0) f_out)
                 hi crc (erase_window cnt hi temp) w' /\
    lookup_file (fil_path f_out) w' = Some out /\
    f_remain (file (nvm w')) = CRC_LEN /\
    faults w' = fs.
Proof.
  intros Hbuf Hf Ho Hrem Hne Hoo How Hlo Hpo Hso step hi Hoff.
  unfold CRC_LEN, NVM_VALUE_LEN in *.
  set (fp := file (nvm w)).
  assert (Hremain : f_remain fp = 4).
  { unfold f_remain, wrap32, fp. rewrite Hrem. reflexivity. }
  assert (Hcond : negb (bool_decide (temp ≠ ∅)) && negb (f_remain fp >? 4) = false).
  { rewrite bool_decide_true by assumption. reflexivity. }
  assert (Hcount :
    wrap16 (if f_is_open fp
            then Z.min (IO_BUFFER_SIZE cfg) (wrap32 (f_remain fp - 4))
            else IO_BUFFER_SIZE cfg) = 0).
  { unfold fp at 1. rewrite Ho, Hremain.
    change (wrap32 (4 - 4)) with 0.
    replace (Z.min (IO_BUFFER_SIZE cfg) 0) with 0 by lia. reflexivity. }
  assert (Hstep16 : wrap16 step = step).
  { unfold wrap16. apply Z.mod_small. unfold step.
    split; [apply Z.div_pos; lia |].
    pose proof (Z.mul_div_le (IO_BUFFER_SIZE cfg) 4). lia. }
  assert (Hnonneg : 0 <= fsize (file (nvm w)) - fptr (file (nvm w))) by lia.
  pose proof (nvm_f_read_nothing w (Pass :: Pass :: fs) Hf Ho Hnonneg) as Er.
  fold fp in Er.
  set (w1 := scanned (set_fptr (fptr fp + 0) (fsize fp) fp) (io_buffer (nvm w))
                     (set_faults (Pass :: Pass :: fs) w)) in *.
  set (w2 := upd_nvm (fun nv => set_io_buffer
                                  (overlay_window cnt hi temp (io_buffer nv)) nv)
               (upd_nvm (fun nv => set_io_buffer
                          (memset0 (Z.to_nat 0) (Z.to_nat (0 - 0)) (io_buffer nv)) nv)
                        w1)).
  assert (Hlo2 : lookup_file (fil_path f_out) w2 = Some out).
  { destruct (fil_path f_out); exact Hlo. }
  pose proof (f_write_append f_out [] w2 (Pass :: fs) out eq_refl Hoo How Hlo2 Hpo Hso)
    as Ew.
  cbv zeta in Ew. rewrite app_nil_r in Ew.
  set (w3 := store_file (fil_path f_out) out (set_faults (Pass :: fs) w2)) in *.
  set (f_out' := set_fptr (fptr f_out + 0) (fsize f_out + 0) f_out).
  assert (Hf3 : faults w3 = Pass :: fs).
  { unfold w3. destruct (fil_path f_out); reflexivity. }
  pose proof (f_sync_pass f_out' w3 fs Hf3 Hoo) as Esync.
  exists (set_faults fs w3). split; [| split; [| split]].
  - simpl. run_step. fold fp. unfold CRC_LEN, NVM_VALUE_LEN.
    rewrite Hcond, Hcount.
    rewrite (bind_Ret _ _ _ _ _ Er). cbn [fst snd].
    run_step. fold step. rewrite Hstep16. fold hi. rewrite Hoff.
    run_step. run_step.
    match goal with
    | |- bind (f_write f_out ?win) _ ?W = _ =>
        change win with (@nil byte); change W with w2
    end.
    rewrite (bind_Ret _ _ _ _ _ Ew). cbn [fst snd].
    change (Z.of_nat (length (@nil byte))) with 0. fold f_out'.
    destruct (decide (FR_OK = FR_OK)) as [_ | ?]; [| contradiction].
    destruct (decide (0 = 0)) as [_ | ?]; [| contradiction].
    unfold fs_ritorno. rewrite (bind_Ret _ _ _ _ _ Esync).
    destruct (decide (FR_OK = FR_OK)) as [_ | ?]; [| contradiction].
    rewrite crc32_nil. reflexivity.
  - unfold w3. destruct (fil_path f_out) as [q |]; [| discriminate].
    simpl in *. destruct (persist_dir w); [| discriminate].
    apply lookup_insert_eq.
  - assert (Hfile : file (nvm (set_faults fs w3))
                    = set_fptr (fptr fp + 0) (fsize fp) fp).
    { unfold w3. destruct (fil_path f_out); reflexivity. }
    rewrite Hfile. unfold f_remain, wrap32. simpl.
    rewrite Z.add_0_r. fold fp in Hrem. rewrite Hrem. reflexivity.
  - unfold w3. destruct (fil_path f_out); reflexivity.
Qed.

(** ** Smaller facts the claims use *)

Lemma f_stat_absent p w :
  lookup_file p w = None ->
  exists r w', f_stat p w = (Ret r, w') /\ r <> FR_OK /\
               disk w' = disk w /\ persist_dir w' = persist_dir w.
Proof.
  intros H. unfold f_stat, bind, next_fault, gets, ret.
  destruct w as [n d dk [| f fs] c t e]; simpl in *.
  all: try destruct f; destruct p; simpl in *; rewrite ?H.
  all: eexists _, _; split; [reflexivity |]; repeat split; discriminate.
Qed.

Lemma map_insert_present k v v1 (m : gmap Z Z) :
  m !! k = Some v1 -> map_insert k v m = m.
Proof. intros H. unfold map_insert. now rewrite H. Qed.

(** An index that is already pending keeps its pending value through
    [write_persistent_value], whatever is written. *)
Lemma write_keeps_pending_entry cfg nv w v1 :
  write_cache (nvm w) !! index nv = Some v1 ->
  write_cache (nvm (snd (write_persistent_value cfg nv w))) = write_cache (nvm w).
Proof.
  intros Hp. rewrite write_persistent_value_unfold.
  pose proof (keeps_read_persistent_value cfg nv
                (upd_nvm (set_tmp_value (value nv)) w)) as K.
  apply staging_cache in K. simpl in K.
  destruct (read_persistent_value cfg nv _) as [[[st nv1] | | ] w1];
    simpl in *; auto.
  destruct (_ || _); simpl; [| assumption].
  rewrite K. eapply map_insert_present, Hp.
Qed.

(** ** The resolver and the preparation when no call fails *)

Lemma f_stat_present p w bytes :
  faults w = [] -> lookup_file p w = Some bytes -> f_stat p w = (Ret FR_OK, w).
Proof. intros Hf Hl. rewrite f_stat_nofault by assumption. now rewrite Hl. Qed.

Lemma f_stat_missing p w :
  faults w = [] -> lookup_file p w = None -> f_stat p w = (Ret FR_NO_FILE, w).
Proof. intros Hf Hl. rewrite f_stat_nofault by assumption. now rewrite Hl. Qed.

Lemma lookup_slot w k :
  persist_dir w = true -> lookup_file (persist_bin k) w = disk w !! k.
Proof. intros H. simpl. now rewrite H. Qed.

Lemma f_mkdir_creates w :
  faults w = [] -> persist_dir w = false ->
  f_mkdir w = (Ret FR_OK, set_persist_dir true (set_disk ∅ w)).
Proof.
  intros Hf Hp. unfold f_mkdir.
  rewrite (bind_Ret _ _ _ _ _ (next_fault_nofault w Hf)). simpl.
  unfold bind, gets. rewrite Hp. reflexivity.
Qed.

Ltac slot_index :=
  simpl;
  change ((0 + 1) mod PERSISTENCE_FILENAME_CNT) with 1;
  change ((0 + 1 + 1) mod PERSISTENCE_FILENAME_CNT) with 2;
  change ((0 + 1 + 1 + 1) mod PERSISTENCE_FILENAME_CNT) with 0;
  change (0 + 1 + 1) with 2; change (0 + 1) with 1; simpl.

(** The access [filenames[i]] at an index of the table. *)
Ltac table_slot :=
  erewrite bind_Ret
    by (apply filenames_at_slot; unfold PERSISTENCE_FILENAME_CNT; lia).

Ltac stat_present b :=
  slot_index; table_slot;
  erewrite bind_Ret
    by (apply (f_stat_present _ _ b);
        [assumption | rewrite lookup_slot by assumption; assumption]);
  slot_index.

Ltac stat_missing :=
  slot_index; table_slot;
  erewrite bind_Ret
    by (apply f_stat_missing;
        [assumption | rewrite lookup_slot by assumption; assumption]);
  slot_index.

Lemma active_file_index_rotation w k :
  faults w = [] -> persist_dir w = true ->
  0 <= k < PERSISTENCE_FILENAME_CNT ->
  is_Some (disk w !! k) ->
  disk w !! ((k + 1) mod PERSISTENCE_FILENAME_CNT) = None ->
  active_file_index w = (Ret k, w).
Proof.
  unfold PERSISTENCE_FILENAME_CNT. intros Hf Hp Hk Hb' Hnext.
  unfold active_file_index.
  assert (k = 0 \/ k = 1 \/ k = 2) as [-> | [-> | ->]] by lia.
  - change ((0 + 1) mod 3) with 1 in Hnext.
    destruct (disk w !! 0) as [b0 |] eqn:E0; [| now destruct Hb'].
    stat_present b0. stat_missing. reflexivity.
  - change ((1 + 1) mod 3) with 2 in Hnext.
    destruct (disk w !! 1) as [b1 |] eqn:E1; [| now destruct Hb'].
    destruct (disk w !! 0) as [b0 |] eqn:E0.
    + stat_present b0. stat_present b1. reflexivity.
    + stat_missing. stat_present b1. stat_missing. reflexivity.
  - change ((2 + 1) mod 3) with 0 in Hnext.
    destruct (disk w !! 2) as [b2 |] eqn:E2; [| now destruct Hb'].
    stat_missing.
    destruct (disk w !! 1) as [b1 |] eqn:E1.
    + stat_present b1. stat_present b2. reflexivity.
    + stat_missing. stat_present b2. reflexivity.
Qed.

(** With no file in any slot the resolver runs its index off the table. *)
Lemma active_file_index_none w :
  faults w = [] ->
  (forall j, 0 <= j < PERSISTENCE_FILENAME_CNT -> lookup_file (persist_bin j) w = None) ->
  active_file_index w = (Ret PERSISTENCE_FILENAME_CNT, w).
Proof.
  intros Hf Hnone. unfold active_file_index. simpl.
  assert (H0 := Hnone 0 ltac:(unfold PERSISTENCE_FILENAME_CNT; lia)).
  assert (H1 := Hnone 1 ltac:(unfold PERSISTENCE_FILENAME_CNT; lia)).
  assert (H2 := Hnone 2 ltac:(unfold PERSISTENCE_FILENAME_CNT; lia)).
  table_slot. rewrite (bind_Ret _ _ _ _ _ (f_stat_missing _ w Hf H0)). simpl.
  table_slot. rewrite (bind_Ret _ _ _ _ _ (f_stat_missing _ w Hf H1)). simpl.
  table_slot. rewrite (bind_Ret _ _ _ _ _ (f_stat_missing _ w Hf H2)).
  reflexivity.
Qed.

(** [prepare_persistence_file] with no generation file on the card: the
    index the resolver returns is used on [filenames] as it is. *)
Lemma prepare_without_generation cfg w :
  faults w = [] ->
  f_is_open (file (nvm w)) = false ->
  (forall n, 0 <= n < PERSISTENCE_FILENAME_CNT -> disk w !! n = None) ->
  exists w', prepare_persistence_file cfg w = (Undefined, w').
Proof.
  intros Hf Hclosed Hnone.
  assert (Hrest : forall wm (k : Z -> path -> M stat_t),
    faults wm = [] -> disk wm = disk w ->
    exists w', (f_mkdir ;;; idx <- active_file_index ;; p <- filenames_at idx ;; k idx p)%code wm
               = (Undefined, w')).
  { intros wm k Hfm Hdisk.
    assert (Hgo : forall w1, faults w1 = [] ->
              (forall j, 0 <= j < PERSISTENCE_FILENAME_CNT ->
                         lookup_file (persist_bin j) w1 = None) ->
              exists w', (idx <- active_file_index ;; p <- filenames_at idx ;; k idx p)%code w1
                         = (Undefined, w')).
    { intros w1 Hf1 Hn1.
      rewrite (bind_Ret _ _ _ _ _ (active_file_index_none w1 Hf1 Hn1)).
      exists w1. apply bind_Undefined, filenames_at_outside.
      unfold PERSISTENCE_FILENAME_CNT. lia. }
    destruct (persist_dir wm) eqn:Hp.
    - rewrite (bind_Ret _ _ _ _ _ (f_mkdir_exists wm Hfm Hp)).
      apply Hgo; [assumption |].
      intros j Hj. rewrite lookup_slot by assumption. rewrite Hdisk. auto.
    - rewrite (bind_Ret _ _ _ _ _ (f_mkdir_creates wm Hfm Hp)).
      apply Hgo; [assumption |].
      intros j Hj. reflexivity. }
  unfold prepare_persistence_file.
  run_step. rewrite Hclosed. cbv iota. run_step. cbv iota zeta. run_step.
  destruct (fat_fs_type (nvm w)).
  - apply Hrest; auto.
  - unfold fs_ritorno. rewrite (bind_Ret _ _ _ _ _ (f_mount_nofault w Hf)).
    simpl. apply Hrest; auto.
Qed.

(** The scan of a file that is shorter than its trailer: the only chunk
    ends the file with [br < CRC_LEN], and [br -= CRC_LEN] wraps. *)
Lemma check_short_file cfg w content :
  CRC_LEN <= IO_BUFFER_SIZE cfg ->
  faults w = [] ->
  f_is_open (file (nvm w)) = true ->
  lookup_file (fil_path (file (nvm w))) w = Some content ->
  fsize (file (nvm w)) = Z.of_nat (length content) ->
  (0 < length content < 4)%nat ->
  exists w', check_persistence_file_crc cfg w = (Undefined, w').
Proof.
  unfold CRC_LEN. intros H4 Hf Ho Hl Hs Hlen.
  set (fp0 := set_fptr (0 `min` fsize (file (nvm w))) (fsize (file (nvm w))) (file (nvm w))).
  set (w0 := upd_nvm (set_file fp0) w).
  assert (Hfp0 : fptr fp0 = 0) by (unfold fp0; simpl; lia).
  assert (Hr : nvm_f_read (IO_BUFFER_SIZE cfg) w0
               = (Ret (FR_OK, Z.of_nat (length content)),
                  scanned (set_fptr (Z.of_nat (length content)) (fsize fp0) fp0)
                          (content ++ drop (length content) (io_buffer (nvm w0))) w0)).
  { assert (Hl0 : lookup_file (fil_path (file (nvm w0))) w0 = Some content).
    { unfold w0. rewrite lookup_file_upd_nvm. exact Hl. }
    assert (Hp0 : 0 <= fptr (file (nvm w0))).
    { change (file (nvm w0)) with fp0. lia. }
    pose proof (nvm_f_read_nofault (IO_BUFFER_SIZE cfg) w0 content Hf Ho Hl0 Hp0 Hs) as R.
    cbv zeta in R. change (file (nvm w0)) with fp0 in R.
    rewrite Hfp0 in R.
    replace (IO_BUFFER_SIZE cfg `min` (fsize fp0 - 0))
      with (Z.of_nat (length content)) in R by (unfold fp0; simpl; lia).
    rewrite Nat2Z.id in R. change (Z.to_nat 0) with 0%nat in R.
    rewrite drop_0, firstn_all in R.
    apply R. lia. }
  unfold check_persistence_file_crc, fs_ritorno, on_nvm_file.
  run_step. rewrite (bind_Ret _ _ _ _ _ (f_lseek_nofault _ 0 w Hf Ho)).
  do 2 run_step. simpl. run_step. fold fp0 w0.
  change (fsize (file (nvm w0))) with (fsize (file (nvm w))). rewrite Hs, Nat2Z.id.
  destruct (length content) as [| m] eqn:Em; [lia |].
  simpl. run_step. change (file (nvm w0)) with fp0.
  unfold f_eof at 1. rewrite Hfp0.
  destruct (Z.eqb_spec 0 (fsize fp0)) as [E0 | _];
    [unfold fp0 in E0; simpl in E0; lia |].
  rewrite <- Em in *. rewrite (bind_Ret _ _ _ _ _ Hr). simpl.
  do 2 run_step. simpl. unfold f_eof. simpl.
  rewrite Hs, Z.eqb_refl.
  unfold CRC_LEN at 1.
  destruct (Z.ltb_spec (Z.of_nat (length content)) 4); [| lia].
  eexists. reflexivity.
Qed.

(** [prepare_persistence_file] when the file the resolver selects is
    shorter than its trailer. *)
Lemma prepare_short_generation cfg w k bytes :
  CRC_LEN <= IO_BUFFER_SIZE cfg ->
  faults w = [] -> persist_dir w = true ->
  f_is_open (file (nvm w)) = false ->
  0 <= k < PERSISTENCE_FILENAME_CNT ->
  disk w !! k = Some bytes ->
  disk w !! ((k + 1) mod PERSISTENCE_FILENAME_CNT) = None ->
  (0 < length bytes < 4)%nat ->
  exists w', prepare_persistence_file cfg w = (Undefined, w').
Proof.
  intros H4 Hf Hd Hclosed Hk Hfile Hnext Hlen.
  assert (Hrest : forall wm (rest : stat_t -> M stat_t),
    faults wm = [] -> persist_dir wm = true -> disk wm = disk w ->
    exists w',
      (f_mkdir ;;;
       idx <- active_file_index ;;
       p <- filenames_at idx ;;
       fs_ritorno (on_nvm_file (fun fp => f_open_existing fp p))
                  STAT_PERSISTENCE_ERROR (
         modify (upd_nvm (set_file_index idx)) ;;;
         st <- check_persistence_file_crc cfg ;;
         rest st))%code wm
      = (Undefined, w')).
  { intros wm rest Hfm Hdm Hdisk.
    assert (Hlook0 : lookup_file (persist_bin k) wm = Some bytes).
    { simpl. now rewrite Hdm, Hdisk. }
    rewrite (bind_Ret _ _ _ _ _ (f_mkdir_exists wm Hfm Hdm)).
    rewrite (bind_Ret _ _ _ _ _ (active_file_index_rotation wm k Hfm Hdm Hk
               ltac:(rewrite Hdisk, Hfile; eauto) ltac:(now rewrite Hdisk))).
    rewrite (bind_Ret _ _ _ _ _ (filenames_at_slot k wm Hk)).
    unfold fs_ritorno, on_nvm_file.
    run_step.
    rewrite (bind_Ret _ _ _ _ _
               (f_open_existing_nofault _ _ wm bytes Hfm Hlook0)).
    do 2 run_step. simpl. run_step.
    set (fp1 := mkFIL true (persist_bin k) false 0 (Z.of_nat (length bytes))).
    set (w1 := upd_nvm (set_file_index k) (upd_nvm (set_file fp1) wm)).
    destruct (check_short_file cfg w1 bytes) as [w2 Ec];
      try assumption; try reflexivity.
    exists w2. apply bind_Undefined. exact Ec. }
  unfold prepare_persistence_file.
  run_step. rewrite Hclosed. cbv iota. run_step. cbv iota zeta. run_step.
  destruct (fat_fs_type (nvm w)).
  - apply Hrest; auto.
  - unfold fs_ritorno. rewrite (bind_Ret _ _ _ _ _ (f_mount_nofault w Hf)).
    simpl. apply Hrest; auto.
Qed.

(** An execution of the read that leaves defined behaviour in
    [prepare_persistence_file] takes the accessors with it. *)
Lemma read_undefined_in_prepare cfg nv w w' :
  prepare_persistence_file cfg w = (Undefined, w') ->
  read_persistent_value cfg nv w = (Undefined, w').
Proof. intros E. unfold read_persistent_value, ritorno. now apply bind_Undefined. Qed.

Lemma write_undefined_in_prepare cfg nv w w' :
  prepare_persistence_file cfg (upd_nvm (set_tmp_value (value nv)) w) = (Undefined, w') ->
  write_persistent_value cfg nv w = (Undefined, w').
Proof.
  intros E. rewrite write_persistent_value_unfold. cbv zeta.
  now rewrite (read_undefined_in_prepare _ _ _ _ E).
Qed.

(** * The claims *)

(** ** C1: round trip *)

(** C1 (the code does not do this). The claim: after [write (i, v)] and a
    flush that returns success, [read (i)] returns [v]. The code at an
    index beyond the extent of the open baseline file: the baseline holds
    slots 0..99, [write_persistent_value] stages [150 -> 150.5] (the read of
    slot 150 fails), [write_persistent_values] returns [STAT_OK], and
    [read_persistent_value] of index 150 then fails with
    [STAT_PERSISTENCE_ERROR]: the staged value never reached the new file
    ([window_past_baseline_is_empty] is the turn of the loop that loses
    it). *)
Theorem round_trip_lost_beyond_baseline :
  let nv := mkNv 150 float_150_5 in
  let w0 := idle_world 512 {[0 := baseline100]} ∅ [] in
  let written := write_persistent_value sample_config nv w0 in
  let flushed := write_persistent_values sample_config 8 (snd written) in
  let reread := read_persistent_value sample_config (mkNv 150 0) (snd flushed) in
  fst written = Ret (STAT_OK, nv) /\
  write_cache (nvm (snd written)) = {[150 := float_150_5]} /\
  fst flushed = Ret STAT_OK /\
  fst reread = Ret (STAT_PERSISTENCE_ERROR, mkNv 150 0).
Proof. vm_compute. repeat split. Qed.

(** The comparison that decides whether a value is staged is the float
    [!=], not a comparison of the bits: writing [-0.0f] over a stored
    [+0.0f] stages nothing, and the slot still reads [+0.0f] after a
    successful flush. *)
Example negative_zero_is_not_staged :
  let nv := mkNv 1 2147483648 in
  let w0 := idle_world 512 {[0 := generation (values [0; 0; 0])]} ∅ [] in
  let written := write_persistent_value sample_config nv w0 in
  let flushed := write_persistent_values sample_config 8 (snd written) in
  let reread := read_persistent_value sample_config (mkNv 1 0) (snd flushed) in
  fst written = Ret (STAT_OK, nv) /\
  write_cache (nvm (snd written)) = ∅ /\
  fst flushed = Ret STAT_OK /\
  fst reread = Ret (STAT_OK, mkNv 1 0).
Proof. vm_compute. repeat split. Qed.

(** ** C2: windowed merge *)

(** C2 (the code does not do this). The claim: with a baseline of slots
    0..99 and the cache [{5: 5.5, 150: 150.5}], a successful flush yields a
    generation with 5.5 at index 5, the other baseline slots unchanged and
    150.5 at index 150. The code, for buffers of 4, 64, 400, 512 and 1024
    bytes alike: the flush returns [STAT_OK], and the new generation is the
    baseline with slot 5 replaced and nothing else: it has 100 slots, index
    150 is not in it, and reading it fails. Once the baseline is open, a
    window carries only as many bytes as the baseline has left, so the
    windows past its end are empty; the entry is erased from the snapshot
    all the same ([window_past_baseline_is_empty]). *)
Theorem windowed_merge_drops_entry_beyond_baseline :
  Forall
    (fun n =>
       let cfg := config_with_buffer n in
       let cache : gmap Z Z := {[5 := float_5_5; 150 := float_150_5]} in
       let w0 := idle_world n {[0 := baseline100]} cache [] in
       let flushed := write_persistent_values cfg 256 w0 in
       fst flushed = Ret STAT_OK /\
       disk (snd flushed)
       = {[1 := generation (values (<[5%nat := float_5_5]> slots100))]} /\
       status_of (read_persistent_value cfg (mkNv 150 0) (snd flushed))
       = Some STAT_PERSISTENCE_ERROR)
    [4; 64; 400; 512; 1024].
Proof.
  repeat (apply List.Forall_cons; [vm_compute; repeat split |]).
  apply List.Forall_nil.
Qed.

(** ** C3: last write wins *)

(** C3 (the code does not do this). The claim: a write to an index that
    already has a pending entry replaces that entry. The code: on a store
    whose generation holds 8.0 at index 7, with [7 -> 1.0] pending,
    [write_persistent_value] of [(7, 2.0)] returns [STAT_OK] and leaves the
    cache at [7 -> 1.0] ([std::map::insert] keeps the element of a key that
    is present); the flush then persists 1.0. *)
Theorem pending_entry_is_not_replaced :
  let v1 := float_of_int 1 in
  let v2 := float_of_int 2 in
  let w0 := idle_world 512 {[0 := baseline100]} {[7 := v1]} [] in
  let written := write_persistent_value sample_config (mkNv 7 v2) w0 in
  let flushed := write_persistent_values sample_config 8 (snd written) in
  let reread := read_persistent_value sample_config (mkNv 7 0) (snd flushed) in
  v1 <> v2 /\
  fst written = Ret (STAT_OK, mkNv 7 v2) /\
  write_cache (nvm (snd written)) = {[7 := v1]} /\
  fst flushed = Ret STAT_OK /\
  fst reread = Ret (STAT_OK, mkNv 7 v1).
Proof. vm_compute. repeat split. discriminate. Qed.

(** ** C4: refusal while the machine moves *)

(** C4, as stated, fails for the write: with the machine in a machining
    cycle and a generation on the card that holds 6.0 at index 5,
    [write_persistent_value] of [(5, 5.5)] returns [STAT_OK], stages its
    entry in the cache and reports no exception. *)
Lemma write_accepted_while_moving :
  let nv := mkNv 5 float_5_5 in
  let w0 := moving_world 512 {[0 := baseline100]} ∅ in
  let written := write_persistent_value sample_config nv w0 in
  cycle_state w0 <> CYCLE_OFF /\
  fst written = Ret (STAT_OK, nv) /\
  write_cache (nvm w0) = ∅ /\
  write_cache (nvm (snd written)) = {[5 := float_5_5]} /\
  exceptions (snd written) = [].
Proof. vm_compute. repeat split. discriminate. Qed.

(** C4 (amended). While the cycle state is not [CYCLE_OFF], the batch
    flush is refused: it returns [STAT_FILE_NOT_OPEN] through
    [rpt_exception] and changes nothing else (no driver call, no change to
    the card, the file object or the cache). [write_persistent_value] is
    not guarded by the cycle state: it does while the machine moves exactly
    what it does when the machine is idle. *)
Theorem flush_refused_write_staged_while_moving cfg w :
  cycle_state w <> CYCLE_OFF ->
  (forall fuel,
     write_persistent_values cfg fuel w
     = (Ret STAT_FILE_NOT_OPEN, add_exception STAT_FILE_NOT_OPEN w)) /\
  (forall nv,
     let idle := write_persistent_value cfg nv (set_cycle_state CYCLE_OFF w) in
     write_persistent_value cfg nv w
     = (fst idle, set_cycle_state (cycle_state w) (snd idle))).
Proof.
  intros Hc. split.
  - intros fuel. unfold write_persistent_values.
    run_step. destruct (decide (cycle_state w = CYCLE_OFF)); [contradiction |].
    reflexivity.
  - intros nv idle. subst idle.
    rewrite <- (commutes_write_persistent_value (cycle_state w) cfg nv).
    now rewrite set_cycle_state_twice, set_cycle_state_id.
Qed.

Lemma flush_refused_write_staged_while_moving_witness :
  write_persistent_values sample_config 8 (moving_world 512 ∅ {[5 := float_5_5]})
  = (Ret STAT_FILE_NOT_OPEN,
     add_exception STAT_FILE_NOT_OPEN (moving_world 512 ∅ {[5 := float_5_5]})).
Proof.
  refine (proj1 (flush_refused_write_staged_while_moving sample_config
                   (moving_world 512 ∅ {[5 := float_5_5]}) _) 8%nat).
  simpl. discriminate.
Defined.

(** ** C5: the empty store *)

(** C5 (the code does not do this). The claim: when none of the three
    generation files exists, [active_file_index] returns slot 0. The code:
    the [for] loop runs [i] up to [PERSISTENCE_FILENAME_CNT] and that is
    what is returned, 3, whatever the driver reports for the three
    [f_stat] calls. *)
Theorem active_file_index_empty_store w :
  (forall n, 0 <= n < PERSISTENCE_FILENAME_CNT -> disk w !! n = None) ->
  fst (active_file_index w) = Ret PERSISTENCE_FILENAME_CNT.
Proof.
  intros H.
  assert (Habs : forall w', disk w' = disk w -> forall n,
            0 <= n < PERSISTENCE_FILENAME_CNT ->
            lookup_file (persist_bin n) w' = None).
  { intros w' Hd n Hn.
    simpl. rewrite Hd, (H n Hn). now destruct (persist_dir w'). }
  unfold active_file_index, PERSISTENCE_FILENAME_CNT in *. simpl.
  destruct (f_stat_absent (persist_bin 0) w) as (r0 & w0 & E0 & N0 & D0 & _);
    [apply Habs; [reflexivity | lia] |].
  unfold filenames_at at 1. simpl. do 2 run_step.
  destruct (decide (r0 = FR_OK)); [contradiction |].
  destruct (f_stat_absent (persist_bin 1) w0) as (r1 & w1 & E1 & N1 & D1 & _);
    [apply Habs; [congruence | lia] |].
  unfold filenames_at at 1. simpl. do 2 run_step.
  destruct (decide (r1 = FR_OK)); [contradiction |].
  destruct (f_stat_absent (persist_bin 2) w1) as (r2 & w2 & E2 & N2 & D2 & _);
    [apply Habs; [congruence | lia] |].
  unfold filenames_at at 1. simpl. do 2 run_step.
  destruct (decide (r2 = FR_OK)); [contradiction |].
  reflexivity.
Qed.

Lemma active_file_index_empty_store_witness :
  fst (active_file_index (idle_world 512 ∅ ∅ [Pass; Fail 0])) = Ret 3.
Proof.
  apply (active_file_index_empty_store (idle_world 512 ∅ ∅ [Pass; Fail 0])).
  intros n _. reflexivity.
Defined.

(** ** C6: a corrupt generation *)

(** C6. When the file that the resolver selects holds [body ++ trailer]
    with a 4-byte trailer that is not the CRC32 of [body],
    [prepare_persistence_file] returns [STAT_PERSISTENCE_ERROR], leaves the
    file object closed, the file deleted from the card and
    [nvm.file_index] at 0. It is stated for a call that reaches the check
    (the file object is not open yet) on a card whose driver calls go
    through, and for a file the scan is defined on. *)
Theorem corrupt_generation_rejected cfg w idx body trailer :
  CRC_LEN <= IO_BUFFER_SIZE cfg ->
  faults w = [] ->
  persist_dir w = true ->
  f_is_open (file (nvm w)) = false ->
  fst (active_file_index w) = Ret idx ->
  0 <= idx < PERSISTENCE_FILENAME_CNT ->
  disk w !! idx = Some (body ++ trailer) ->
  length trailer = 4%nat ->
  tail_ok cfg (Z.of_nat (length (body ++ trailer))) ->
  crc32 0 body <> le32_decode trailer ->
  exists w',
    prepare_persistence_file cfg w = (Ret STAT_PERSISTENCE_ERROR, w') /\
    f_is_open (file (nvm w')) = false /\
    disk w' = delete idx (disk w) /\
    file_index (nvm w') = 0.
Proof.
  intros H4 Hf Hd Hclosed Hidx Hrange Hfile Htr Htail Hcrc.
  set (content := body ++ trailer) in *.
  assert (Hrest : forall wm,
    faults wm = [] -> persist_dir wm = true -> disk wm = disk w ->
    fst (active_file_index wm) = Ret idx ->
    exists w',
      (f_mkdir ;;;
       idx <- active_file_index ;;
       p <- filenames_at idx ;;
       fs_ritorno (on_nvm_file (fun fp => f_open_existing fp p))
                  STAT_PERSISTENCE_ERROR (
         modify (upd_nvm (set_file_index idx)) ;;;
         st <- check_persistence_file_crc cfg ;;
         if decide (st = STAT_OK) then
           prev <- gets (fun w => PREV_FILE_INDEX (nvm w)) ;;
           q <- filenames_at prev ;;
           f_unlink q ;;;
           ret STAT_OK
         else
           on_nvm_file f_close ;;;
           cur <- gets (fun w => file_index (nvm w)) ;;
           q <- filenames_at cur ;;
           f_unlink q ;;;
           modify (upd_nvm (set_file_index 0)) ;;;
           ret STAT_PERSISTENCE_ERROR))%code wm
      = (Ret STAT_PERSISTENCE_ERROR, w') /\
      f_is_open (file (nvm w')) = false /\
      disk w' = delete idx (disk w) /\
      file_index (nvm w') = 0).
  { intros wm Hfm Hdm Hdisk Hafi.
    assert (Hlook : forall g, lookup_file (persist_bin idx) (upd_nvm g wm) = Some content).
    { intros g. simpl. now rewrite Hdm, Hdisk. }
    assert (Hlook0 : lookup_file (persist_bin idx) wm = Some content).
    { simpl. now rewrite Hdm, Hdisk. }
    destruct (active_file_index_loop_nofault
                (S (Z.to_nat PERSISTENCE_FILENAME_CNT)) 0 wm (Z.le_refl 0) Hfm)
      as [i Eafi].
    fold active_file_index in Eafi. rewrite Eafi in Hafi. simpl in Hafi.
    injection Hafi as ->.
    set (fp1 := mkFIL true (persist_bin idx) false 0 (Z.of_nat (length content))).
    set (w1 := upd_nvm (set_file_index idx) (upd_nvm (set_file fp1) wm)).
    destruct (check_persistence_file_crc_nofault cfg H4 w1 content) as [buf Ec];
      try assumption; try reflexivity.
    set (fp2 := set_fptr (fsize (file (nvm w1))) (fsize (file (nvm w1))) (file (nvm w1))) in Ec.
    set (w2 := scanned fp2 buf w1) in Ec.
    assert (Hst : scan_status (scan_result 0 (NAN_AS_UINT32 cfg) content)
                  = STAT_PERSISTENCE_ERROR).
    { rewrite scan_result_cons by (unfold content; rewrite length_app; lia).
      unfold content. rewrite length_app, Htr.
      replace (length body + 4 - 4)%nat with (length body) by lia.
      rewrite take_app_length, drop_app_length.
      unfold scan_status. simpl. now destruct (decide _). }
    rewrite Hst in Ec.
    eexists. split.
    - rewrite (bind_Ret _ _ _ _ _ (f_mkdir_exists wm Hfm Hdm)).
      rewrite (bind_Ret _ _ _ _ _ Eafi).
      rewrite (bind_Ret _ _ _ _ _ (filenames_at_slot idx wm Hrange)).
      unfold fs_ritorno, on_nvm_file.
      run_step.
      rewrite (bind_Ret _ _ _ _ _
                 (f_open_existing_nofault _ _ wm content Hfm Hlook0)).
      do 2 run_step. simpl. run_step.
      fold fp1 w1. rewrite (bind_Ret _ _ _ _ _ Ec). simpl.
      run_step.
      rewrite (bind_Ret _ _ _ _ _ (f_close_nofault fp2 w2 Hfm eq_refl)).
      do 3 run_step. simpl.
      rewrite (bind_Ret _ _ _ _ _ (filenames_at_slot idx _ Hrange)).
      match goal with
      | |- bind (f_unlink ?p) _ ?W = _ =>
          assert (HlW : lookup_file p W = Some content)
            by (simpl; rewrite Hdm, Hdisk; exact Hfile);
          rewrite (bind_Ret _ _ _ _ _ (f_unlink_nofault p W content Hfm HlW))
      end.
      run_step. reflexivity.
    - simpl. repeat split. now rewrite Hdisk. }
  unfold prepare_persistence_file.
  run_step. rewrite Hclosed. cbv iota. run_step. cbv iota zeta. run_step.
  destruct (fat_fs_type (nvm w)).
  - apply Hrest; auto.
  - unfold fs_ritorno. rewrite (bind_Ret _ _ _ _ _ (f_mount_nofault w Hf)).
    simpl. apply Hrest; auto.
    pose proof (commutes_upd_nvm_active_file_index_loop (set_fat_fs_type true)
                  (S (Z.to_nat PERSISTENCE_FILENAME_CNT)) 0 w) as C.
    fold active_file_index in C. rewrite C. simpl. exact Hidx.
Qed.

Lemma corrupt_generation_rejected_witness :
  exists w',
    prepare_persistence_file sample_config
      (idle_world 512 {[0 := changed_body ++ stale_trailer]} ∅ [])
    = (Ret STAT_PERSISTENCE_ERROR, w') /\
    f_is_open (file (nvm w')) = false /\
    disk w' !! 0 = None /\
    file_index (nvm w') = 0.
Proof.
  destruct (corrupt_generation_rejected sample_config
              (idle_world 512 {[0 := changed_body ++ stale_trailer]} ∅ [])
              0 changed_body stale_trailer)
    as (w' & E & Hclosed & Hdisk & Hidx).
  - unfold CRC_LEN. simpl. lia.
  - reflexivity.
  - reflexivity.
  - reflexivity.
  - vm_compute. reflexivity.
  - unfold PERSISTENCE_FILENAME_CNT. lia.
  - reflexivity.
  - reflexivity.
  - vm_compute. intros [_ H]. discriminate H.
  - vm_compute. discriminate.
  - exists w'. repeat split; try assumption.
    rewrite Hdisk. apply lookup_delete_eq.
Defined.

(** ** C7: the failure budget *)

(** C7. When the scheduler attempts a flush (the cache is not empty and
    the minimum interval has passed) and the flush returns: on [STAT_OK]
    the cache is cleared and the failure counter reset; on any other
    status the counter is incremented, and if it thereby reaches
    [MAX_WRITE_FAILURES] the cache is cleared and the counter reset,
    otherwise the cache is what it was. The scheduler itself returns
    [STAT_OK]. *)
Theorem failure_budget cfg fuel w st w1 :
  write_cache (nvm w) <> ∅ ->
  MIN_WRITE_INTERVAL cfg <= wrap32 (systick w - last_write_systick (nvm w)) ->
  write_persistent_values cfg fuel w = (Ret st, w1) ->
  exists w2,
    write_persistent_values_callback cfg fuel w = (Ret STAT_OK, w2) /\
    if decide (st = STAT_OK) then
      write_cache (nvm w2) = ∅ /\ write_failures (nvm w2) = 0
    else if write_failures (nvm w) + 1 >=? MAX_WRITE_FAILURES cfg then
      write_cache (nvm w2) = ∅ /\ write_failures (nvm w2) = 0
    else
      write_cache (nvm w2) = write_cache (nvm w) /\
      write_failures (nvm w2) = write_failures (nvm w) + 1.
Proof.
  intros Hc Ht E.
  pose proof (keeps_write_persistent_values cfg fuel w) as K.
  rewrite E in K. simpl in K. apply cache_of_staging in K as [Kc Kf].
  unfold write_persistent_values_callback, f_polldisk.
  do 2 run_step.
  rewrite bool_decide_true by assumption.
  do 2 run_step.
  destruct (Z.ltb_spec (wrap32 (systick w - last_write_systick (nvm w)))
                       (MIN_WRITE_INTERVAL cfg)) as [? | _]; [lia |].
  run_step.
  destruct (decide (st = STAT_OK)) as [-> | Hst].
  - do 3 run_step. eexists. split; [reflexivity |]. simpl. auto.
  - pose proof (filenames_at_slot (NEXT_FILE_INDEX (nvm w1)) w1
                  (NEXT_FILE_INDEX_range (nvm w1))) as Ep.
    destruct (f_unlink_returns (persist_bin (NEXT_FILE_INDEX (nvm w1))) w1)
      as (r & w2 & Eu).
    pose proof (keeps_f_unlink (persist_bin (NEXT_FILE_INDEX (nvm w1))) w1) as Ku.
    rewrite Eu in Ku. simpl in Ku. apply cache_of_staging in Ku as [Kuc Kuf].
    destruct (write_failures (nvm w) + 1 >=? MAX_WRITE_FAILURES cfg) eqn:Hk.
    + erewrite (bind_Ret (bind _ _)).
      2:{ do 5 run_step. simpl. rewrite Kuf, Kf, Hk. reflexivity. }
      eexists. split; [do 2 run_step; reflexivity |]. simpl. auto.
    + erewrite (bind_Ret (bind _ _)).
      2:{ do 5 run_step. simpl. rewrite Kuf, Kf, Hk. reflexivity. }
      eexists. split; [do 2 run_step; reflexivity |]. simpl.
      split; congruence.
Qed.

Lemma failure_budget_witness :
  exists w2,
    write_persistent_values_callback sample_config 8
      (moving_world 512 ∅ {[5 := float_5_5]})
    = (Ret STAT_OK, w2) /\
    write_cache (nvm w2) = {[5 := float_5_5]} /\
    write_failures (nvm w2) = 1.
Proof.
  destruct (failure_budget sample_config 8
              (moving_world 512 ∅ {[5 := float_5_5]}) STAT_FILE_NOT_OPEN
              (add_exception STAT_FILE_NOT_OPEN
                 (moving_world 512 ∅ {[5 := float_5_5]})))
    as (w2 & E & H).
  - vm_compute. discriminate.
  - vm_compute. discriminate.
  - reflexivity.
  - exists w2. split; [exact E | exact H].
Defined.

(** Three failed attempts in a row, one second apart (the machine keeps
    moving, so every flush is refused): the counter goes 1, 2, 0 and the
    third attempt drops the cache. *)
Example three_failures_drop_the_cache :
  let attempt w := snd (write_persistent_values_callback sample_config 8 w) in
  let w1 := attempt (moving_world 512 ∅ {[5 := float_5_5]}) in
  let w2 := attempt (advance 1000 w1) in
  let w3 := attempt (advance 1000 w2) in
  map (fun w => (write_failures (nvm w), write_cache (nvm w))) [w1; w2; w3]
  = [(1, {[5 := float_5_5]}); (2, {[5 := float_5_5]}); (0, ∅)].
Proof. vm_compute. reflexivity. Qed.

(** ** C8: who changes the cache *)

(** C8. [write_persistent_values] leaves [nvm.write_cache] as it found
    it, whatever its outcome (it works on a copy); so does
    [read_persistent_value]. [write_persistent_value] leaves it unchanged
    or inserts the entry of its argument; the scheduler leaves it
    unchanged or clears it. Hence after a flush that failed the cache is
    what it was before the attempt. *)
Theorem cache_frame cfg :
  (forall fuel w,
     write_cache (nvm (snd (write_persistent_values cfg fuel w)))
     = write_cache (nvm w)) /\
  (forall nv w,
     write_cache (nvm (snd (read_persistent_value cfg nv w)))
     = write_cache (nvm w)) /\
  (forall nv w,
     let after := write_cache (nvm (snd (write_persistent_value cfg nv w))) in
     after = write_cache (nvm w) \/
     after = map_insert (index nv) (value nv) (write_cache (nvm w))) /\
  (forall fuel w,
     let after := write_cache (nvm (snd (write_persistent_values_callback cfg fuel w))) in
     after = write_cache (nvm w) \/ after = ∅).
Proof.
  repeat split.
  - intros fuel w. apply staging_cache, keeps_write_persistent_values.
  - intros nv w. apply staging_cache, keeps_read_persistent_value.
  - intros nv w after. subst after.
    rewrite write_persistent_value_unfold.
    pose proof (keeps_read_persistent_value cfg nv
                  (upd_nvm (set_tmp_value (value nv)) w)) as K.
    apply staging_cache in K. simpl in K.
    destruct (read_persistent_value cfg nv _) as [[[st nv1] | | ] w1];
      simpl in *; auto.
    destruct (_ || _); simpl; [right | left]; congruence.
  - intros fuel w after. subst after.
    unfold write_persistent_values_callback, f_polldisk.
    do 2 run_step.
    destruct (bool_decide (write_cache (nvm w) ≠ ∅)); [| now left].
    do 2 run_step.
    destruct (_ <? _); [now left |].
    pose proof (keeps_write_persistent_values cfg fuel w) as K.
    apply staging_cache in K.
    destruct (write_persistent_values cfg fuel w) as [[st | | ] w1] eqn:E;
      simpl in K.
    + run_step. destruct (decide (st = STAT_OK)).
      * do 3 run_step. now right.
      * pose proof (filenames_at_slot (NEXT_FILE_INDEX (nvm w1)) w1
                      (NEXT_FILE_INDEX_range (nvm w1))) as Ep.
        destruct (f_unlink_returns (persist_bin (NEXT_FILE_INDEX (nvm w1))) w1)
          as (r & w2 & Eu).
        pose proof (keeps_f_unlink (persist_bin (NEXT_FILE_INDEX (nvm w1))) w1) as Ku.
        rewrite Eu in Ku. apply staging_cache in Ku. simpl in Ku.
        destruct (write_failures (nvm w2) + 1 >=? MAX_WRITE_FAILURES cfg) eqn:Hk.
        -- erewrite (bind_Ret (bind _ _)).
           2:{ do 5 run_step. simpl. rewrite Hk. reflexivity. }
           do 2 run_step. now right.
        -- erewrite (bind_Ret (bind _ _)).
           2:{ do 5 run_step. simpl. rewrite Hk. reflexivity. }
           do 2 run_step. left. simpl. congruence.
    + erewrite bind_Undefined by eassumption. now left.
    + erewrite bind_Diverges by eassumption. now left.
Qed.

(** ** C9: the write accessor always succeeds *)

(** C9 (the code does not do this). The claim: [write_persistent_value]
    returns [STAT_OK] for every value and every state of the filesystem.
    The code, with no driver call failing and no file open yet: on a card
    that holds no generation file the resolver returns 3 and
    [prepare_persistence_file] reads [filenames[3]], past the end of the
    table; on a card whose current generation file is shorter than its
    4-byte trailer the scan computes [br - CRC_LEN] below zero and runs off
    the buffer. Either way the call leaves defined behaviour before it
    reaches its [return (STAT_OK)]. *)
Theorem write_persistent_value_not_always_ok cfg nv :
  (forall w,
     faults w = [] ->
     f_is_open (file (nvm w)) = false ->
     (forall n, 0 <= n < PERSISTENCE_FILENAME_CNT -> disk w !! n = None) ->
     fst (write_persistent_value cfg nv w) = Undefined) /\
  (forall w k bytes,
     CRC_LEN <= IO_BUFFER_SIZE cfg ->
     faults w = [] -> persist_dir w = true ->
     f_is_open (file (nvm w)) = false ->
     0 <= k < PERSISTENCE_FILENAME_CNT ->
     disk w !! k = Some bytes ->
     disk w !! ((k + 1) mod PERSISTENCE_FILENAME_CNT) = None ->
     (0 < length bytes < 4)%nat ->
     fst (write_persistent_value cfg nv w) = Undefined).
Proof.
  split.
  - intros w Hf Hclosed Hnone.
    destruct (prepare_without_generation cfg
                (upd_nvm (set_tmp_value (value nv)) w)) as [w' E];
      try assumption.
    now rewrite (write_undefined_in_prepare _ _ _ _ E).
  - intros w k bytes H4 Hf Hd Hclosed Hk Hfile Hnext Hlen.
    destruct (prepare_short_generation cfg
                (upd_nvm (set_tmp_value (value nv)) w) k bytes) as [w' E];
      try assumption.
    now rewrite (write_undefined_in_prepare _ _ _ _ E).
Qed.

Lemma write_persistent_value_not_always_ok_witness :
  fst (write_persistent_value sample_config (mkNv 5 float_5_5)
         (idle_world 512 ∅ ∅ []))
  = Undefined /\
  fst (write_persistent_value sample_config (mkNv 5 float_5_5)
         (idle_world 512 {[0 := [x00; x00]]} ∅ []))
  = Undefined.
Proof.
  destruct (write_persistent_value_not_always_ok sample_config (mkNv 5 float_5_5))
    as [Hblank Hshort].
  split.
  - apply Hblank; [reflexivity | reflexivity | intros n _; reflexivity].
  - apply (Hshort _ 0 [x00; x00]);
      [ unfold CRC_LEN; simpl; lia | reflexivity | reflexivity | reflexivity
      | unfold PERSISTENCE_FILENAME_CNT; lia | reflexivity | reflexivity
      | simpl; lia ].
Defined.

(** Whenever the call does return, it returns [STAT_OK] and hands [*nv]
    back as the caller passed it. *)
Lemma write_persistent_value_returns_ok cfg nv w r w' :
  write_persistent_value cfg nv w = (Ret r, w') -> r = (STAT_OK, nv).
Proof.
  rewrite write_persistent_value_unfold. cbv zeta.
  destruct (read_persistent_value cfg nv _) as [[[st nv1] | | ] w1];
    intros E; inversion E. now destruct nv.
Qed.

(** ** C10: the result of the baseline read is ignored *)

(** C10. In the window loop of the flush the status of [f_read] is not
    looked at: when the read of the baseline fails after [k] bytes, the
    turn of the loop still writes its window to the new file (the bytes the
    read supplied, zeros for the others, the cache entries on top) and
    goes on. So a flush can return [STAT_OK] with zeros where the baseline
    had values: in the run below the read of the first window fails after
    100 bytes, the flush succeeds, and index 50, which held 51.0, reads 0. *)
Theorem baseline_read_result_is_ignored :
  (forall cfg fuel f_out cnt crc temp w k fs base out,
     0 < IO_BUFFER_SIZE cfg < 65536 ->
     length (io_buffer (nvm w)) = Z.to_nat (IO_BUFFER_SIZE cfg) ->
     faults w = Fail k :: Pass :: Pass :: fs ->
     f_is_open (file (nvm w)) = true ->
     lookup_file (fil_path (file (nvm w))) w = Some base ->
     0 <= fptr (file (nvm w)) ->
     fsize (file (nvm w)) = Z.of_nat (length base) ->
     fsize (file (nvm w)) < 4294967296 ->
     CRC_LEN < fsize (file (nvm w)) - fptr (file (nvm w)) ->
     f_is_open f_out = true ->
     fil_write f_out = true ->
     lookup_file (fil_path f_out) w = Some out ->
     fptr f_out = Z.of_nat (length out) ->
     fsize f_out = Z.of_nat (length out) ->
     0 <= cnt < 65536 ->
     window_runs_off cnt (wrap16 (cnt + IO_BUFFER_SIZE cfg / NVM_VALUE_LEN)) temp
     = false ->
     window_still_written cfg fuel f_out cnt crc temp w k fs base out) /\
  (let schedule := replicate 11 Pass ++ [Fail 100] in
   let w0 := idle_world 512 {[0 := baseline100]} ∅ schedule in
   let before := read_persistent_value sample_config (mkNv 50 0)
                   (idle_world 512 {[0 := baseline100]} ∅ []) in
   let flushed := write_persistent_values sample_config 8 w0 in
   let after := read_persistent_value sample_config (mkNv 50 0) (snd flushed) in
   fst before = Ret (STAT_OK, mkNv 50 (float_of_int 51)) /\
   fst flushed = Ret STAT_OK /\
   faults (snd flushed) = [] /\
   fst after = Ret (STAT_OK, mkNv 50 0)).
Proof.
  split.
  - intros. now apply failed_read_window.
  - vm_compute. repeat split.
Qed.

Lemma baseline_read_result_is_ignored_witness :
  window_still_written sample_config 0 first_window_f_out 0 0 ∅
    first_window_world 100 [] baseline100 [].
Proof.
  apply (proj1 baseline_read_result_is_ignored).
  - simpl. lia.
  - reflexivity.
  - reflexivity.
  - reflexivity.
  - reflexivity.
  - simpl. lia.
  - vm_compute. reflexivity.
  - simpl. lia.
  - unfold CRC_LEN. simpl. lia.
  - reflexivity.
  - reflexivity.
  - reflexivity.
  - reflexivity.
  - reflexivity.
  - lia.
  - vm_compute. reflexivity.
Defined.

(** * Further properties of the code *)

(** ** The value encoding and the range of the CRC *)

Lemma Z_of_byte_range b : 0 <= Z_of_byte b < 256.
Proof.
  unfold Z_of_byte. pose proof (Byte.to_N_bounded b). lia.
Qed.

Lemma Z_of_byte_of_Z z : Z_of_byte (byte_of_Z z) = z mod 256.
Proof.
  unfold Z_of_byte, byte_of_Z.
  assert (Hr : 0 <= z mod 256 < 256) by (apply Z.mod_pos_bound; lia).
  destruct (Byte.of_N (Z.to_N (z mod 256))) as [b |] eqn:E.
  - simpl. apply Byte.to_of_N in E. rewrite E. lia.
  - apply Byte.of_N_None_iff in E. lia.
Qed.

Lemma byte_of_Z_of_byte b : byte_of_Z (Z_of_byte b) = b.
Proof.
  unfold Z_of_byte, byte_of_Z.
  pose proof (Byte.to_N_bounded b) as Hb.
  rewrite Z.mod_small by lia.
  rewrite N2Z.id, Byte.of_to_N. reflexivity.
Qed.

Lemma le32_decode_encode v : le32_decode (le32_encode v) = v mod 4294967296.
Proof.
  unfold le32_decode, le32_encode. simpl.
  rewrite !Z_of_byte_of_Z.
  rewrite !Z.shiftr_div_pow2 by lia.
  change (2 ^ 8) with 256. change (2 ^ 16) with 65536. change (2 ^ 24) with 16777216.
  Z.div_mod_to_equations. lia.
Qed.

Lemma le32_decode_encode_small v :
  0 <= v < 4294967296 -> le32_decode (le32_encode v) = v.
Proof. intros H. rewrite le32_decode_encode. apply Z.mod_small. exact H. Qed.

Lemma lxor_bound n a b :
  0 <= n -> 0 <= a < 2 ^ n -> 0 <= b < 2 ^ n -> 0 <= Z.lxor a b < 2 ^ n.
Proof.
  intros Hn Ha Hb. split.
  - apply Z.lxor_nonneg. lia.
  - destruct (Z.eq_dec (Z.lxor a b) 0) as [E | E].
    + rewrite E. lia.
    + assert (0 < Z.lxor a b) by (pose proof (proj2 (Z.lxor_nonneg a b)); lia).
      apply Z.log2_lt_pow2; [assumption |].
      assert (0 < n).
      { destruct (Z.eq_dec n 0) as [-> | ]; [| lia].
        change (2 ^ 0) with 1 in *.
        assert (a = 0) as -> by lia. assert (b = 0) as -> by lia.
        exfalso. apply E. reflexivity. }
      pose proof (Z.log2_lxor a b ltac:(lia) ltac:(lia)) as Hl.
      assert (Z.log2 a < n).
      { destruct (Z.eq_dec a 0) as [-> | ]; [simpl; lia |].
        apply Z.log2_lt_pow2; lia. }
      assert (Z.log2 b < n).
      { destruct (Z.eq_dec b 0) as [-> | ]; [simpl; lia |].
        apply Z.log2_lt_pow2; lia. }
      lia.
Qed.

Lemma crc_bit_range c : 0 <= c < 4294967296 -> 0 <= crc_bit c < 4294967296.
Proof.
  intros H. unfold crc_bit.
  assert (0 <= Z.shiftr c 1 < 2147483648).
  { rewrite Z.shiftr_div_pow2 by lia. change (2 ^ 1) with 2.
    Z.div_mod_to_equations. lia. }
  destruct (Z.odd c); [| lia].
  apply (lxor_bound 32); lia.
Qed.

Lemma crc_byte_range c b : 0 <= c < 4294967296 -> 0 <= crc_byte c b < 4294967296.
Proof.
  intros H. unfold crc_byte.
  assert (H0 : 0 <= Z.lxor c (Z_of_byte b) < 4294967296).
  { pose proof (Z_of_byte_range b). apply (lxor_bound 32); lia. }
  simpl. do 8 apply crc_bit_range. exact H0.
Qed.

Lemma crc32_range c buf : 0 <= c < 4294967296 -> 0 <= crc32 c buf < 4294967296.
Proof.
  intros H. unfold crc32.
  assert (H0 : 0 <= Z.lxor c 4294967295 < 4294967296) by (apply (lxor_bound 32); lia).
  apply (lxor_bound 32); [lia | | lia].
  revert H0. generalize (Z.lxor c 4294967295). induction buf as [| b buf IH]; intros s Hs.
  - exact Hs.
  - simpl. apply IH. apply crc_byte_range. exact Hs.
Qed.

(** ** The sample stores *)

Lemma sample_buffer_fits : buffer_fits sample_config.
Proof. unfold buffer_fits, CRC_LEN, NVM_VALUE_LEN. simpl. split; [lia | reflexivity]. Qed.

Lemma slots100_word32 : Forall word32 slots100.
Proof. apply (bool_decide_unpack _). vm_compute. exact I. Qed.

Lemma settled_store_current : current_generation sample_config 0 slots100 settled_store.
Proof.
  unfold current_generation. simpl.
  repeat split; try reflexivity; try (unfold PERSISTENCE_FILENAME_CNT; lia);
    try discriminate.
  exact slots100_word32.
Qed.

Lemma blank_store_no_generation : no_generation blank_store.
Proof. unfold no_generation. repeat split. Qed.



Lemma pending_below : cache_below 200 (write_cache (nvm settled_store)).
Proof.
  intros k v H. simpl in H. apply lookup_singleton_Some in H as [<- <-].
  split; [lia | unfold word32, float_5_5; lia].
Qed.

(** ** The resolution of the current slot *)

Lemma lookup_file_same p w w' :
  disk w' = disk w -> persist_dir w' = persist_dir w ->
  lookup_file p w' = lookup_file p w.
Proof. intros Hd Hp. destruct p; simpl; [now rewrite Hd, Hp | reflexivity]. Qed.

Lemma f_stat_spec p w :
  exists r w', f_stat p w = (Ret r, w') /\
    disk w' = disk w /\ persist_dir w' = persist_dir w /\ nvm w' = nvm w /\
    (r = FR_OK -> is_Some (lookup_file p w)).
Proof.
  unfold f_stat, bind, next_fault.
  destruct (faults w) as [| f fs].
  - simpl. eexists _, _. split; [reflexivity |]. repeat split.
    destruct (lookup_file p w); [eauto | discriminate].
  - destruct (is_fail f) eqn:Ef; simpl.
    + eexists _, _. split; [reflexivity |]. repeat split. discriminate.
    + eexists _, _. split; [reflexivity |]. repeat split.
      intros H.
      assert (E : lookup_file p (set_faults fs w) = lookup_file p w)
        by (apply lookup_file_same; reflexivity).
      rewrite E in H. destruct (lookup_file p w); [eauto | discriminate].
Qed.

Lemma active_file_index_loop_spec n : forall i w,
  0 <= i -> 3 - i <= Z.of_nat n ->
  exists r w', active_file_index_loop n i w = (Ret r, w') /\
    i <= r <= Z.max i 3 /\
    disk w' = disk w /\ persist_dir w' = persist_dir w /\ nvm w' = nvm w /\
    (r < 3 -> exists p, filenames r = Some p /\ is_Some (lookup_file p w)).
Proof.
  assert (Hslot : forall j w0, 0 <= j < 3 -> is_Some (lookup_file (persist_bin j) w0) ->
            exists p, filenames j = Some p /\ is_Some (lookup_file p w0)).
  { intros j w0 Hj Hs. exists (persist_bin j). split; [| exact Hs].
    apply filenames_slot. unfold PERSISTENCE_FILENAME_CNT. lia. }
  induction n as [| n IH]; intros i w Hi Hn.
  - simpl. exists i, w. repeat split; lia.
  - simpl. unfold PERSISTENCE_FILENAME_CNT.
    destruct (i <? 3) eqn:Ei.
    + apply Z.ltb_lt in Ei.
      rewrite (bind_Ret _ _ _ _ _ (filenames_at_slot i w
                 ltac:(unfold PERSISTENCE_FILENAME_CNT; lia))).
      destruct (f_stat_spec (persist_bin i) w) as (r & w1 & E1 & Hd1 & Hp1 & Hn1 & Hr1).
      rewrite (bind_Ret _ _ _ _ _ E1).
      destruct (decide (r = FR_OK)) as [Hok | Hne].
      * destruct ((i + 1) mod 3 >? i) eqn:Enext.
        -- assert (H3 : 0 <= (i + 1) mod 3 < 3) by (apply Z.mod_pos_bound; lia).
           rewrite (bind_Ret _ _ _ _ _ (filenames_at_slot ((i + 1) mod 3) w1
                      ltac:(unfold PERSISTENCE_FILENAME_CNT; lia))).
           destruct (f_stat_spec (persist_bin ((i + 1) mod 3)) w1)
             as (r2 & w2 & E2 & Hd2 & Hp2 & Hn2 & Hr2).
           rewrite (bind_Ret _ _ _ _ _ E2). unfold ret.
           apply Z.gtb_lt in Enext.
           eexists _, w2. split; [reflexivity |].
           destruct (decide (r2 = FR_OK)) as [Hok2 | Hne2].
           ++ repeat split; try lia; try congruence.
              intros _. apply Hslot; [lia |].
              rewrite <- (lookup_file_same _ w w1) by assumption. auto.
           ++ repeat split; try lia; try congruence.
              intros _. apply Hslot; [lia | auto].
        -- unfold ret. eexists _, w1. split; [reflexivity |].
           repeat split; try lia; try congruence.
           intros _. apply Hslot; [lia | auto].
      * destruct (IH (i + 1) w1 ltac:(lia) ltac:(lia))
          as (r' & w' & E' & Hr' & Hd' & Hp' & Hn' & Hs').
        exists r', w'. split; [exact E' |].
        repeat split; try lia; try congruence.
        intros H. destruct (Hs' H) as (p & Ep & Hp).
        exists p. split; [exact Ep |].
        rewrite <- (lookup_file_same _ w w1) by assumption. exact Hp.
    + apply Z.ltb_ge in Ei. exists i, w. repeat split; lia.
Qed.

(** X1. For every state of the card and every schedule of driver failures,
    [active_file_index] returns an index from 0 to 3, leaves the card as it
    is, and an index below 3 is an entry of [filenames] and names a
    generation file that exists. *)
Theorem active_file_index_names_a_file w :
  exists i w', active_file_index w = (Ret i, w') /\
    0 <= i <= 3 /\ disk w' = disk w /\
    (i < 3 -> exists p, filenames i = Some p /\ is_Some (lookup_file p w)).
Proof.
  destruct (active_file_index_loop_spec 4 0 w ltac:(lia) ltac:(lia))
    as (r & w' & E & Hr & Hd & _ & _ & Hs).
  exists r, w'. split; [exact E |]. repeat split; try lia; assumption.
Qed.

(** X2. With no driver failure: when slot [k] holds a file and the slot after it
    in the rotation holds none, [active_file_index] returns [k], whether or
    not the slot before it still holds the older generation. *)
Theorem active_file_index_newest w k :
  faults w = [] -> persist_dir w = true ->
  0 <= k < PERSISTENCE_FILENAME_CNT ->
  is_Some (disk w !! k) ->
  disk w !! ((k + 1) mod PERSISTENCE_FILENAME_CNT) = None ->
  active_file_index w = (Ret k, w) /\
  exists p, filenames k = Some p /\ is_Some (lookup_file p w).
Proof.
  intros Hf Hp Hk Hsome Hnext. split.
  - now apply active_file_index_rotation.
  - exists (persist_bin k). split; [now apply filenames_slot |].
    simpl. now rewrite Hp.
Qed.

Lemma active_file_index_newest_witness :
  active_file_index settled_store = (Ret 0, settled_store) /\
  exists p, filenames 0 = Some p /\ is_Some (lookup_file p settled_store).
Proof.
  apply (active_file_index_newest settled_store 0);
    [ reflexivity | reflexivity | unfold PERSISTENCE_FILENAME_CNT; lia
    | eexists; reflexivity | reflexivity ].
Defined.

(** ** Files the check accepts *)

Lemma length_values l : length (values l) = (4 * length l)%nat.
Proof.
  unfold values. induction l as [| x l IH]; [reflexivity |].
  simpl. rewrite IH. lia.
Qed.

Lemma length_generation content :
  length (generation content) = (length content + 4)%nat.
Proof. unfold generation. rewrite length_app, length_le32_encode. reflexivity. Qed.

Lemma scan_generation filecrc content :
  scan_status (scan_result 0 filecrc (generation content)) = STAT_OK.
Proof.
  rewrite scan_result_cons by (rewrite length_generation; lia).
  rewrite length_generation.
  replace (length content + 4 - 4)%nat with (length content) by lia.
  unfold generation. rewrite take_app_length, drop_app_length.
  rewrite le32_decode_encode_small by (apply crc32_range; lia).
  unfold scan_status. simpl. destruct (decide _); [reflexivity | congruence].
Qed.

Lemma tail_ok_multiple cfg n :
  0 <= n -> buffer_fits cfg -> tail_ok cfg (4 * n).
Proof.
  unfold buffer_fits, tail_ok, CRC_LEN, NVM_VALUE_LEN. intros Hn [Hb Hm] H.
  apply Z.div_exact in Hm; [| lia].
  rewrite Hm in H. rewrite Z.mul_mod_distr_l in H by lia. lia.
Qed.

Lemma tail_ok_generation cfg l :
  buffer_fits cfg -> tail_ok cfg (Z.of_nat (length (generation (values l)))).
Proof.
  intros H. rewrite length_generation, length_values.
  replace (Z.of_nat (4 * length l + 4)) with (4 * (Z.of_nat (length l) + 1)) by lia.
  apply tail_ok_multiple; [lia | exact H].
Qed.

(** X3. [check_persistence_file_crc] accepts every file that consists of some
    content followed by the CRC32 of that content. *)
Theorem check_accepts_generation cfg w content :
  CRC_LEN <= IO_BUFFER_SIZE cfg ->
  faults w = [] ->
  f_is_open (file (nvm w)) = true ->
  lookup_file (fil_path (file (nvm w))) w = Some (generation content) ->
  fsize (file (nvm w)) = Z.of_nat (length (generation content)) ->
  tail_ok cfg (Z.of_nat (length (generation content))) ->
  exists w', check_persistence_file_crc cfg w = (Ret STAT_OK, w') /\
             disk w' = disk w /\ staging w' = staging w.
Proof.
  intros Hb Hf Ho Hl Hs Ht.
  destruct (check_persistence_file_crc_nofault cfg Hb w _ Hf Ho Hl Hs Ht) as [buf E].
  rewrite scan_generation in E.
  eexists. split; [exact E |]. split; reflexivity.
Qed.

Lemma check_accepts_generation_witness :
  exists w',
    check_persistence_file_crc sample_config
      (opened_store (mkFIL true (persist_bin 0) false 0 404) {[0 := baseline100]})
    = (Ret STAT_OK, w') /\
    disk w'
    = disk (opened_store (mkFIL true (persist_bin 0) false 0 404) {[0 := baseline100]}) /\
    staging w'
    = staging (opened_store (mkFIL true (persist_bin 0) false 0 404) {[0 := baseline100]}).
Proof.
  apply (check_accepts_generation sample_config
           (opened_store (mkFIL true (persist_bin 0) false 0 404) {[0 := baseline100]})
           (values slots100)).
  - unfold CRC_LEN. simpl. lia.
  - reflexivity.
  - reflexivity.
  - reflexivity.
  - vm_compute. reflexivity.
  - vm_compute. intros [_ H]. discriminate H.
Defined.

(** X4. An empty file: the loop of [check_persistence_file_crc] is not entered,
    and the file is accepted exactly when the conversion of [NAN] that
    initialises [filecrc] gives 0. *)
Theorem check_of_empty_file cfg w :
  faults w = [] ->
  f_is_open (file (nvm w)) = true ->
  fsize (file (nvm w)) = 0 ->
  fst (check_persistence_file_crc cfg w)
  = Ret (if decide (NAN_AS_UINT32 cfg = 0) then STAT_OK else STAT_PERSISTENCE_ERROR).
Proof.
  intros Hf Ho Hs.
  unfold check_persistence_file_crc, fs_ritorno, on_nvm_file.
  run_step. rewrite (bind_Ret _ _ _ _ _ (f_lseek_nofault _ 0 w Hf Ho)).
  do 2 run_step. simpl. run_step. simpl.
  rewrite Hs. simpl. unfold bind, gets. simpl. unfold f_eof. simpl.
  destruct (decide (0 = NAN_AS_UINT32 cfg)), (decide (NAN_AS_UINT32 cfg = 0));
    try reflexivity; congruence.
Qed.

Lemma check_of_empty_file_witness :
  fst (check_persistence_file_crc sample_config
         (opened_store (mkFIL true (persist_bin 0) false 0 0) {[0 := []]}))
  = Ret (if decide (NAN_AS_UINT32 sample_config = 0)
         then STAT_OK else STAT_PERSISTENCE_ERROR).
Proof.
  apply (check_of_empty_file sample_config
           (opened_store (mkFIL true (persist_bin 0) false 0 0) {[0 := []]}));
    reflexivity.
Defined.

(** ** Properties the code keeps *)

Section Preserves.

Context (P : world -> Prop).

Lemma preserves_ret {A} (a : A) : preserves P (ret a).
Proof. now intros w. Qed.

Lemma preserves_undefined {A} : preserves P (@undefined A).
Proof. now intros w. Qed.

Lemma preserves_diverges {A} : preserves P (@diverges A).
Proof. now intros w. Qed.

Lemma preserves_gets {A} (f : world -> A) : preserves P (gets f).
Proof. now intros w. Qed.

Lemma preserves_modify (f : world -> world) :
  (forall w, P w -> P (f w)) -> preserves P (modify f).
Proof. intros H w. apply H. Qed.

Lemma preserves_bind_yields {A B} (m : M A) (Q : A -> Prop) (k : A -> M B) :
  preserves P m -> yields m Q -> (forall a, Q a -> preserves P (k a)) ->
  preserves P (bind m k).
Proof.
  intros Hm Hy Hk w HP. unfold bind.
  specialize (Hm w HP). specialize (Hy w).
  destruct (m w) as [[a | |] w1]; simpl in *; [| assumption | assumption].
  apply (Hk a); auto.
Qed.

Lemma preserves_bind {A B} (m : M A) (k : A -> M B) :
  preserves P m -> (forall a, preserves P (k a)) -> preserves P (bind m k).
Proof.
  intros Hm Hk. apply (preserves_bind_yields m (fun _ => True)); auto.
  now intros w a _.
Qed.

Lemma preserves_fs_ritorno {A} (a : M FRESULT) (err : A) (k : M A) :
  preserves P a -> preserves P k -> preserves P (fs_ritorno a err k).
Proof.
  intros Ha Hk. unfold fs_ritorno. apply preserves_bind; [assumption |].
  intros r. destruct (decide (r = FR_OK)); [assumption | apply preserves_ret].
Qed.

Lemma preserves_ritorno {A} (a : M stat_t) (err : stat_t -> A) (k : M A) :
  preserves P a -> preserves P k -> preserves P (ritorno a err k).
Proof.
  intros Ha Hk. unfold ritorno. apply preserves_bind; [assumption |].
  intros r. destruct (decide (r = STAT_OK)); [assumption | apply preserves_ret].
Qed.

Lemma preserves_next_fault :
  (forall fs w, P w -> P (set_faults fs w)) -> preserves P next_fault.
Proof.
  intros H w HP. unfold next_fault. destruct (faults w); simpl; auto.
Qed.

Lemma preserves_filenames_at i : preserves P (filenames_at i).
Proof.
  unfold filenames_at.
  destruct (filenames i); [apply preserves_ret | apply preserves_undefined].
Qed.

End Preserves.

Ltac preserves_step side :=
  lazymatch goal with
  | |- preserves _ (ret _) => apply preserves_ret
  | |- preserves _ undefined => apply preserves_undefined
  | |- preserves _ diverges => apply preserves_diverges
  | |- preserves _ (gets _) => apply preserves_gets
  | |- preserves _ (filenames_at _) => apply preserves_filenames_at
  | |- preserves _ next_fault => apply preserves_next_fault; side
  | |- preserves _ (fs_ritorno _ _ _) => apply preserves_fs_ritorno
  | |- preserves _ (ritorno _ _ _) => apply preserves_ritorno
  | |- preserves _ (bind _ _) => apply preserves_bind; [ | intros ? ]
  | |- preserves _ (modify _) => apply preserves_modify; side
  | |- preserves _ (if ?b then _ else _) => destruct b
  | |- preserves _ (match ?x with _ => _ end) => destruct x
  | |- preserves _ (let _ := _ in _) => cbv zeta
  end.

(** *** The card is only read

    A property of the card that still holds when files are taken away is
    kept by all the code that does not write. *)

Section OnlyRead.

Variable Q : gmap Z (list byte) -> Prop.
Hypothesis Q_down : forall d d', d' ⊆ d -> Q d -> Q d'.

Lemma card_has_remove_file p w : card_has Q w -> card_has Q (remove_file p w).
Proof. unfold card_has. apply Q_down. apply disk_remove_file. Qed.

Lemma card_has_emptied w :
  card_has Q w -> card_has Q (set_persist_dir true (set_disk ∅ w)).
Proof. unfold card_has. apply Q_down. apply map_empty_subseteq. Qed.

Ltac card_side :=
  first
    [ intros ? [[] ? ? ? ? ? ?] ?; assumption
    | intros ?; apply card_has_emptied
    | intros ?; apply card_has_remove_file
    | intros [[] ? ? ? ? ? ?] ?; assumption ].

Ltac card_driver := repeat preserves_step card_side.

Lemma card_f_mount : preserves (card_has Q) f_mount.
Proof. unfold f_mount. card_driver. Qed.

Lemma card_f_mkdir : preserves (card_has Q) f_mkdir.
Proof. unfold f_mkdir. card_driver. Qed.

Lemma card_f_stat p : preserves (card_has Q) (f_stat p).
Proof. unfold f_stat. card_driver. Qed.

Lemma card_f_open_existing fp p : preserves (card_has Q) (f_open_existing fp p).
Proof. unfold f_open_existing. card_driver. Qed.

Lemma card_f_sync fp : preserves (card_has Q) (f_sync fp).
Proof. unfold f_sync. card_driver. Qed.

Lemma card_validate fp : preserves (card_has Q) (validate fp).
Proof. unfold validate. card_driver. Qed.

Lemma card_f_close fp : preserves (card_has Q) (f_close fp).
Proof. unfold f_close. card_driver. Qed.

Lemma card_f_unlink p : preserves (card_has Q) (f_unlink p).
Proof. unfold f_unlink. card_driver. Qed.

Lemma card_f_lseek fp ofs : preserves (card_has Q) (f_lseek fp ofs).
Proof. unfold f_lseek. card_driver. Qed.

Lemma card_f_read fp btr : preserves (card_has Q) (f_read fp btr).
Proof. unfold f_read. card_driver. Qed.

Lemma card_on_nvm_file {A} (op : FIL -> M (A * FIL)) :
  (forall fp, preserves (card_has Q) (op fp)) -> preserves (card_has Q) (on_nvm_file op).
Proof. intros H. unfold on_nvm_file. card_driver. apply H. Qed.

Lemma card_nvm_f_read btr : preserves (card_has Q) (nvm_f_read btr).
Proof. unfold nvm_f_read. card_driver. apply card_f_read. Qed.

Lemma card_active_file_index_loop n i :
  preserves (card_has Q) (active_file_index_loop n i).
Proof.
  revert i. induction n as [| n IH]; intros i; simpl.
  - apply preserves_ret.
  - repeat first [ apply card_f_stat | apply IH | preserves_step card_side ].
Qed.

Variable cfg : Config.

Ltac card_code :=
  repeat first
    [ apply card_f_mount | apply card_f_mkdir | apply card_f_stat
    | apply card_f_open_existing | apply card_validate | apply card_f_close
    | apply card_f_unlink | apply card_f_lseek | apply card_nvm_f_read
    | apply card_active_file_index_loop
    | apply card_on_nvm_file; intros ?
    | preserves_step card_side ].

Lemma card_check_crc_loop fuel crc filecrc :
  preserves (card_has Q) (check_crc_loop cfg fuel crc filecrc).
Proof.
  revert crc filecrc. induction fuel as [| fuel IH]; intros crc filecrc; simpl.
  - card_code.
  - repeat first [ apply IH | progress card_code ].
Qed.

Lemma card_check_persistence_file_crc :
  preserves (card_has Q) (check_persistence_file_crc cfg).
Proof.
  unfold check_persistence_file_crc. card_code. apply card_check_crc_loop.
Qed.

Lemma card_prepare_persistence_file :
  preserves (card_has Q) (prepare_persistence_file cfg).
Proof.
  unfold prepare_persistence_file, active_file_index.
  card_code; apply card_check_persistence_file_crc.
Qed.

Lemma card_read_persistent_value nv :
  preserves (card_has Q) (read_persistent_value cfg nv).
Proof.
  unfold read_persistent_value. card_code. apply card_prepare_persistence_file.
Qed.

Lemma card_write_persistent_value nv :
  preserves (card_has Q) (write_persistent_value cfg nv).
Proof.
  unfold write_persistent_value. card_code. apply card_read_persistent_value.
Qed.

End OnlyRead.

(** X5. Neither accessor puts anything on the card: whatever the card holds,
    whatever the driver does and however the call ends, the files that are
    on the card after [read_persistent_value] or [write_persistent_value]
    were there before, with the same content. *)
Theorem accessors_only_read_the_card cfg nv w :
  disk (snd (read_persistent_value cfg nv w)) ⊆ disk w /\
  disk (snd (write_persistent_value cfg nv w)) ⊆ disk w.
Proof.
  assert (Hdown : forall d d' : gmap Z (list byte), d' ⊆ d -> d ⊆ disk w -> d' ⊆ disk w)
    by (intros d d' H1 H2; etransitivity; eassumption).
  split.
  - apply (card_read_persistent_value (fun d => d ⊆ disk w) Hdown cfg nv w).
    unfold card_has. reflexivity.
  - apply (card_write_persistent_value (fun d => d ⊆ disk w) Hdown cfg nv w).
    unfold card_has. reflexivity.
Qed.

(** *** The buffer keeps its size *)

Ltac buffer_side :=
  unfold buffer_length;
  first
    [ intros ? [[] ? ? ? ? ? ?] ?; simpl in *; assumption
    | intros [[] ? ? ? ? ? ?] ?; simpl in *; assumption
    | intros ? ?;
      match goal with
      | |- context [remove_file ?p _] => destruct p
      | |- context [store_file ?p _ _] => destruct p
      end; simpl in *; assumption ].

Lemma yields_f_read fp btr :
  yields (f_read fp btr) (fun r => (length (snd r) <= Z.to_nat btr)%nat).
Proof.
  intros w a. unfold f_read, bind, next_fault, gets, ret.
  destruct (faults w) as [| f fs]; simpl;
    destruct (f_is_open fp); simpl; intros [= <-]; simpl; try lia;
    rewrite length_take; try destruct f; lia.
Qed.

Section BufferSize.

Variable L : nat.

Ltac buffer_driver := repeat preserves_step buffer_side.

Lemma buffer_f_mount : preserves (buffer_length L) f_mount.
Proof. unfold f_mount. buffer_driver. Qed.

Lemma buffer_f_mkdir : preserves (buffer_length L) f_mkdir.
Proof. unfold f_mkdir. buffer_driver. Qed.

Lemma buffer_f_stat p : preserves (buffer_length L) (f_stat p).
Proof. unfold f_stat. buffer_driver. Qed.

Lemma buffer_f_open_existing fp p : preserves (buffer_length L) (f_open_existing fp p).
Proof. unfold f_open_existing. buffer_driver. Qed.

Lemma buffer_f_open_always fp p : preserves (buffer_length L) (f_open_always fp p).
Proof. unfold f_open_always. buffer_driver. Qed.

Lemma buffer_f_sync fp : preserves (buffer_length L) (f_sync fp).
Proof. unfold f_sync. buffer_driver. Qed.

Lemma buffer_validate fp : preserves (buffer_length L) (validate fp).
Proof. unfold validate. buffer_driver. Qed.

Lemma buffer_f_close fp : preserves (buffer_length L) (f_close fp).
Proof. unfold f_close. buffer_driver. Qed.

Lemma buffer_f_unlink p : preserves (buffer_length L) (f_unlink p).
Proof. unfold f_unlink. buffer_driver. Qed.

Lemma buffer_f_lseek fp ofs : preserves (buffer_length L) (f_lseek fp ofs).
Proof. unfold f_lseek. buffer_driver. Qed.

Lemma buffer_f_read fp btr : preserves (buffer_length L) (f_read fp btr).
Proof. unfold f_read. buffer_driver. Qed.

Lemma buffer_f_write fp data : preserves (buffer_length L) (f_write fp data).
Proof. unfold f_write. buffer_driver. Qed.

Lemma buffer_on_nvm_file {A} (op : FIL -> M (A * FIL)) :
  (forall fp, preserves (buffer_length L) (op fp)) ->
  preserves (buffer_length L) (on_nvm_file op).
Proof. intros H. unfold on_nvm_file. buffer_driver. apply H. Qed.

Lemma buffer_nvm_f_read btr :
  (Z.to_nat btr <= L)%nat -> preserves (buffer_length L) (nvm_f_read btr).
Proof.
  intros Hb. unfold nvm_f_read.
  apply preserves_bind; [apply preserves_gets | intros fp].
  eapply preserves_bind_yields; [apply buffer_f_read | apply yields_f_read |].
  intros r Hr. simpl in Hr.
  apply preserves_bind; [| intros; apply preserves_ret].
  apply preserves_modify. unfold buffer_length.
  intros [[] ? ? ? ? ? ?] H; simpl in *.
  rewrite length_memcpy_to; [assumption | lia].
Qed.

Lemma buffer_active_file_index_loop n i :
  preserves (buffer_length L) (active_file_index_loop n i).
Proof.
  revert i. induction n as [| n IH]; intros i; simpl.
  - apply preserves_ret.
  - repeat first [ apply buffer_f_stat | apply IH | preserves_step buffer_side ].
Qed.

Variable cfg : Config.
Hypothesis buffer_is_L : L = Z.to_nat (IO_BUFFER_SIZE cfg).
Hypothesis buffer_holds_value : NVM_VALUE_LEN <= IO_BUFFER_SIZE cfg.

Ltac buffer_code :=
  repeat first
    [ apply buffer_f_mount | apply buffer_f_mkdir | apply buffer_f_stat
    | apply buffer_f_open_existing | apply buffer_validate | apply buffer_f_close
    | apply buffer_f_unlink | apply buffer_f_lseek
    | apply buffer_f_open_always | apply buffer_f_sync | apply buffer_f_write
    | apply buffer_active_file_index_loop
    | apply buffer_on_nvm_file; intros ?
    | preserves_step buffer_side ].

Lemma buffer_check_crc_loop fuel crc filecrc :
  preserves (buffer_length L) (check_crc_loop cfg fuel crc filecrc).
Proof.
  revert crc filecrc. induction fuel as [| fuel IH]; intros crc filecrc; simpl.
  - buffer_code.
  - repeat first [ apply IH | apply buffer_nvm_f_read; lia | progress buffer_code ].
Qed.

Lemma buffer_check_persistence_file_crc :
  preserves (buffer_length L) (check_persistence_file_crc cfg).
Proof.
  unfold check_persistence_file_crc. buffer_code. apply buffer_check_crc_loop.
Qed.

Lemma buffer_prepare_persistence_file :
  preserves (buffer_length L) (prepare_persistence_file cfg).
Proof.
  unfold prepare_persistence_file, active_file_index.
  buffer_code; apply buffer_check_persistence_file_crc.
Qed.

Lemma buffer_read_persistent_value nv :
  preserves (buffer_length L) (read_persistent_value cfg nv).
Proof.
  unfold read_persistent_value. buffer_code.
  - apply buffer_prepare_persistence_file.
  - apply buffer_nvm_f_read. unfold NVM_VALUE_LEN in *. lia.
Qed.

End BufferSize.

(** ** Opening the current generation *)

Lemma f_unlink_missing p w :
  faults w = [] -> lookup_file p w = None -> f_unlink p w = (Ret FR_NO_FILE, w).
Proof.
  intros Hf Hl. unfold f_unlink.
  rewrite (bind_Ret _ _ _ _ _ (next_fault_nofault w Hf)). simpl.
  unfold bind, gets. simpl. now rewrite Hl.
Qed.

Lemma validate_nofault fp w :
  faults w = [] -> f_is_open fp = true -> validate fp w = (Ret FR_OK, w).
Proof.
  intros Hf Ho. unfold validate.
  rewrite (bind_Ret _ _ _ _ _ (next_fault_nofault w Hf)). now rewrite Ho.
Qed.

Lemma fs_ritorno_ok {A} (a : M FRESULT) (err : A) (k : M A) w w' :
  a w = (Ret FR_OK, w') -> fs_ritorno a err k w = k w'.
Proof.
  intros H. unfold fs_ritorno. rewrite (bind_Ret _ _ _ _ _ H).
  destruct (decide (FR_OK = FR_OK)); [reflexivity | congruence].
Qed.

Lemma prev_slot k :
  0 <= k < PERSISTENCE_FILENAME_CNT ->
  (k + PERSISTENCE_FILENAME_CNT - 1) mod PERSISTENCE_FILENAME_CNT
  = (k + 2) mod PERSISTENCE_FILENAME_CNT.
Proof. unfold PERSISTENCE_FILENAME_CNT. intros H. f_equal. lia. Qed.

Lemma prepare_current cfg k l w :
  buffer_fits cfg -> current_generation cfg k l w ->
  exists w',
    prepare_persistence_file cfg w = (Ret STAT_OK, w') /\
    current_generation cfg k l w' /\
    f_is_open (file (nvm w')) = true /\
    staging w' = staging w /\
    cycle_state w' = cycle_state w /\ systick w' = systick w /\
    exceptions w' = exceptions w /\
    disk w' = delete ((k + 2) mod PERSISTENCE_FILENAME_CNT) (disk w).
Proof.
  intros Hcfg Hcur.
  pose proof Hcur as (Hf & Hp & Hk & Hd & Hnext & Hl & Hbuf & Hopen).
  assert (Hlen : buffer_length (Z.to_nat (IO_BUFFER_SIZE cfg))
                   (snd (prepare_persistence_file cfg w))).
  { apply (buffer_prepare_persistence_file _ cfg eq_refl); assumption. }
  destruct (f_is_open (file (nvm w))) eqn:Eo.
  - destruct (Hopen eq_refl) as (Hpath & Hsize & Hptr & Hidx & Hprev).
    exists w. split.
    + unfold prepare_persistence_file. run_step. rewrite Eo. cbv iota.
      rewrite bind_bind.
      rewrite (bind_Ret _ _ _ _ _ (validate_nofault _ w Hf Eo)). reflexivity.
    + split; [exact Hcur |]. split; [exact Eo |].
      repeat (split; [reflexivity |]).
      symmetry. apply delete_id. exact Hprev.
  - clear Hopen.
    set (size := Z.of_nat (length (generation (values l)))).
    set (fp1 := mkFIL true (persist_bin k) false 0 size).
    assert (Hrest : forall w0,
      faults w0 = [] -> persist_dir w0 = true -> disk w0 = disk w ->
      exists buf,
        (f_mkdir ;;;
         idx <- active_file_index ;;
         p <- filenames_at idx ;;
         fs_ritorno (on_nvm_file (fun fp => f_open_existing fp p))
           STAT_PERSISTENCE_ERROR (
             modify (upd_nvm (set_file_index idx)) ;;;
             st <- check_persistence_file_crc cfg ;;
             if decide (st = STAT_OK) then
               prev <- gets (fun w => PREV_FILE_INDEX (nvm w)) ;;
               q <- filenames_at prev ;;
               f_unlink q ;;;
               ret STAT_OK
             else
               on_nvm_file f_close ;;;
               cur <- gets (fun w => file_index (nvm w)) ;;
               q <- filenames_at cur ;;
               f_unlink q ;;;
               modify (upd_nvm (set_file_index 0)) ;;;
               ret STAT_PERSISTENCE_ERROR)) w0
        = (Ret STAT_OK,
           remove_file (persist_bin ((k + 2) mod PERSISTENCE_FILENAME_CNT))
             (scanned (set_fptr size size fp1) buf
                (upd_nvm (set_file_index k) w0)))).
    { intros w0 Hf0 Hp0 Hd0.
      assert (Hl0 : lookup_file (persist_bin k) w0 = Some (generation (values l))).
      { simpl. now rewrite Hp0, Hd0. }
      rewrite (bind_Ret _ _ _ _ _ (f_mkdir_exists w0 Hf0 Hp0)).
      erewrite bind_Ret
        by (apply active_file_index_rotation with (k := k);
            rewrite ?Hd0; eauto).
      rewrite (bind_Ret _ _ _ _ _ (filenames_at_slot k w0 Hk)).
      unfold fs_ritorno, on_nvm_file. rewrite ?bind_bind.
      run_step.
      rewrite (bind_Ret _ _ _ _ _ (f_open_existing_nofault _ _ w0 _ Hf0 Hl0)).
      do 2 run_step. simpl. do 1 run_step.
      fold fp1. fold size.
      set (w2 := upd_nvm (set_file_index k) (upd_nvm (set_file fp1) w0)).
      destruct (check_persistence_file_crc_nofault cfg (proj1 (proj1 Hcfg)) w2
                  (generation (values l))) as [buf E].
      - exact Hf0.
      - reflexivity.
      - unfold w2. rewrite !lookup_file_upd_nvm. exact Hl0.
      - reflexivity.
      - apply tail_ok_generation. exact Hcfg.
      - rewrite scan_generation in E.
        rewrite (bind_Ret _ _ _ _ _ E). simpl. run_step.
        exists buf.
        assert (Hprev : PREV_FILE_INDEX (nvm (scanned (set_fptr size size fp1) buf w2))
                        = (k + 2) mod PERSISTENCE_FILENAME_CNT)
          by (apply prev_slot; exact Hk).
        rewrite Hprev.
        set (w3 := scanned (set_fptr size size fp1) buf w2).
        rewrite (bind_Ret _ _ _ _ _ (filenames_at_slot _ w3
                   (Z.mod_pos_bound (k + 2) PERSISTENCE_FILENAME_CNT eq_refl))).
        set (p := persist_bin ((k + 2) mod PERSISTENCE_FILENAME_CNT)).
        assert (Hf3 : faults w3 = []) by exact Hf0.
        destruct (lookup_file p w3) as [old |] eqn:Eold.
        + rewrite (bind_Ret _ _ _ _ _ (f_unlink_nofault p w3 old Hf3 Eold)).
          reflexivity.
        + rewrite (bind_Ret _ _ _ _ _ (f_unlink_missing p w3 Hf3 Eold)).
          unfold ret. f_equal.
          assert (Hp3 : persist_dir w3 = true) by exact Hp0.
          unfold p in *.
          simpl in Eold. rewrite Hp0 in Eold.
          unfold remove_file, set_disk. simpl.
          rewrite delete_id by exact Eold. reflexivity. }
    assert (Hpost : forall w0 buf,
      faults w0 = [] -> persist_dir w0 = true -> disk w0 = disk w ->
      staging w0 = staging w -> cycle_state w0 = cycle_state w ->
      systick w0 = systick w -> exceptions w0 = exceptions w ->
      let w' := remove_file (persist_bin ((k + 2) mod PERSISTENCE_FILENAME_CNT))
                  (scanned (set_fptr size size fp1) buf
                     (upd_nvm (set_file_index k) w0)) in
      buffer_length (Z.to_nat (IO_BUFFER_SIZE cfg)) w' ->
      current_generation cfg k l w' /\
      f_is_open (file (nvm w')) = true /\
      staging w' = staging w /\
      cycle_state w' = cycle_state w /\ systick w' = systick w /\
      exceptions w' = exceptions w /\
      disk w' = delete ((k + 2) mod PERSISTENCE_FILENAME_CNT) (disk w)).
    { intros w0 buf Hf0 Hp0 Hd0 Hs0 Hc0 Ht0 He0 w' Hb'.
      assert (Hk2 : 0 <= (k + 2) mod PERSISTENCE_FILENAME_CNT < PERSISTENCE_FILENAME_CNT)
        by (unfold PERSISTENCE_FILENAME_CNT; apply Z.mod_pos_bound; lia).
      assert (Hne : (k + 2) mod PERSISTENCE_FILENAME_CNT <> k).
      { unfold PERSISTENCE_FILENAME_CNT in *.
        assert (k = 0 \/ k = 1 \/ k = 2) as [-> | [-> | ->]] by lia; discriminate. }
      subst w'. unfold fp1 in *.
      unfold current_generation. simpl. rewrite Hd0.
      repeat split; try assumption; try lia.
      - rewrite lookup_delete_ne by exact Hne. exact Hd.
      - apply lookup_delete_None. right. exact Hnext.
      - apply lookup_delete_eq. }
    assert (Hrun : exists w0 buf,
      prepare_persistence_file cfg w
      = (Ret STAT_OK,
         remove_file (persist_bin ((k + 2) mod PERSISTENCE_FILENAME_CNT))
           (scanned (set_fptr size size fp1) buf (upd_nvm (set_file_index k) w0))) /\
      faults w0 = [] /\ persist_dir w0 = true /\ disk w0 = disk w /\
      staging w0 = staging w /\ cycle_state w0 = cycle_state w /\
      systick w0 = systick w /\ exceptions w0 = exceptions w).
    { unfold prepare_persistence_file. run_step. rewrite Eo. cbv iota.
      run_step. cbv iota. run_step.
      destruct (fat_fs_type (nvm w)) eqn:Em.
      - destruct (Hrest w Hf Hp eq_refl) as [buf E]. rewrite E.
        exists w, buf. repeat split; assumption.
      - rewrite (fs_ritorno_ok _ _ _ _ _ (f_mount_nofault w Hf)).
        destruct (Hrest (upd_nvm (set_fat_fs_type true) w) Hf Hp eq_refl) as [buf E].
        rewrite E.
        exists (upd_nvm (set_fat_fs_type true) w), buf. repeat split; assumption. }
    destruct Hrun as (w0 & buf & E & Hf0 & Hp0 & Hd0 & Hs0 & Hc0 & Ht0 & He0).
    rewrite E in Hlen. simpl in Hlen.
    eexists. split; [exact E |].
    apply Hpost; assumption.
Qed.

(** ** Reading a slot *)

Lemma values_cons x l : values (x :: l) = le32_encode x ++ values l.
Proof. reflexivity. Qed.

Lemma values_app l1 l2 : values (l1 ++ l2) = values l1 ++ values l2.
Proof. unfold values. now rewrite map_app, concat_app. Qed.

Lemma drop_values n l : drop (4 * n) (values l) = values (drop n l).
Proof.
  revert l. induction n as [| n IH]; intros l.
  - reflexivity.
  - destruct l as [| x l]; [reflexivity |].
    replace (4 * S n)%nat with (4 + 4 * n)%nat by lia.
    rewrite values_cons, <- drop_drop.
    rewrite (drop_app_length' (le32_encode x)) by (symmetry; apply (length_le32_encode x)).
    simpl drop at 2. apply IH.
Qed.

Lemma take_values n l : take (4 * n) (values l) = values (take n l).
Proof.
  revert l. induction n as [| n IH]; intros l.
  - reflexivity.
  - destruct l as [| x l]; [reflexivity |].
    replace (4 * S n)%nat with (4 + 4 * n)%nat by lia.
    rewrite values_cons.
    rewrite take_app_add' by (symmetry; apply (length_le32_encode x)).
    simpl take at 2. rewrite values_cons. f_equal. apply IH.
Qed.

(** The slot [i] of a generation file: one of the values, or the trailer. *)
Lemma slot_of_generation l i x :
  l !! i = Some x ->
  take 4 (drop (4 * i) (generation (values l))) = le32_encode x.
Proof.
  intros H. unfold generation.
  assert (Hlt : (i < length l)%nat) by (eapply lookup_lt_Some; exact H).
  apply take_drop_middle in H.
  rewrite <- H at 1. rewrite values_app, values_cons.
  assert (Hi : length (values (take i l)) = (4 * i)%nat).
  { rewrite length_values, length_take. lia. }
  rewrite <- !app_assoc.
  rewrite drop_app_length' by (symmetry; exact Hi).
  rewrite take_app_length' by (symmetry; apply (length_le32_encode x)). reflexivity.
Qed.

Lemma trailer_of_generation l :
  take 4 (drop (4 * length l) (generation (values l)))
  = le32_encode (crc32 0 (values l)).
Proof.
  unfold generation.
  rewrite drop_app_length' by (symmetry; apply length_values).
  apply take_ge. rewrite length_le32_encode. lia.
Qed.

Lemma ritorno_ok {A} (a : M stat_t) (err : stat_t -> A) (k : M A) w w' :
  a w = (Ret STAT_OK, w') -> ritorno a err k w = k w'.
Proof.
  intros H. unfold ritorno. rewrite (bind_Ret _ _ _ _ _ H).
  destruct (decide (STAT_OK = STAT_OK)); [reflexivity | congruence].
Qed.

Lemma on_nvm_file_run {A} (op : FIL -> M (A * FIL)) w a fp' w' :
  op (file (nvm w)) w = (Ret (a, fp'), w') ->
  on_nvm_file op w = (Ret a, upd_nvm (set_file fp') w').
Proof.
  intros H. unfold on_nvm_file. run_step. rewrite (bind_Ret _ _ _ _ _ H).
  reflexivity.
Qed.

(** What [read_persistent_value] does with the current generation: the
    four bytes at offset [4 * i] of the file are the value, and there is
    no value when the file ends before them. *)
Lemma read_current cfg k l w i v0 :
  buffer_fits cfg -> current_generation cfg k l w -> 0 <= i ->
  let bytes := generation (values l) in
  exists w',
    read_persistent_value cfg (mkNv i v0) w
    = (Ret (if 4 * i + 4 <=? Z.of_nat (length bytes)
            then (STAT_OK,
                  mkNv i (le32_decode (take 4 (drop (4 * Z.to_nat i) bytes))))
            else (STAT_PERSISTENCE_ERROR, mkNv i v0)), w') /\
    current_generation cfg k l w' /\
    f_is_open (file (nvm w')) = true /\
    staging w' = staging w /\
    cycle_state w' = cycle_state w /\ systick w' = systick w /\
    exceptions w' = exceptions w /\
    disk w' = delete ((k + 2) mod PERSISTENCE_FILENAME_CNT) (disk w).
Proof.
  intros Hcfg Hcur Hi bytes.
  assert (Hlen : buffer_length (Z.to_nat (IO_BUFFER_SIZE cfg))
                   (snd (read_persistent_value cfg (mkNv i v0) w))).
  { apply (buffer_read_persistent_value _ cfg eq_refl).
    - destruct Hcfg as [[? ?] ?]. unfold NVM_VALUE_LEN, CRC_LEN in *. lia.
    - apply Hcur. }
  destruct (prepare_current cfg k l w Hcfg Hcur)
    as (w1 & E1 & Hcur1 & Ho1 & Hs1 & Hc1 & Ht1 & He1 & Hd1).
  pose proof Hcur1 as (Hf & Hp & Hk & Hd & Hnext & Hl & Hbuf & Hopen).
  destruct (Hopen Ho1) as (Hpath & Hsize & Hptr & Hidx & Hprev).
  set (size := Z.of_nat (length bytes)) in *.
  set (fp2 := set_fptr (Z.min (i * NVM_VALUE_LEN) (fsize (file (nvm w1))))
                       (fsize (file (nvm w1))) (file (nvm w1))).
  set (w2 := upd_nvm (set_file fp2) w1).
  assert (Hsz : size = 4 * Z.of_nat (length l) + 4).
  { unfold size, bytes. rewrite length_generation, length_values. lia. }
  assert (Hl2 : lookup_file (fil_path (file (nvm w2))) w2 = Some bytes).
  { unfold w2. rewrite lookup_file_upd_nvm. simpl. rewrite Hpath. simpl.
    now rewrite Hp. }
  pose proof (nvm_f_read_nofault NVM_VALUE_LEN w2 bytes Hf Ho1 Hl2) as Hread.
  simpl in Hread. rewrite Hsize in Hread. fold size in Hread.
  unfold NVM_VALUE_LEN in *.
  specialize (Hread ltac:(lia) eq_refl ltac:(lia)).
  assert (Erun : read_persistent_value cfg (mkNv i v0) w
                 = (r <- nvm_f_read 4 ;;
                    if decide (fst r = FR_OK) then
                      if decide (snd r = 4) then
                        buf <- gets (fun w => io_buffer (nvm w)) ;;
                        ret (STAT_OK, mkNv i (le32_decode (take (Z.to_nat 4) buf)))
                      else ret (STAT_PERSISTENCE_ERROR, mkNv i v0)
                    else ret (STAT_PERSISTENCE_ERROR, mkNv i v0)) w2).
  { unfold read_persistent_value.
    rewrite (ritorno_ok _ _ _ _ _ E1).
    erewrite fs_ritorno_ok
      by (apply on_nvm_file_run; apply f_lseek_nofault; assumption).
    reflexivity. }
  rewrite Erun in *. clear Erun.
  rewrite (bind_Ret _ _ _ _ _ Hread) in *. cbn [fst snd] in *.
  destruct (decide (FR_OK = FR_OK)); [| congruence]. cbv iota in *.
  match type of Hread with _ = (_, ?x) => set (w3 := x) in * end.
  assert (Hcur3 : buffer_length (Z.to_nat (IO_BUFFER_SIZE cfg)) w3 ->
                  current_generation cfg k l w3).
  { intros Hb3. unfold current_generation. subst w3. unfold fp2, w2 in *.
    unfold buffer_length in Hb3. simpl in Hb3. simpl.
    repeat split; try assumption; try lia. }
  exists w3. fold bytes in w3. fold size in w3. fold bytes. fold size.
  destruct (Z.leb_spec (4 * i + 4) size) as [Hin | Hout].
  - assert (En : Z.min 4 (size - Z.min (i * 4) size) = 4) by lia.
    fold bytes in Hlen. fold size in Hlen. revert Hlen. rewrite En.
    destruct (decide (4 = 4)); [| congruence]. cbv iota.
    run_step. intros Hlen.
    split.
    + unfold ret. do 3 f_equal. subst w3. simpl. rewrite En.
      replace (Z.to_nat (Z.min (i * 4) size)) with (4 * Z.to_nat i)%nat by lia.
      change (Z.to_nat 4) with 4%nat.
      set (data := take 4 (drop (4 * Z.to_nat i) bytes)).
      assert (length data = 4%nat).
      { unfold data. rewrite length_take, length_drop. fold size. lia. }
      rewrite take_app_length' by congruence. reflexivity.
    + split; [apply Hcur3; exact Hlen |].
      repeat split; assumption.
  - assert (En : Z.min 4 (size - Z.min (i * 4) size) = 0) by lia.
    fold bytes in Hlen. fold size in Hlen. revert Hlen. rewrite En.
    destruct (decide (0 = 4)); [lia |]. cbv iota. intros Hlen.
    split; [reflexivity |].
    split; [apply Hcur3; exact Hlen |].
    repeat split; assumption.
Qed.

Lemma generation_size l :
  Z.of_nat (length (generation (values l))) = 4 * Z.of_nat (length l) + 4.
Proof. rewrite length_generation, length_values. lia. Qed.

Lemma read_slot cfg k l w (i : nat) v0 x :
  buffer_fits cfg -> current_generation cfg k l w -> l !! i = Some x ->
  exists w',
    read_persistent_value cfg (mkNv (Z.of_nat i) v0) w
    = (Ret (STAT_OK, mkNv (Z.of_nat i) x), w') /\
    current_generation cfg k l w' /\ staging w' = staging w.
Proof.
  intros Hcfg Hcur Hx.
  destruct (read_current cfg k l w (Z.of_nat i) v0 Hcfg Hcur ltac:(lia))
    as (w' & E & Hcur' & _ & Hs & _).
  exists w'. split; [| split; assumption].
  rewrite E. rewrite generation_size.
  assert (i < length l)%nat by (eapply lookup_lt_Some; exact Hx).
  destruct (Z.leb_spec (4 * Z.of_nat i + 4) (4 * Z.of_nat (length l) + 4)); [| lia].
  rewrite Nat2Z.id, (slot_of_generation l i x Hx).
  rewrite le32_decode_encode_small; [reflexivity |].
  destruct Hcur as (_ & _ & _ & _ & _ & Hl & _).
  exact (Forall_lookup_1 _ _ _ _ Hl Hx).
Qed.

(** X6. With the current generation on the card and no driver failure,
    [read_persistent_value] returns the value that slot [i] of the file
    holds, and leaves the store as it is. *)
Theorem read_returns_the_stored_value cfg k l w (i : nat) v0 x :
  buffer_fits cfg -> current_generation cfg k l w -> l !! i = Some x ->
  exists w',
    read_persistent_value cfg (mkNv (Z.of_nat i) v0) w
    = (Ret (STAT_OK, mkNv (Z.of_nat i) x), w') /\
    current_generation cfg k l w' /\ staging w' = staging w.
Proof. apply read_slot. Qed.

Lemma read_returns_the_stored_value_witness :
  exists w',
    read_persistent_value sample_config (mkNv (Z.of_nat 5) 0) settled_store
    = (Ret (STAT_OK, mkNv (Z.of_nat 5) (float_of_int 6)), w') /\
    current_generation sample_config 0 slots100 w' /\
    staging w' = staging settled_store.
Proof.
  apply (read_returns_the_stored_value sample_config 0 slots100 settled_store 5 0
           (float_of_int 6));
    [exact sample_buffer_fits | exact settled_store_current | reflexivity].
Defined.

(** X7. The slot right after the last value is the trailer of the file:
    [read_persistent_value] does not tell it from a value, and returns the
    checksum of the file as the value stored at that index. *)
Theorem read_of_the_trailer_slot cfg k l w v0 :
  buffer_fits cfg -> current_generation cfg k l w ->
  exists w',
    read_persistent_value cfg (mkNv (Z.of_nat (length l)) v0) w
    = (Ret (STAT_OK, mkNv (Z.of_nat (length l)) (crc32 0 (values l))), w').
Proof.
  intros Hcfg Hcur.
  destruct (read_current cfg k l w (Z.of_nat (length l)) v0 Hcfg Hcur ltac:(lia))
    as (w' & E & _).
  exists w'. rewrite E. rewrite generation_size.
  destruct (Z.leb_spec (4 * Z.of_nat (length l) + 4) (4 * Z.of_nat (length l) + 4)); [| lia].
  rewrite Nat2Z.id, trailer_of_generation.
  rewrite le32_decode_encode_small by (apply crc32_range; lia). reflexivity.
Qed.

Lemma read_of_the_trailer_slot_witness :
  exists w',
    read_persistent_value sample_config (mkNv (Z.of_nat (length slots100)) 0)
                          settled_store
    = (Ret (STAT_OK, mkNv (Z.of_nat (length slots100)) (crc32 0 (values slots100))), w').
Proof.
  apply (read_of_the_trailer_slot sample_config 0 slots100 settled_store 0);
    [exact sample_buffer_fits | exact settled_store_current].
Defined.



Lemma current_generation_ext cfg k l w1 w2 :
  faults w2 = faults w1 -> persist_dir w2 = persist_dir w1 -> disk w2 = disk w1 ->
  io_buffer (nvm w2) = io_buffer (nvm w1) -> file (nvm w2) = file (nvm w1) ->
  file_index (nvm w2) = file_index (nvm w1) ->
  current_generation cfg k l w1 -> current_generation cfg k l w2.
Proof.
  unfold current_generation. intros -> -> -> -> -> ->. exact id.
Qed.




(** ** The windows of the flush *)

Lemma length_patched cache first ys : length (patched cache first ys) = length ys.
Proof. apply length_imap. Qed.

Lemma patched_app cache first ys zs :
  patched cache first (ys ++ zs)
  = patched cache first ys ++ patched cache (first + Z.of_nat (length ys)) zs.
Proof.
  unfold patched. rewrite imap_app. f_equal.
  apply imap_ext. intros j y _. simpl. do 2 f_equal. lia.
Qed.

Lemma patched_ext c1 c2 first ys :
  (forall j, (j < length ys)%nat -> c1 !! (first + Z.of_nat j) = c2 !! (first + Z.of_nat j)) ->
  patched c1 first ys = patched c2 first ys.
Proof.
  intros H. unfold patched. apply imap_ext. intros j y Hj.
  rewrite H; [reflexivity |]. eapply lookup_lt_Some. exact Hj.
Qed.

Lemma patched_one cache first y :
  patched cache first [y] = [default y (cache !! first)].
Proof. unfold patched. simpl. now rewrite Z.add_0_r. Qed.

Lemma memcpy_to_values a x ys zs (tail : list byte) v :
  length ys = a ->
  memcpy_to (4 * a) (le32_encode v) (values (ys ++ x :: zs) ++ tail)
  = values (ys ++ v :: zs) ++ tail.
Proof.
  intros Ha. unfold memcpy_to.
  rewrite !values_app, !values_cons, <- !app_assoc.
  assert (Hl : length (values ys) = (4 * a)%nat) by (rewrite length_values; lia).
  rewrite take_app_length' by (symmetry; exact Hl).
  rewrite length_le32_encode.
  rewrite <- drop_drop.
  rewrite drop_app_length' by (symmetry; exact Hl).
  rewrite drop_app_length' by (symmetry; apply (length_le32_encode x)).
  reflexivity.
Qed.

(** The inner loop of the flush on a buffer of whole slots. *)
Lemma overlay_window_values cnt temp ys (tail : list byte) :
  4 * Z.of_nat (length ys) <= 65536 ->
  overlay_window cnt (cnt + Z.of_nat (length ys)) temp (values ys ++ tail)
  = values (patched temp cnt ys) ++ tail.
Proof.
  intros Hm. unfold overlay_window.
  replace (cnt + Z.of_nat (length ys) - cnt) with (Z.of_nat (length ys)) by lia.
  assert (H : forall a, (a <= length ys)%nat ->
    foldl (fun b k =>
             match temp !! k with
             | Some v => memcpy_to (Z.to_nat (wrap16 ((k - cnt) * NVM_VALUE_LEN)))
                                   (le32_encode v) b
             | None => b
             end) (values ys ++ tail) (seqZ cnt (Z.of_nat a))
    = values (patched temp cnt (take a ys) ++ drop a ys) ++ tail).
  { induction a as [| a IH]; intros Ha.
    - simpl. rewrite drop_0. reflexivity.
    - rewrite seqZ_S, foldl_app, IH by lia. simpl.
      destruct (lookup_lt_is_Some_2 ys a ltac:(lia)) as [y Hy].
      rewrite (take_S_r _ _ _ Hy), patched_app, <- app_assoc.
      rewrite length_take, Nat.min_l by lia.
      rewrite (drop_S _ _ _ Hy).
      rewrite patched_one. simpl.
      destruct (temp !! (cnt + Z.of_nat a)) as [v |] eqn:Ev; simpl.
      + replace (Z.to_nat (wrap16 ((cnt + Z.of_nat a - cnt) * NVM_VALUE_LEN)))
          with (4 * a)%nat.
        * apply memcpy_to_values. rewrite length_patched, length_take. lia.
        * unfold wrap16, NVM_VALUE_LEN.
          rewrite Z.mod_small by lia. lia.
      + reflexivity. }
  rewrite H by lia. rewrite firstn_all, drop_all, app_nil_r. reflexivity.
Qed.

Lemma f_write_append_nofault fp data w out :
  faults w = [] ->
  f_is_open fp = true -> fil_write fp = true ->
  lookup_file (fil_path fp) w = Some out ->
  fptr fp = Z.of_nat (length out) ->
  fsize fp = Z.of_nat (length out) ->
  let n := Z.of_nat (length data) in
  f_write fp data w
  = (Ret (FR_OK, set_fptr (fptr fp + n) (fsize fp + n) fp, n),
     store_file (fil_path fp) (out ++ data) w).
Proof.
  intros Hf Ho Hw Hl Hp Hs n.
  unfold f_write.
  rewrite (bind_Ret _ _ _ _ _ (next_fault_nofault w Hf)).
  rewrite Ho, Hw. simpl. run_step.
  rewrite Hl. simpl. run_step. unfold ret. fold n.
  replace (Z.to_nat (fptr fp)) with (length out) by lia.
  replace (Z.to_nat n) with (length data) by (unfold n; lia).
  rewrite take_app_length, firstn_all.
  rewrite drop_ge by lia. rewrite app_nil_r.
  replace (fsize fp `max` (fptr fp + n)) with (fsize fp + n) by lia.
  reflexivity.
Qed.

Lemma f_sync_nofault fp w :
  faults w = [] -> f_is_open fp = true -> f_sync fp w = (Ret FR_OK, w).
Proof.
  intros Hf Ho. unfold f_sync.
  rewrite (bind_Ret _ _ _ _ _ (next_fault_nofault w Hf)). now rewrite Ho.
Qed.



Lemma step_of_buffer cfg :
  buffer_fits cfg ->
  IO_BUFFER_SIZE cfg = 4 * (IO_BUFFER_SIZE cfg / NVM_VALUE_LEN) /\
  1 <= IO_BUFFER_SIZE cfg / NVM_VALUE_LEN < 16384 /\
  wrap16 (IO_BUFFER_SIZE cfg / NVM_VALUE_LEN) = IO_BUFFER_SIZE cfg / NVM_VALUE_LEN /\
  wrap16 (IO_BUFFER_SIZE cfg) = IO_BUFFER_SIZE cfg.
Proof.
  unfold buffer_fits, CRC_LEN, NVM_VALUE_LEN, wrap16. intros [Hb Hm].
  set (step := IO_BUFFER_SIZE cfg / 4).
  assert (E : IO_BUFFER_SIZE cfg = 4 * step) by (apply Z.div_exact in Hm; lia).
  split; [exact E |]. split; [lia |].
  split; apply Z.mod_small; lia.
Qed.


Lemma world_eta w :
  mkWorld (nvm w) (persist_dir w) (disk w) (faults w) (cycle_state w) (systick w)
          (exceptions w) = w.
Proof. now destruct w. Qed.

Lemma store_file_same p out w :
  lookup_file p w = Some out -> store_file p out w = w.
Proof.
  destruct p as [q |]; simpl; [| discriminate].
  destruct (persist_dir w); [| discriminate]. intros H.
  unfold set_disk. rewrite insert_id by exact H. apply world_eta.
Qed.

Lemma store_file_twice p c1 c2 fp1 b1 fp2 b2 w :
  store_file p c2 (scanned fp2 b2 (store_file p c1 (scanned fp1 b1 w)))
  = store_file p c2 (scanned fp2 b2 w).
Proof.
  destruct p as [q |]; simpl.
  - unfold set_disk, scanned, upd_nvm. simpl. now rewrite insert_insert_eq.
  - reflexivity.
Qed.

Lemma lookup_store_file p c w out :
  lookup_file p w = Some out -> lookup_file p (store_file p c w) = Some c.
Proof.
  destruct p as [q |]; simpl; [| discriminate].
  destruct (persist_dir w); [| discriminate]. intros _. apply lookup_insert_eq.
Qed.

Lemma set_fptr_same fp : set_fptr (fptr fp) (fsize fp) fp = fp.
Proof. now destruct fp. Qed.

Lemma erase_window_lookup cnt hi temp k :
  erase_window cnt hi temp !! k
  = if decide (cnt <= k < hi) then None else temp !! k.
Proof.
  unfold erase_window.
  destruct (decide (cnt <= k < hi)) as [Hin | Hout].
  - apply map_lookup_filter_None. right. intros v _. simpl. tauto.
  - destruct (temp !! k) as [v |] eqn:E.
    + apply map_lookup_filter_Some. split; [exact E | exact Hout].
    + apply map_lookup_filter_None. left. exact E.
Qed.

Section FirstFlush.

Variable cfg : Config.
Hypothesis Hcfg : buffer_fits cfg.
Variable top : Z.

Hypothesis Htop : top + IO_BUFFER_SIZE cfg / NVM_VALUE_LEN < 65536.


End FirstFlush.

(** ** The flush after the only generation was rejected *)



Lemma f_open_always_new fp q w :
  faults w = [] -> persist_dir w = true -> disk w !! q = None ->
  f_open_always fp (persist_bin q) w
  = (Ret (FR_OK, mkFIL true (persist_bin q) true 0 0), store_file (persist_bin q) [] w).
Proof.
  intros Hf Hp Hd. unfold f_open_always.
  rewrite (bind_Ret _ _ _ _ _ (next_fault_nofault w Hf)). simpl.
  unfold bind, gets. rewrite Hp. simpl. rewrite Hp, Hd. reflexivity.
Qed.

Lemma patched_word32 cache first ys :
  (forall k v, cache !! k = Some v -> word32 v) -> Forall word32 ys ->
  Forall word32 (patched cache first ys).
Proof.
  intros Hc Hys. apply Forall_lookup_2. intros i x.
  unfold patched. rewrite list_lookup_imap.
  destruct (ys !! i) as [y |] eqn:Ey; [| discriminate].
  simpl. intros [= <-].
  destruct (cache !! (first + Z.of_nat i)) as [v |] eqn:Ev; simpl.
  - eapply Hc. exact Ev.
  - eapply Forall_lookup_1; eassumption.
Qed.



(** ** The flush with a baseline *)

Lemma byte_of_Z_mod z z' : z mod 256 = z' mod 256 -> byte_of_Z z = byte_of_Z z'.
Proof. unfold byte_of_Z. now intros ->. Qed.

Lemma le32_encode_decode b0 b1 b2 b3 :
  le32_encode (le32_decode [b0; b1; b2; b3]) = [b0; b1; b2; b3].
Proof.
  unfold le32_encode, le32_decode. simpl.
  pose proof (Z_of_byte_range b0). pose proof (Z_of_byte_range b1).
  pose proof (Z_of_byte_range b2). pose proof (Z_of_byte_range b3).
  rewrite !Z.shiftr_div_pow2 by lia.
  change (2 ^ 8) with 256. change (2 ^ 16) with 65536. change (2 ^ 24) with 16777216.
  set (x0 := Z_of_byte b0) in *. set (x1 := Z_of_byte b1) in *.
  set (x2 := Z_of_byte b2) in *. set (x3 := Z_of_byte b3) in *.
  rewrite <- (byte_of_Z_of_byte b0), <- (byte_of_Z_of_byte b1),
          <- (byte_of_Z_of_byte b2), <- (byte_of_Z_of_byte b3).
  fold x0 x1 x2 x3.
  f_equal; [| f_equal; [| f_equal; [| f_equal]]];
    apply byte_of_Z_mod; Z.div_mod_to_equations; lia.
Qed.

(** Every buffer of [4 * m] bytes is a sequence of [m] value slots. *)
Lemma values_of_bytes (m : nat) : forall bs : list byte,
  length bs = (4 * m)%nat -> exists ys, bs = values ys /\ length ys = m.
Proof.
  induction m as [| m IH]; intros bs Hlen.
  - exists []. split; [| reflexivity]. now destruct bs.
  - destruct bs as [| b0 [| b1 [| b2 [| b3 bs]]]]; simpl in Hlen; try lia.
    destruct (IH bs ltac:(lia)) as (ys & -> & Hys).
    exists (le32_decode [b0; b1; b2; b3] :: ys). split; [| simpl; lia].
    rewrite values_cons, le32_encode_decode. reflexivity.
Qed.

Lemma memset0_nothing off (buf : list byte) : memset0 off 0 buf = buf.
Proof.
  unfold memset0, memcpy_to. simpl. rewrite Nat.add_0_r. apply take_drop.
Qed.

Lemma chunk_of_generation l (a c : nat) :
  (a + c <= length l)%nat ->
  take (4 * c) (drop (4 * a) (generation (values l))) = values (take c (drop a l)).
Proof.
  intros H. unfold generation.
  rewrite drop_app_le by (rewrite length_values; lia).
  rewrite drop_values.
  rewrite take_app_le by (rewrite length_values, length_drop; lia).
  apply take_values.
Qed.

(** One turn of the window loop with the baseline open: [c] slots of the
    baseline, with the cache entries of the window on top. *)
Lemma flush_window_open cfg fuel f_out cnt crc temp w out l (a : nat) :
  buffer_fits cfg ->
  faults w = [] ->
  f_is_open (file (nvm w)) = true ->
  lookup_file (fil_path (file (nvm w))) w = Some (generation (values l)) ->
  fsize (file (nvm w)) = Z.of_nat (length (generation (values l))) ->
  fsize (file (nvm w)) < 4294967296 ->
  fptr (file (nvm w)) = 4 * Z.of_nat a ->
  (a <= length l)%nat ->
  length (io_buffer (nvm w)) = Z.to_nat (IO_BUFFER_SIZE cfg) ->
  temp <> ∅ \/ (a < length l)%nat ->
  f_is_open f_out = true -> fil_write f_out = true ->
  lookup_file (fil_path f_out) w = Some out ->
  fptr f_out = Z.of_nat (length out) ->
  fsize f_out = Z.of_nat (length out) ->
  let step := IO_BUFFER_SIZE cfg / NVM_VALUE_LEN in
  0 <= cnt -> cnt + step < 65536 ->
  let c := Nat.min (Z.to_nat step) (length l - a) in
  let window := values (patched temp cnt (take c (drop a l))) in
  exists buf,
    length buf = Z.to_nat (IO_BUFFER_SIZE cfg) /\
    flush_loop cfg (S fuel) f_out cnt crc temp w
    = flush_loop cfg fuel
        (set_fptr (fptr f_out + Z.of_nat (length window))
                  (fsize f_out + Z.of_nat (length window)) f_out)
        (cnt + step) (crc32 crc window) (erase_window cnt (cnt + step) temp)
        (store_file (fil_path f_out) (out ++ window)
           (scanned (set_fptr (4 * Z.of_nat (a + c)) (fsize (file (nvm w))) (file (nvm w)))
                    buf w)).
Proof.
  intros Hcfg Hf Ho Hl Hsize Hsmall Hptr Ha Hbuf Hgo Hoo How Hlo Hpo Hso step Hcnt Hhi
         c window.
  destruct (step_of_buffer cfg Hcfg) as (Hsz & Hstep & Hstep16 & Hbuf16).
  fold step in Hsz, Hstep, Hstep16.
  set (fp := file (nvm w)) in *.
  rewrite generation_size in Hsize.
  set (chunk := take c (drop a l)).
  assert (Hchunk : length chunk = c).
  { unfold chunk. rewrite length_take, length_drop. lia. }
  assert (Hwin : length window = (4 * c)%nat).
  { unfold window. rewrite length_values, length_patched. fold chunk. lia. }
  assert (Hremain : f_remain fp = 4 * Z.of_nat (length l - a) + 4).
  { unfold f_remain, wrap32. rewrite Hsize, Hptr.
    rewrite Z.mod_small by lia. lia. }
  assert (Hcond : negb (bool_decide (temp ≠ ∅)) && negb (f_remain fp >? CRC_LEN) = false).
  { destruct Hgo as [Hne | Hlt].
    - rewrite bool_decide_true by assumption. reflexivity.
    - rewrite Hremain. unfold CRC_LEN.
      destruct (Z.gtb_spec (4 * Z.of_nat (length l - a) + 4) 4); [| lia].
      apply andb_false_r. }
  assert (Hcount : wrap16 (if f_is_open fp
                           then Z.min (IO_BUFFER_SIZE cfg) (wrap32 (f_remain fp - CRC_LEN))
                           else IO_BUFFER_SIZE cfg) = 4 * Z.of_nat c).
  { rewrite Ho, Hremain. unfold CRC_LEN, wrap32, wrap16.
    rewrite (Z.mod_small (4 * Z.of_nat (length l - a) + 4 - 4)) by lia.
    rewrite Z.mod_small by lia. unfold c. lia. }
  assert (Hhi16 : wrap16 (cnt + step) = cnt + step).
  { unfold wrap16. apply Z.mod_small. lia. }
  assert (Hoff : window_runs_off cnt (cnt + step) temp = false).
  { unfold window_runs_off. destruct (Z.ltb_spec (cnt + step) cnt); [lia | reflexivity]. }
  pose proof (nvm_f_read_nofault (4 * Z.of_nat c) w _ Hf Ho Hl ltac:(fold fp; lia)
                ltac:(fold fp; rewrite generation_size; exact Hsize)) as Hread.
  cbv zeta in Hread. fold fp in Hread.
  assert (Hn : Z.min (4 * Z.of_nat c) (fsize fp - fptr fp) = 4 * Z.of_nat c)
    by (unfold c; lia).
  rewrite Hn in Hread. specialize (Hread ltac:(lia)).
  rewrite Hptr in Hread.
  replace (Z.to_nat (4 * Z.of_nat c)) with (4 * c)%nat in Hread by lia.
  replace (Z.to_nat (4 * Z.of_nat a)) with (4 * a)%nat in Hread by lia.
  rewrite chunk_of_generation in Hread by (unfold c; lia). fold chunk in Hread.
  rewrite length_values, Hchunk in Hread.
  destruct (values_of_bytes (Z.to_nat step - c) (drop (4 * c) (io_buffer (nvm w))))
    as (st & Hst & Hstlen).
  { rewrite length_drop, Hbuf. unfold c. lia. }
  rewrite Hst in Hread. rewrite <- values_app in Hread.
  set (buf := values (patched temp cnt (chunk ++ st))).
  assert (Hbuflen : length buf = Z.to_nat (IO_BUFFER_SIZE cfg)).
  { unfold buf. rewrite length_values, length_patched, length_app. unfold c in *. lia. }
  assert (Hover : overlay_window cnt (cnt + step) temp (values (chunk ++ st)) = buf).
  { rewrite <- (app_nil_r (values (chunk ++ st))).
    replace (cnt + step) with (cnt + Z.of_nat (length (chunk ++ st)))
      by (rewrite length_app; unfold c in *; lia).
    rewrite overlay_window_values by (rewrite length_app; unfold c in *; lia).
    apply app_nil_r. }
  assert (Htake : take (4 * c) buf = window).
  { unfold buf, window. rewrite take_values, patched_app.
    rewrite take_app_length' by (rewrite length_patched; symmetry; exact Hchunk).
    reflexivity. }
  set (fp' := set_fptr (4 * Z.of_nat (a + c)) (fsize fp) fp).
  set (w2 := scanned fp' buf w).
  assert (Hlo2 : lookup_file (fil_path f_out) w2 = Some out).
  { unfold w2, scanned. rewrite lookup_file_upd_nvm. exact Hlo. }
  pose proof (f_write_append_nofault f_out window w2 out Hf Hoo How Hlo2 Hpo Hso) as Ew.
  cbv zeta in Ew.
  set (f_out' := set_fptr (fptr f_out + Z.of_nat (length window))
                          (fsize f_out + Z.of_nat (length window)) f_out) in *.
  set (w3 := store_file (fil_path f_out) (out ++ window) w2) in *.
  assert (Hf3 : faults w3 = []).
  { unfold w3. destruct (fil_path f_out); exact Hf. }
  pose proof (f_sync_nofault f_out' w3 Hf3 Hoo) as Esync.
  exists buf. split; [exact Hbuflen |].
  simpl. run_step. fold fp. rewrite Hcond.
  fold step. rewrite Hstep16, Hcount.
  rewrite (bind_Ret _ _ _ _ _ Hread). cbn [fst snd].
  run_step. rewrite Hhi16, Hoff.
  run_step. run_step.
  match goal with
  | |- bind (f_write f_out ?win) _ ?W = _ =>
      replace win with window; [replace W with w2 |]
  end.
  - rewrite (bind_Ret _ _ _ _ _ Ew). cbn [fst snd].
    destruct (decide (FR_OK = FR_OK)) as [_ | ?]; [| contradiction].
    rewrite Hwin.
    destruct (decide (Z.of_nat (4 * c) = 4 * Z.of_nat c)) as [_ | ?]; [| lia].
    rewrite (fs_ritorno_ok _ _ _ _ _ Esync). reflexivity.
  - unfold w2, scanned, upd_nvm. simpl.
    replace (Z.to_nat (4 * Z.of_nat c - 4 * Z.of_nat c)) with 0%nat by lia.
    rewrite memset0_nothing, Hover.
    unfold fp'. replace (4 * Z.of_nat a + 4 * Z.of_nat c) with (4 * Z.of_nat (a + c)) by lia.
    reflexivity.
  - simpl.
    replace (Z.to_nat (4 * Z.of_nat c - 4 * Z.of_nat c)) with 0%nat by lia.
    rewrite memset0_nothing, Hover.
    replace (Z.to_nat (4 * Z.of_nat c)) with (4 * c)%nat by lia.
    symmetry. exact Htake.
Qed.

Lemma lookup_store_file_ne p p' c w :
  p <> p' -> lookup_file p' (store_file p c w) = lookup_file p' w.
Proof.
  intros Hne. destruct p as [q |], p' as [q' |]; simpl; try reflexivity.
  destruct (persist_dir w); [| reflexivity].
  apply lookup_insert_ne. congruence.
Qed.

Lemma patched_nil cache first : patched cache first [] = [].
Proof. reflexivity. Qed.

Section Merge.

Variable cfg : Config.
Hypothesis Hcfg : buffer_fits cfg.
Variable bound : Z.
Variable l : list Z.

Hypothesis Hbound : bound + IO_BUFFER_SIZE cfg / NVM_VALUE_LEN < 65536.
Hypothesis Hsmall : Z.of_nat (length (generation (values l))) < 4294967296.

(** The window loop with the baseline open, from slot [a] on: the rest of
    the baseline goes to the new file with the cache entries that fall into
    it; the entries past the baseline are erased window by window. *)
Lemma flush_loop_open (fuel : nat) : forall (a : nat) cnt crc temp out f_out w,
  faults w = [] ->
  f_is_open (file (nvm w)) = true ->
  lookup_file (fil_path (file (nvm w))) w = Some (generation (values l)) ->
  fsize (file (nvm w)) = (Z.of_nat (length (generation (values l)))) ->
  fptr (file (nvm w)) = 4 * Z.of_nat a ->
  (a <= length l)%nat ->
  length (io_buffer (nvm w)) = Z.to_nat (IO_BUFFER_SIZE cfg) ->
  f_is_open f_out = true -> fil_write f_out = true ->
  lookup_file (fil_path f_out) w = Some out ->
  fptr f_out = Z.of_nat (length out) ->
  fsize f_out = Z.of_nat (length out) ->
  fil_path f_out <> fil_path (file (nvm w)) ->
  0 <= cnt ->
  a = length l \/ cnt = Z.of_nat a ->
  (forall k v, temp !! k = Some v -> cnt <= k < bound) ->
  Z.of_nat (length l - a) <= Z.max 0 (bound - cnt) ->
  bound - cnt <= Z.of_nat fuel * (IO_BUFFER_SIZE cfg / NVM_VALUE_LEN) ->
  let zs := values (patched temp cnt (drop a l)) in
  exists buf,
    flush_loop cfg fuel f_out cnt crc temp w
    = (Ret (inr (set_fptr (fptr f_out + Z.of_nat (length zs))
                          (fsize f_out + Z.of_nat (length zs)) f_out,
                 crc32 crc zs)),
       store_file (fil_path f_out) (out ++ zs)
         (scanned (set_fptr (4 * Z.of_nat (length l)) (Z.of_nat (length (generation (values l)))) (file (nvm w))) buf w)) /\
    length buf = Z.to_nat (IO_BUFFER_SIZE cfg).
Proof.
  destruct (step_of_buffer cfg Hcfg) as (Hsz & Hstep & Hstep16 & Hbuf16).
  set (step := IO_BUFFER_SIZE cfg / NVM_VALUE_LEN) in *.
  set (size := Z.of_nat (length (generation (values l)))) in *.
  induction fuel as [| fuel IH];
    intros a cnt crc temp out f_out w Hf Ho Hl Hsize Hptr Ha Hbuf Hoo How Hlo Hpo Hso
           Hpath Hcnt Halign Hkeys Hrest Hfuel zs.
  all: destruct (decide (temp = ∅ /\ a = length l)) as [[Hempty HaN] | Hgo].
  1, 3: (* the loop is left *)
    subst temp a; exists (io_buffer (nvm w)); split; [| exact Hbuf];
    subst zs; rewrite drop_all, patched_nil;
    change (values []) with (@nil byte); simpl length;
    rewrite !Z.add_0_r, app_nil_r, crc32_nil, set_fptr_same;
    rewrite <- Hptr, <- Hsize, set_fptr_same, scanned_same;
    rewrite (store_file_same _ _ _ Hlo);
    assert (Hrem : f_remain (file (nvm w)) = 4)
      by (unfold f_remain, wrap32; rewrite Hsize, Hptr; unfold size;
          rewrite generation_size; replace (4 * Z.of_nat (length l) + 4 - 4 * Z.of_nat (length l)) with 4 by lia;
          reflexivity);
    simpl; unfold bind, gets, ret; simpl;
    rewrite bool_decide_false by (intros H; now apply H);
    rewrite Hrem; reflexivity.
  - (* no fuel, yet something is left to do *)
    exfalso.
    assert (Hwork : temp <> ∅ \/ (a < length l)%nat).
    { destruct (decide (temp = ∅)); [right | left; assumption].
      destruct (decide (a = length l)); [tauto | lia]. }
    destruct Hwork as [Hne | Hlt].
    + apply map_choose in Hne. destruct Hne as (k & v & Hk).
      specialize (Hkeys _ _ Hk). lia.
    + lia.
  - assert (Hwork : temp <> ∅ \/ (a < length l)%nat).
    { destruct (decide (temp = ∅)); [right | left; assumption].
      destruct (decide (a = length l)); [tauto | lia]. }
    assert (Hroom : cnt < bound).
    { destruct Hwork as [Hne | Hlt].
      - apply map_choose in Hne. destruct Hne as (k & v & Hk).
        specialize (Hkeys _ _ Hk). lia.
      - lia. }
    destruct (flush_window_open cfg fuel f_out cnt crc temp w out l a)
      as (buf1 & Hbuf1 & Ewin); try assumption.
    { rewrite Hsize. exact Hsmall. }
    { fold step. lia. }
    fold step in Ewin. rewrite Ewin. clear Ewin.
    set (c := Nat.min (Z.to_nat step) (length l - a)) in *.
    set (chunk := take c (drop a l)) in *.
    set (window := values (patched temp cnt chunk)) in *.
    set (temp' := erase_window cnt (cnt + step) temp).
    set (fp' := set_fptr (4 * Z.of_nat (a + c)) (fsize (file (nvm w))) (file (nvm w))).
    set (f_out' := set_fptr (fptr f_out + Z.of_nat (length window))
                            (fsize f_out + Z.of_nat (length window)) f_out).
    set (w' := store_file (fil_path f_out) (out ++ window) (scanned fp' buf1 w)).
    assert (Hnvm' : nvm w' = nvm (scanned fp' buf1 w)).
    { unfold w'. destruct (fil_path f_out); reflexivity. }
    assert (Hf' : faults w' = []).
    { unfold w'. destruct (fil_path f_out); exact Hf. }
    assert (Hkeys' : forall k v, temp' !! k = Some v -> cnt + step <= k < bound).
    { intros k v. unfold temp'. rewrite erase_window_lookup.
      destruct (decide (cnt <= k < cnt + step)); [discriminate |].
      intros Hk. specialize (Hkeys _ _ Hk). lia. }
    destruct (IH (a + c)%nat (cnt + step) (crc32 crc window) temp' (out ++ window) f_out' w')
      as [buf [E Hb]]; try assumption.
    + rewrite Hnvm'. exact Ho.
    + rewrite Hnvm'. simpl. unfold w'.
      rewrite lookup_store_file_ne by exact Hpath.
      unfold scanned. rewrite lookup_file_upd_nvm. exact Hl.
    + rewrite Hnvm'. exact Hsize.
    + rewrite Hnvm'. reflexivity.
    + unfold c. lia.
    + rewrite Hnvm'. exact Hbuf1.
    + unfold w'. eapply lookup_store_file.
      unfold scanned. rewrite lookup_file_upd_nvm. exact Hlo.
    + unfold f_out'. simpl. rewrite length_app. lia.
    + unfold f_out'. simpl. rewrite length_app. lia.
    + rewrite Hnvm'. exact Hpath.
    + lia.
    + unfold c. destruct Halign as [-> | ->]; lia.
    + unfold c. lia.
    + lia.
    + exists buf. split; [| exact Hb].
      rewrite E. clear E IH.
      assert (Hzs : zs = window ++ values (patched temp' (cnt + step) (drop (a + c) l))).
      { subst zs. unfold window. rewrite <- values_app. f_equal.
        rewrite <- (take_drop c (drop a l)) at 1.
        rewrite patched_app. fold chunk. f_equal.
        rewrite drop_drop.
        destruct (decide (a + c < length l)%nat) as [Hmore | Hdone].
        - assert (Hc : c = Z.to_nat step) by (unfold c; lia).
          unfold chunk. rewrite length_take, length_drop.
          replace (Z.of_nat (c `min` (length l - a))) with step by lia.
          apply patched_ext. intros j _.
          unfold temp'. rewrite erase_window_lookup.
          destruct (decide _) as [Hin |]; [exfalso; clear - Hin; lia | reflexivity].
        - rewrite (drop_ge l (a + c)) by lia. reflexivity. }
      rewrite Hzs. rewrite crc32_app, <- app_assoc.
      set (rest := values (patched temp' (cnt + step) (drop (a + c) l))).
      assert (Hfo : set_fptr (fptr f_out' + Z.of_nat (length rest))
                             (fsize f_out' + Z.of_nat (length rest)) f_out'
                    = set_fptr (fptr f_out + Z.of_nat (length (window ++ rest)))
                               (fsize f_out + Z.of_nat (length (window ++ rest))) f_out).
      { unfold f_out', set_fptr. simpl. rewrite length_app. f_equal; lia. }
      rewrite Hfo. rewrite Hnvm'. unfold w'. rewrite store_file_twice.
      reflexivity.
Qed.

End Merge.

Lemma rotation k :
  0 <= k < PERSISTENCE_FILENAME_CNT ->
  let next := (k + 1) mod PERSISTENCE_FILENAME_CNT in
  let prev := (k + 2) mod PERSISTENCE_FILENAME_CNT in
  0 <= next < PERSISTENCE_FILENAME_CNT /\ 0 <= prev < PERSISTENCE_FILENAME_CNT /\
  next <> k /\ prev <> k /\ next <> prev /\
  (next + 1) mod PERSISTENCE_FILENAME_CNT = prev.
Proof.
  unfold PERSISTENCE_FILENAME_CNT. intros H.
  assert (k = 0 \/ k = 1 \/ k = 2) as [-> | [-> | ->]] by lia;
    cbv zeta; repeat split; try discriminate; reflexivity.
Qed.

(** The flush of a store whose current generation is [l]. *)
Lemma merge_flush cfg k l bound fuel w :
  buffer_fits cfg -> current_generation cfg k l w -> cycle_state w = CYCLE_OFF ->
  cache_below bound (write_cache (nvm w)) ->
  let step := IO_BUFFER_SIZE cfg / NVM_VALUE_LEN in
  Z.of_nat (length l) <= bound ->
  bound + step < 65536 ->
  bound <= Z.of_nat fuel * step ->
  exists w',
    write_persistent_values cfg fuel w = (Ret STAT_OK, w') /\
    current_generation cfg ((k + 1) mod PERSISTENCE_FILENAME_CNT)
      (patched (write_cache (nvm w)) 0 l) w' /\
    f_is_open (file (nvm w')) = false /\
    disk w' !! k = None /\
    staging w' = staging w /\ cycle_state w' = cycle_state w /\
    systick w' = systick w /\ exceptions w' = exceptions w.
Proof.
  intros Hcfg Hcur Hidle Hcache step Hlen Hbound Hfuel.
  destruct (step_of_buffer cfg Hcfg) as (Hsz & Hstep & Hstep16 & Hbuf16).
  fold step in Hsz, Hstep, Hstep16.
  destruct (prepare_current cfg k l w Hcfg Hcur)
    as (w1 & E1 & Hcur1 & Ho1 & Hs1 & Hc1 & Ht1 & He1 & Hd1).
  pose proof Hcur1 as (Hf1 & Hp1 & Hk & Hbase1 & Hfree1 & Hl & Hbuf1 & Hopen1).
  destruct (Hopen1 Ho1) as (Hpath1 & Hsize1 & Hptr1 & Hidx1 & Hprev1).
  destruct (rotation k Hk) as (Hnext & Hprev & Hnk & Hpk & Hnp & Hnn).
  set (next := (k + 1) mod PERSISTENCE_FILENAME_CNT) in *.
  set (prev := (k + 2) mod PERSISTENCE_FILENAME_CNT) in *.
  set (cache := write_cache (nvm w)) in *.
  assert (Hcache1 : write_cache (nvm w1) = cache) by (apply staging_cache; exact Hs1).
  set (size := Z.of_nat (length (generation (values l)))) in *.
  assert (Hsz4 : size = 4 * Z.of_nat (length l) + 4) by apply generation_size.
  set (fp1 := file (nvm w1)) in *.
  set (fp2 := set_fptr (Z.min 0 (fsize fp1)) (fsize fp1) fp1).
  set (w2 := upd_nvm (set_file fp2) w1).
  assert (Hseek : on_nvm_file (fun fp => f_lseek fp 0) w1 = (Ret FR_OK, w2)).
  { apply on_nvm_file_run. apply f_lseek_nofault; assumption. }
  assert (Hnext2 : NEXT_FILE_INDEX (nvm w2) = next).
  { unfold NEXT_FILE_INDEX. simpl. now rewrite Hidx1. }
  set (p := persist_bin next).
  set (f_out := mkFIL true p true 0 0).
  set (w3 := store_file p [] w2).
  assert (Hf3 : faults w3 = []) by exact Hf1.
  assert (Hopen : f_open_always FIL_closed p w2 = (Ret (FR_OK, f_out), w3)).
  { apply f_open_always_new; assumption. }
  destruct (flush_loop_open cfg Hcfg bound l Hbound ltac:(fold size; lia)
              fuel 0%nat 0 0 cache [] f_out w3)
    as [buf [Eloop Hbuflen]]; try assumption; try reflexivity.
  all: try lia.
  - unfold w3, p. simpl. rewrite Hpath1. simpl. rewrite Hp1.
    rewrite lookup_insert_ne by congruence. exact Hbase1.
  - simpl. rewrite Hsize1. unfold size. lia.
  - unfold w3, p. simpl. rewrite Hp1. apply lookup_insert_eq.
  - simpl. rewrite Hpath1. unfold p. congruence.
  - intros key v Hkey. destruct (Hcache _ _ Hkey). lia.
  - rewrite drop_0 in Eloop. cbn [app] in Eloop.
    set (slots := patched cache 0 l) in *.
    set (zs := values slots) in *.
    set (f_out1 := set_fptr (fptr f_out + Z.of_nat (length zs))
                            (fsize f_out + Z.of_nat (length zs)) f_out) in *.
    set (fp4 := set_fptr (4 * Z.of_nat (length l)) size (file (nvm w3))) in *.
    set (w4 := store_file (fil_path f_out) zs (scanned fp4 buf w3)) in *.
    assert (Hf4 : faults w4 = []) by exact Hf1.
    assert (Hl4 : lookup_file (fil_path f_out1) w4 = Some zs).
    { unfold w4. simpl. rewrite Hp1. apply lookup_insert_eq. }
    pose proof (f_write_append_nofault f_out1 (le32_encode (crc32 0 zs)) w4 zs
                  Hf4 eq_refl eq_refl Hl4 eq_refl eq_refl) as Ew.
    cbv zeta in Ew.
    set (f_out2 := set_fptr (fptr f_out1 + Z.of_nat (length (le32_encode (crc32 0 zs))))
                            (fsize f_out1 + Z.of_nat (length (le32_encode (crc32 0 zs))))
                            f_out1) in *.
    set (w5 := store_file (fil_path f_out1) (zs ++ le32_encode (crc32 0 zs)) w4) in *.
    assert (Hf5 : faults w5 = []) by exact Hf1.
    set (w6 := upd_nvm (set_file (close_FIL fp4)) w5).
    assert (Hclose : on_nvm_file f_close w5 = (Ret FR_OK, w6)).
    { apply on_nvm_file_run. apply f_close_nofault; [exact Hf5 | exact Ho1]. }
    assert (Hl6 : lookup_file (persist_bin k) w6 = Some (generation (values l))).
    { unfold w6, w5, w4, w3. simpl. rewrite Hp1.
      rewrite !lookup_insert_ne by congruence. exact Hbase1. }
    set (w7 := remove_file (persist_bin k) w6).
    set (w8 := upd_nvm (set_file_index 0) w7).
    exists w8. split.
    + unfold write_persistent_values. run_step. rewrite Hidle.
      destruct (decide (CYCLE_OFF = CYCLE_OFF)); [| congruence].
      rewrite (bind_Ret _ _ _ _ _ E1).
      destruct (decide (STAT_OK = STAT_OK)); [| congruence].
      rewrite (fs_ritorno_ok _ _ _ _ _ Hseek).
      run_step. rewrite Hnext2.
      rewrite (bind_Ret _ _ _ _ _ (filenames_at_slot _ _ Hnext)). fold p.
      rewrite (bind_Ret _ _ _ _ _ Hopen). cbn [fst snd].
      destruct (decide (FR_OK = FR_OK)); [| congruence].
      rewrite (fs_ritorno_ok _ _ _ _ _ (f_sync_nofault f_out w3 Hf3 eq_refl)).
      run_step.
      change (write_cache (nvm w3)) with (write_cache (nvm w1)). rewrite Hcache1.
      rewrite (bind_Ret _ _ _ _ _ Eloop).
      rewrite (bind_Ret _ _ _ _ _ Ew). cbn [fst snd].
      destruct (decide (FR_OK = FR_OK)); [| congruence].
      rewrite (bind_Ret _ _ _ _ _ (f_close_nofault f_out2 w5 Hf5 eq_refl)).
      cbn [fst snd].
      destruct (decide (FR_OK = FR_OK)); [| congruence].
      run_step.
      change (f_is_open (file (nvm w5))) with (f_is_open fp1). rewrite Ho1.
      rewrite (fs_ritorno_ok _ _ _ _ _ Hclose).
      run_step.
      change (file_index (nvm w6)) with (file_index (nvm w1)). rewrite Hidx1.
      rewrite (bind_Ret _ _ _ _ _ (filenames_at_slot _ _ Hk)).
      rewrite (fs_ritorno_ok _ _ _ _ _ (f_unlink_nofault _ w6 _ Hf5 Hl6)).
      reflexivity.
    + assert (Hdisk : disk w8
                      = delete k (<[next := generation zs]>
                                   (<[next := zs]> (<[next := []]> (disk w1))))).
      { reflexivity. }
      split; [| split; [reflexivity | split; [| repeat split; assumption]]].
      * unfold current_generation. fold next. fold slots. fold zs.
        rewrite Hdisk.
        change (io_buffer (nvm w8)) with buf.
        split; [exact Hf1 |]. split; [exact Hp1 |]. split; [exact Hnext |].
        split.
        { rewrite lookup_delete_ne by congruence. apply lookup_insert_eq. }
        split.
        { rewrite Hnn. rewrite lookup_delete_ne by congruence.
          rewrite !lookup_insert_ne by congruence. exact Hprev1. }
        split.
        { apply patched_word32; [| exact Hl].
          intros key v Hkey. apply (Hcache _ _ Hkey). }
        split; [exact Hbuflen | discriminate].
      * rewrite Hdisk. apply lookup_delete_eq.
Qed.

(** *** The flush writes one slot *)

Ltac yields_cases :=
  repeat first
    [ progress simpl
    | match goal with
      | |- context [match ?x with _ => _ end] => destruct x
      end ];
  try (intros H; inversion H; subst; simpl; auto).

Lemma yields_f_write fp data :
  yields (f_write fp data) (fun r => fil_path (snd (fst r)) = fil_path fp).
Proof.
  intros w a. unfold f_write, bind, next_fault, gets, ret, modify. yields_cases.
Qed.

Lemma yields_f_open_always fp p :
  yields (f_open_always fp p)
         (fun r => fil_path (snd r) = p \/ fil_path (snd r) = fil_path fp).
Proof.
  intros w a. unfold f_open_always, bind, next_fault, gets, ret, modify, lookup_file.
  yields_cases.
Qed.

Lemma yields_bind {A B} (m : M A) (R : A -> Prop) (k : A -> M B) (Q : B -> Prop) :
  yields m R -> (forall a, R a -> yields (k a) Q) -> yields (bind m k) Q.
Proof.
  intros Hm Hk w b. unfold bind. specialize (Hm w).
  destruct (m w) as [[a | |] w1]; simpl in *; try discriminate.
  apply (Hk a). now apply Hm.
Qed.

Lemma yields_any {A} (m : M A) : yields m (fun _ => True).
Proof. now intros w a _. Qed.

Lemma yields_ret {A} (a : A) (Q : A -> Prop) : Q a -> yields (ret a) Q.
Proof. intros H w b [= <-]. exact H. Qed.

Lemma yields_nothing {A} (m : M A) (Q : A -> Prop) :
  (forall w a, fst (m w) <> Ret a) -> yields m Q.
Proof. intros H w a E. now apply H in E. Qed.

Lemma yields_flush_loop cfg fuel : forall f_out cnt crc temp,
  yields (flush_loop cfg fuel f_out cnt crc temp)
         (fun l => match l with
                   | inl _ => True
                   | inr fc => fil_path (fst fc) = fil_path f_out
                   end).
Proof.
  induction fuel as [| fuel IH]; intros f_out cnt crc temp; simpl.
  - eapply yields_bind; [apply yields_any | intros fp _].
    destruct (_ && _); [now apply yields_ret |].
    apply yields_nothing. discriminate.
  - eapply yields_bind; [apply yields_any | intros fp _].
    destruct (_ && _); [now apply yields_ret |].
    eapply yields_bind; [apply yields_any | intros r _].
    eapply yields_bind; [apply yields_any | intros _ _].
    destruct (window_runs_off _ _ _); [apply yields_nothing; discriminate |].
    eapply yields_bind; [apply yields_any | intros _ _].
    eapply yields_bind; [apply yields_any | intros buf _].
    eapply yields_bind; [apply yields_f_write | intros wr Hwr]. simpl in Hwr.
    destruct (decide _); [| now apply yields_ret].
    destruct (decide _); [| now apply yields_ret].
    unfold fs_ritorno.
    eapply yields_bind; [apply yields_any | intros s _].
    destruct (decide _); [| now apply yields_ret].
    rewrite <- Hwr. apply IH.
Qed.

Section OneSlot.

Variable Q : gmap Z (list byte) -> Prop.
Hypothesis Q_down : forall d d', d' ⊆ d -> Q d -> Q d'.
Variable q : Z.
Hypothesis Q_write : forall d c, Q d -> Q (<[q := c]> d).

Lemma card_has_store_file p c w :
  slot_path q p -> card_has Q w -> card_has Q (store_file p c w).
Proof.
  unfold card_has. intros [-> | ->] H; simpl; [apply Q_write |]; exact H.
Qed.

Ltac slot_side :=
  first
    [ intros ? [[] ? ? ? ? ? ?] ?; assumption
    | intros ?; first [apply (card_has_emptied Q Q_down) | apply (card_has_emptied Q)]
    | intros ?; first [apply (card_has_remove_file Q Q_down) | apply (card_has_remove_file Q)]
    | intros ?; apply card_has_store_file; assumption
    | intros [[] ? ? ? ? ? ?] ?; assumption ].

Lemma slot_f_write fp data :
  slot_path q (fil_path fp) -> preserves (card_has Q) (f_write fp data).
Proof. intros Hp. unfold f_write. repeat preserves_step slot_side. Qed.

Lemma slot_f_open_always fp p :
  slot_path q p -> preserves (card_has Q) (f_open_always fp p).
Proof. intros Hp. unfold f_open_always. repeat preserves_step slot_side. Qed.

Lemma slot_rpt_exception st : preserves (card_has Q) (rpt_exception st).
Proof. unfold rpt_exception. repeat preserves_step slot_side. Qed.

Variable cfg : Config.

Ltac slot_code :=
  repeat first
    [ first [apply (card_f_sync Q Q_down) | apply (card_f_sync Q)]
    | first [apply (card_f_close Q Q_down) | apply (card_f_close Q)]
    | first [apply (card_f_unlink Q Q_down) | apply (card_f_unlink Q)]
    | first [apply (card_f_lseek Q Q_down) | apply (card_f_lseek Q)]
    | first [apply (card_nvm_f_read Q Q_down) | apply (card_nvm_f_read Q)]
    | first [apply (card_on_nvm_file Q Q_down) | apply (card_on_nvm_file Q)]; intros ?
    | first [apply (card_prepare_persistence_file Q Q_down) | apply (card_prepare_persistence_file Q)]
    | preserves_step slot_side ].

Lemma slot_flush_loop fuel : forall f_out cnt crc temp,
  slot_path q (fil_path f_out) ->
  preserves (card_has Q) (flush_loop cfg fuel f_out cnt crc temp).
Proof.
  induction fuel as [| fuel IH]; intros f_out cnt crc temp Hp; simpl.
  - slot_code.
  - apply preserves_bind; [apply preserves_gets | intros fp].
    destruct (_ && _); [apply preserves_ret |].
    apply preserves_bind; [first [apply (card_nvm_f_read Q Q_down) | apply (card_nvm_f_read Q)] | intros r].
    apply preserves_bind; [preserves_step slot_side | intros _].
    destruct (window_runs_off _ _ _); [apply preserves_undefined |].
    apply preserves_bind; [preserves_step slot_side | intros _].
    apply preserves_bind; [apply preserves_gets | intros buf].
    eapply preserves_bind_yields;
      [apply slot_f_write; exact Hp | apply yields_f_write |].
    intros wr Hwr. simpl in Hwr.
    destruct (decide _); [| apply preserves_ret].
    destruct (decide _); [| apply preserves_ret].
    apply preserves_fs_ritorno; [first [apply (card_f_sync Q Q_down) | apply (card_f_sync Q)] |].
    apply IH. rewrite Hwr. exact Hp.
Qed.

(** What [write_persistent_values] does once the baseline is prepared,
    with [next] the slot it goes on to write. *)
Lemma slot_flush_rest fuel :
  preserves (card_has Q)
    (o <- f_open_always FIL_closed (persist_bin q) ;;
     if decide (fst o = FR_OK) then
       fs_ritorno (f_sync (snd o)) STAT_PERSISTENCE_ERROR (
         temp_write_cache <- gets (fun w => write_cache (nvm w)) ;;
         l <- flush_loop cfg fuel (snd o) 0 0 temp_write_cache ;;
         match l with
         | inl st => ret st
         | inr (f_out, crc) =>
             wr <- f_write f_out (le32_encode crc) ;;
             if decide (fst (fst wr) = FR_OK) then
               c <- f_close (snd (fst wr)) ;;
               if decide (fst c = FR_OK) then
                 fp <- gets (fun w => file (nvm w)) ;;
                 if f_is_open fp then
                   fs_ritorno (on_nvm_file f_close) STAT_PERSISTENCE_ERROR (
                     cur <- gets (fun w => file_index (nvm w)) ;;
                     q <- filenames_at cur ;;
                     fs_ritorno (f_unlink q) STAT_PERSISTENCE_ERROR (
                       modify (upd_nvm (set_file_index 0)) ;;;
                       ret STAT_OK))
                 else ret STAT_OK
               else ret STAT_PERSISTENCE_ERROR
             else ret STAT_PERSISTENCE_ERROR
         end)
     else ret STAT_PERSISTENCE_ERROR).
Proof.
  assert (Hq : slot_path q (persist_bin q)) by (left; reflexivity).
  eapply preserves_bind_yields;
    [apply slot_f_open_always; exact Hq | apply yields_f_open_always |].
  intros o Ho.
  assert (Hout : slot_path q (fil_path (snd o))).
  { destruct Ho as [-> | ->]; [exact Hq | right; reflexivity]. }
  destruct (decide _); [| apply preserves_ret].
  apply preserves_fs_ritorno; [first [apply (card_f_sync Q Q_down) | apply (card_f_sync Q)] |].
  apply preserves_bind; [apply preserves_gets | intros temp].
  eapply (preserves_bind_yields _ _
            (fun l => match l with
                      | inl _ => True
                      | inr fc => slot_path q (fil_path (fst fc))
                      end)).
  - apply slot_flush_loop. exact Hout.
  - intros w l Hl. apply (yields_flush_loop cfg fuel) in Hl.
    destruct l as [st | fc]; [exact I |]. rewrite Hl. exact Hout.
  - intros [st | [f_out crc]] Hl; [apply preserves_ret |]. simpl in Hl.
    apply preserves_bind; [apply slot_f_write; exact Hl | intros wr].
    slot_code.
Qed.

Lemma card_flush_prepared fuel w1 :
  q = NEXT_FILE_INDEX (nvm w1) -> card_has Q w1 ->
  card_has Q
    (snd ((next <- gets (fun w => NEXT_FILE_INDEX (nvm w)) ;;
           p <- filenames_at next ;;
           o <- f_open_always FIL_closed p ;;
           if decide (fst o = FR_OK) then
             fs_ritorno (f_sync (snd o)) STAT_PERSISTENCE_ERROR (
               temp_write_cache <- gets (fun w => write_cache (nvm w)) ;;
               l <- flush_loop cfg fuel (snd o) 0 0 temp_write_cache ;;
               match l with
               | inl st => ret st
               | inr (f_out, crc) =>
                   wr <- f_write f_out (le32_encode crc) ;;
                   if decide (fst (fst wr) = FR_OK) then
                     c <- f_close (snd (fst wr)) ;;
                     if decide (fst c = FR_OK) then
                       fp <- gets (fun w => file (nvm w)) ;;
                       if f_is_open fp then
                         fs_ritorno (on_nvm_file f_close) STAT_PERSISTENCE_ERROR (
                           cur <- gets (fun w => file_index (nvm w)) ;;
                           q <- filenames_at cur ;;
                           fs_ritorno (f_unlink q) STAT_PERSISTENCE_ERROR (
                             modify (upd_nvm (set_file_index 0)) ;;;
                             ret STAT_OK))
                       else ret STAT_OK
                     else ret STAT_PERSISTENCE_ERROR
                   else ret STAT_PERSISTENCE_ERROR
               end)
           else ret STAT_PERSISTENCE_ERROR) w1)).
Proof.
  intros Hq H. rewrite bind_Ret with (a := q) (w' := w1)
    by (unfold gets; now rewrite Hq).
  rewrite (bind_Ret _ _ _ _ _ (filenames_at_slot q w1
             ltac:(rewrite Hq; apply NEXT_FILE_INDEX_range))).
  now apply slot_flush_rest.
Qed.

End OneSlot.

Lemma preserves_from (P : world -> Prop) {A B} (m : M A) (k : A -> M B) w :
  P (snd (m w)) -> (forall a, preserves P (k a)) -> P (snd (bind m k w)).
Proof.
  intros H Hk. unfold bind. destruct (m w) as [[a | |] w1]; simpl in *; auto.
  now apply Hk.
Qed.

Lemma lseek_keeps_file_index ofs w :
  file_index (nvm (snd (on_nvm_file (fun fp => f_lseek fp ofs) w)))
  = file_index (nvm w).
Proof.
  assert (H : preserves (fun w' => file_index (nvm w') = file_index (nvm w))
                        (on_nvm_file (fun fp => f_lseek fp ofs))).
  { unfold on_nvm_file, f_lseek.
    repeat preserves_step ltac:(first
      [ intros ? [[] ? ? ? ? ? ?] ?; simpl in *; assumption
      | intros [[] ? ? ? ? ? ?] ?; simpl in *; assumption ]). }
  now apply H.
Qed.

(** X10. Whatever the card holds and whatever the driver does, one call of the
    scheduler changes the content of at most one slot: apart from the slot
    [q] the flush writes, every file that is on the card afterwards was
    there before, with the same content. *)
Theorem flush_writes_one_slot cfg fuel w :
  exists q,
    delete q (disk (snd (write_persistent_values_callback cfg fuel w)))
    ⊆ delete q (disk w).
Proof.
  set (w1 := snd (prepare_persistence_file cfg w)).
  set (q := NEXT_FILE_INDEX (nvm w1)).
  exists q.
  set (Q := fun d : gmap Z (list byte) => delete q d ⊆ delete q (disk w)).
  assert (Q_down : forall d d', d' ⊆ d -> Q d -> Q d').
  { unfold Q. intros d d' Hd H. etransitivity; [apply delete_mono; exact Hd | exact H]. }
  assert (Q_write : forall d c, Q d -> Q (<[q := c]> d)).
  { unfold Q. intros d c H. now rewrite delete_insert_eq. }
  assert (H0 : card_has Q w) by (unfold card_has, Q; reflexivity).
  change (card_has Q (snd (write_persistent_values_callback cfg fuel w))).
  assert (Hflush : card_has Q (snd (write_persistent_values cfg fuel w))).
  { unfold write_persistent_values. run_step.
    destruct (decide (cycle_state w = CYCLE_OFF)).
    - assert (H1 : card_has Q w1)
        by (apply (card_prepare_persistence_file Q Q_down cfg w); exact H0).
      unfold bind at 1. fold w1 in H1 |- *.
      destruct (prepare_persistence_file cfg w) as [[st | |] w1'] eqn:E;
        simpl in w1; subst w1; try exact H1.
      destruct (decide (st = STAT_OK)).
      + unfold fs_ritorno at 1. unfold bind at 1.
        pose proof (lseek_keeps_file_index 0 w1') as Hidx.
        pose proof (card_on_nvm_file Q (fun fp => f_lseek fp 0)
                      (fun fp => card_f_lseek Q fp 0) w1' H1) as H2.
        destruct (on_nvm_file (fun fp => f_lseek fp 0) w1') as [[r | |] w2];
          simpl in Hidx, H2; try exact H2.
        destruct (decide (r = FR_OK)); [| exact H2].
        apply (card_flush_prepared Q Q_down q Q_write cfg fuel w2); [| exact H2].
        unfold q, NEXT_FILE_INDEX. now rewrite Hidx.
      + apply (card_flush_prepared Q Q_down q Q_write cfg fuel w1'); [reflexivity | exact H1].
    - apply (slot_rpt_exception Q). exact H0. }
  unfold write_persistent_values_callback, f_polldisk.
  run_step. run_step.
  destruct (bool_decide _); [| exact H0].
  run_step. run_step.
  destruct (_ <? _); [exact H0 |].
  apply preserves_from; [exact Hflush |].
  intros st.
  repeat first
    [ apply (card_f_unlink Q Q_down)
    | preserves_step ltac:(first
        [ intros ? [[] ? ? ? ? ? ?] ?; assumption
        | intros [[] ? ? ? ? ? ?] ?; assumption ]) ].
Qed.

(** ** Flush, scheduler and accessors together *)

(** A turn of the scheduler whose flush succeeds. *)
Lemma callback_success cfg fuel w w' :
  write_cache (nvm w) <> ∅ ->
  MIN_WRITE_INTERVAL cfg <= wrap32 (systick w - last_write_systick (nvm w)) ->
  write_persistent_values cfg fuel w = (Ret STAT_OK, w') ->
  write_persistent_values_callback cfg fuel w
  = (Ret STAT_OK,
     upd_nvm (set_last_write_systick (systick w'))
       (upd_nvm (fun n => set_write_failures 0 (set_write_cache ∅ n)) w')).
Proof.
  intros Hne Hdue E. unfold write_persistent_values_callback, f_polldisk.
  run_step. run_step. rewrite bool_decide_true by exact Hne.
  run_step. run_step.
  destruct (Z.ltb_spec (wrap32 (systick w - last_write_systick (nvm w)))
                       (MIN_WRITE_INTERVAL cfg)); [lia |].
  rewrite (bind_Ret _ _ _ _ _ E).
  destruct (decide (STAT_OK = STAT_OK)); [| congruence].
  run_step. run_step. run_step. reflexivity.
Qed.





(** X14. The flush of a store with a current generation [l], with the
    machine idle and no driver failure: the new generation goes to the next
    slot of the rotation and holds the slots of [l], each pending entry
    below the end of [l] in its slot; the old generation is deleted.
    Pending entries at or past the end of [l] are not in the new file. *)
Theorem flush_merges_into_next_slot cfg k l bound fuel w :
  buffer_fits cfg -> current_generation cfg k l w -> cycle_state w = CYCLE_OFF ->
  cache_below bound (write_cache (nvm w)) ->
  Z.of_nat (length l) <= bound ->
  bound + IO_BUFFER_SIZE cfg / NVM_VALUE_LEN < 65536 ->
  bound <= Z.of_nat fuel * (IO_BUFFER_SIZE cfg / NVM_VALUE_LEN) ->
  exists w',
    write_persistent_values cfg fuel w = (Ret STAT_OK, w') /\
    current_generation cfg ((k + 1) mod PERSISTENCE_FILENAME_CNT)
      (patched (write_cache (nvm w)) 0 l) w' /\
    length (patched (write_cache (nvm w)) 0 l) = length l /\
    disk w' !! k = None.
Proof.
  intros Hcfg Hcur Hidle Hcache Hlen Hbound Hfuel.
  destruct (merge_flush cfg k l bound fuel w Hcfg Hcur Hidle Hcache Hlen Hbound Hfuel)
    as (w' & E & Hcur' & _ & Hgone & _).
  exists w'. split; [exact E |]. split; [exact Hcur' |].
  split; [apply length_patched | exact Hgone].
Qed.

Lemma flush_merges_into_next_slot_witness :
  exists w',
    write_persistent_values sample_config 2 settled_store = (Ret STAT_OK, w') /\
    current_generation sample_config ((0 + 1) mod PERSISTENCE_FILENAME_CNT)
      (patched (write_cache (nvm settled_store)) 0 slots100) w' /\
    length (patched (write_cache (nvm settled_store)) 0 slots100) = length slots100 /\
    disk w' !! 0 = None.
Proof.
  apply (flush_merges_into_next_slot sample_config 0 slots100 200 2 settled_store);
    [ exact sample_buffer_fits | exact settled_store_current | reflexivity
    | exact pending_below | vm_compute; discriminate | vm_compute; reflexivity
    | vm_compute; discriminate ].
Defined.

(** X15. Round trip on a store with a current generation, with the machine
    idle and no driver failure: after the turn of the scheduler that
    flushes the cache, a slot of the baseline reads as the value that was
    pending for it, or as before when none was. *)
Theorem flush_round_trip_within_baseline cfg k l bound fuel w (i : nat) x v0 :
  buffer_fits cfg -> current_generation cfg k l w -> cycle_state w = CYCLE_OFF ->
  cache_below bound (write_cache (nvm w)) ->
  Z.of_nat (length l) <= bound ->
  bound + IO_BUFFER_SIZE cfg / NVM_VALUE_LEN < 65536 ->
  bound <= Z.of_nat fuel * (IO_BUFFER_SIZE cfg / NVM_VALUE_LEN) ->
  MIN_WRITE_INTERVAL cfg <= wrap32 (systick w - last_write_systick (nvm w)) ->
  write_cache (nvm w) <> ∅ ->
  l !! i = Some x ->
  exists w1 w2,
    write_persistent_values_callback cfg fuel w = (Ret STAT_OK, w1) /\
    write_cache (nvm w1) = ∅ /\
    read_persistent_value cfg (mkNv (Z.of_nat i) v0) w1
    = (Ret (STAT_OK,
            mkNv (Z.of_nat i) (default x (write_cache (nvm w) !! Z.of_nat i))), w2).
Proof.
  intros Hcfg Hcur Hidle Hcache Hlen Hbound Hfuel Hdue Hne Hx.
  destruct (merge_flush cfg k l bound fuel w Hcfg Hcur Hidle Hcache Hlen Hbound Hfuel)
    as (w' & E & Hcur' & _).
  pose proof (callback_success cfg fuel w w' Hne Hdue E) as Ecb.
  set (w1 := upd_nvm (set_last_write_systick (systick w'))
               (upd_nvm (fun n => set_write_failures 0 (set_write_cache ∅ n)) w')) in *.
  assert (Hcur1 : current_generation cfg ((k + 1) mod PERSISTENCE_FILENAME_CNT)
                    (patched (write_cache (nvm w)) 0 l) w1)
    by (revert Hcur'; apply current_generation_ext; reflexivity).
  assert (Hslot : patched (write_cache (nvm w)) 0 l !! i
                  = Some (default x (write_cache (nvm w) !! Z.of_nat i))).
  { unfold patched. rewrite list_lookup_imap, Hx. reflexivity. }
  destruct (read_slot cfg _ _ w1 i v0 _ Hcfg Hcur1 Hslot) as (w2 & Er & _).
  exists w1, w2. split; [exact Ecb |]. split; [reflexivity | exact Er].
Qed.

Lemma flush_round_trip_within_baseline_witness :
  exists w1 w2,
    write_persistent_values_callback sample_config 2 settled_store = (Ret STAT_OK, w1) /\
    write_cache (nvm w1) = ∅ /\
    read_persistent_value sample_config (mkNv (Z.of_nat 5) 0) w1
    = (Ret (STAT_OK,
            mkNv (Z.of_nat 5)
                 (default (float_of_int 6)
                          (write_cache (nvm settled_store) !! Z.of_nat 5))), w2).
Proof.
  apply (flush_round_trip_within_baseline sample_config 0 slots100 200 2 settled_store
           5 (float_of_int 6) 0);
    [ exact sample_buffer_fits | exact settled_store_current | reflexivity
    | exact pending_below | vm_compute; discriminate | vm_compute; reflexivity
    | vm_compute; discriminate | vm_compute; discriminate
    | intros H; apply (f_equal (fun m : gmap Z Z => m !! 5)) in H; discriminate H
    | reflexivity ].
Defined.

(** X16. On a card that holds no generation file, with no file open and no
    driver failure, nothing can be read and nothing flushed:
    [prepare_persistence_file] takes the index 3 that [active_file_index]
    returns to [filenames], past the end of the table. So
    [read_persistent_value] and, with the machine idle,
    [write_persistent_values] leave defined behaviour there. *)
Theorem no_generation_is_out_of_bounds cfg nv fuel w :
  no_generation w ->
  fst (prepare_persistence_file cfg w) = Undefined /\
  fst (read_persistent_value cfg nv w) = Undefined /\
  (cycle_state w = CYCLE_OFF ->
   fst (write_persistent_values cfg fuel w) = Undefined).
Proof.
  intros (Hf & Ho & Hnone).
  destruct (prepare_without_generation cfg w Hf Ho Hnone) as [w' E].
  split; [now rewrite E |].
  split; [now rewrite (read_undefined_in_prepare cfg nv w w' E) |].
  intros Hidle. unfold write_persistent_values. run_step. rewrite Hidle.
  destruct (decide (CYCLE_OFF = CYCLE_OFF)); [| congruence].
  now rewrite (bind_Undefined _ _ _ _ E).
Qed.

Lemma no_generation_is_out_of_bounds_witness :
  fst (prepare_persistence_file sample_config blank_store) = Undefined /\
  fst (read_persistent_value sample_config (mkNv 5 0) blank_store) = Undefined /\
  fst (write_persistent_values sample_config 1 blank_store) = Undefined.
Proof.
  destruct (no_generation_is_out_of_bounds sample_config (mkNv 5 0) 1 blank_store
              blank_store_no_generation) as (Hp & Hr & Hw).
  split; [exact Hp |]. split; [exact Hr |]. apply Hw. reflexivity.
Defined.



(** X18. [prepare_persistence_file] on a store with a current generation in slot
    [k]: the file is open on that slot afterwards, [nvm.file_index] is [k],
    the generation is untouched and the slot before it in the rotation is
    empty. *)
Theorem prepare_opens_the_current_generation cfg k l w :
  buffer_fits cfg -> current_generation cfg k l w ->
  exists w',
    prepare_persistence_file cfg w = (Ret STAT_OK, w') /\
    f_is_open (file (nvm w')) = true /\
    fil_path (file (nvm w')) = persist_bin k /\
    file_index (nvm w') = k /\
    disk w' !! k = Some (generation (values l)) /\
    disk w' !! ((k + 2) mod PERSISTENCE_FILENAME_CNT) = None /\
    staging w' = staging w.
Proof.
  intros Hcfg Hcur.
  destruct (prepare_current cfg k l w Hcfg Hcur)
    as (w' & E & Hcur' & Ho & Hs & _).
  destruct Hcur' as (_ & _ & _ & Hd & _ & _ & _ & Hopen).
  destruct (Hopen Ho) as (Hpath & _ & _ & Hidx & Hprev).
  exists w'. repeat split; assumption.
Qed.

Lemma prepare_opens_the_current_generation_witness :
  exists w',
    prepare_persistence_file sample_config settled_store = (Ret STAT_OK, w') /\
    f_is_open (file (nvm w')) = true /\
    fil_path (file (nvm w')) = persist_bin 0 /\
    file_index (nvm w') = 0 /\
    disk w' !! 0 = Some (generation (values slots100)) /\
    disk w' !! ((0 + 2) mod PERSISTENCE_FILENAME_CNT) = None /\
    staging w' = staging settled_store.
Proof.
  apply (prepare_opens_the_current_generation sample_config 0 slots100 settled_store);
    [exact sample_buffer_fits | exact settled_store_current].
Defined.

(** ** The rate of the flushes *)

Lemma bind_inv {A B} (m : M A) (k : A -> M B) w b w' :
  bind m k w = (Ret b, w') -> exists a w0, m w = (Ret a, w0) /\ k a w0 = (Ret b, w').
Proof.
  unfold bind. destruct (m w) as [[a | |] w0]; try discriminate.
  intros H. now exists a, w0.
Qed.

(** A turn of the scheduler that is not due: nothing happens. *)
Lemma callback_not_due cfg fuel w :
  wrap32 (systick w - last_write_systick (nvm w)) < MIN_WRITE_INTERVAL cfg ->
  write_persistent_values_callback cfg fuel w = (Ret STAT_NOOP, w).
Proof.
  intros H. unfold write_persistent_values_callback, f_polldisk.
  run_step. run_step.
  destruct (bool_decide _); [| reflexivity].
  run_step. run_step.
  destruct (Z.ltb_spec (wrap32 (systick w - last_write_systick (nvm w)))
                       (MIN_WRITE_INTERVAL cfg)); [reflexivity | lia].
Qed.

(** X19. The scheduler limits the rate of the attempts, not of the successes:
    once a turn has tried to flush, whatever came of it, a turn that comes
    less than [MIN_WRITE_INTERVAL] ticks later does nothing at all. *)
Theorem no_second_attempt_within_the_interval cfg fuel fuel' w dt :
  fst (write_persistent_values_callback cfg fuel w) = Ret STAT_OK ->
  0 <= dt < MIN_WRITE_INTERVAL cfg ->
  MIN_WRITE_INTERVAL cfg <= 4294967296 ->
  let w1 := snd (write_persistent_values_callback cfg fuel w) in
  write_persistent_values_callback cfg fuel' (advance dt w1)
  = (Ret STAT_NOOP, advance dt w1).
Proof.
  intros E0 Hdt Hmin w1.
  assert (E : write_persistent_values_callback cfg fuel w = (Ret STAT_OK, w1)).
  { unfold w1. destruct (write_persistent_values_callback cfg fuel w) as [o w'].
    simpl in E0. now subst o. }
  clearbody w1. clear E0.
  assert (Hlast : last_write_systick (nvm w1) = systick w1).
  { unfold write_persistent_values_callback, f_polldisk in E.
    apply bind_inv in E. destruct E as (x1 & wa & E1 & E).
    inversion E1; subst; clear E1.
    apply bind_inv in E. destruct E as (cache & wb & E1 & E).
    inversion E1; subst; clear E1.
    destruct (bool_decide _); [| discriminate].
    apply bind_inv in E. destruct E as (now & wc & E1 & E).
    inversion E1; subst; clear E1.
    apply bind_inv in E. destruct E as (last & wd & E1 & E).
    inversion E1; subst; clear E1.
    destruct (_ <? _); [discriminate |].
    apply bind_inv in E. destruct E as (st & w2 & _ & E).
    apply bind_inv in E. destruct E as (x2 & w3 & _ & E).
    apply bind_inv in E. destruct E as (now' & w4 & E1 & E).
    inversion E1; subst; clear E1.
    apply bind_inv in E. destruct E as (x3 & w5 & E1 & E).
    inversion E1; subst; clear E1.
    inversion E; subst. reflexivity. }
  apply callback_not_due. simpl. rewrite Hlast.
  replace (systick w1 + dt - systick w1) with dt by lia.
  unfold wrap32. rewrite Z.mod_small; lia.
Qed.

Lemma no_second_attempt_within_the_interval_witness :
  write_persistent_values_callback sample_config 2
    (advance 10 (snd (write_persistent_values_callback sample_config 2 settled_store)))
  = (Ret STAT_NOOP,
     advance 10 (snd (write_persistent_values_callback sample_config 2 settled_store))).
Proof.
  apply (no_second_attempt_within_the_interval sample_config 2 2 settled_store 10);
    [ vm_compute; reflexivity | simpl; lia | simpl; lia ].
Defined.

(** X20. [persistence_init] starts the interval anew and resets the index and
    the failure counter, and it keeps what is pending: a turn of the
    scheduler less than [MIN_WRITE_INTERVAL] ticks after it does nothing,
    whatever the cache holds. *)
Theorem init_starts_the_interval cfg fuel w dt :
  0 <= dt < MIN_WRITE_INTERVAL cfg ->
  MIN_WRITE_INTERVAL cfg <= 4294967296 ->
  exists w0,
    persistence_init w = (Ret tt, w0) /\
    file_index (nvm w0) = 0 /\ write_failures (nvm w0) = 0 /\
    write_cache (nvm w0) = write_cache (nvm w) /\
    write_persistent_values_callback cfg fuel (advance dt w0)
    = (Ret STAT_NOOP, advance dt w0).
Proof.
  intros Hdt Hmin. eexists. split; [reflexivity |].
  repeat split.
  apply callback_not_due. simpl.
  replace (systick w + dt - systick w) with dt by lia.
  unfold wrap32. rewrite Z.mod_small; lia.
Qed.

Lemma init_starts_the_interval_witness :
  exists w0,
    persistence_init settled_store = (Ret tt, w0) /\
    file_index (nvm w0) = 0 /\ write_failures (nvm w0) = 0 /\
    write_cache (nvm w0) = write_cache (nvm settled_store) /\
    write_persistent_values_callback sample_config 1 (advance 10 w0)
    = (Ret STAT_NOOP, advance 10 w0).
Proof.
  apply (init_starts_the_interval sample_config 1 settled_store 10); simpl; lia.
Defined.

(** ** The EEPROM variant *)

Lemma EEPROM_WriteBytes_4 addr b0 b1 b2 b3 mem :
  Avr.EEPROM_WriteBytes addr [b0; b1; b2; b3] mem
  = <[addr + 3 := b3]> (<[addr + 2 := b2]> (<[addr + 1 := b1]> (<[addr + 0 := b0]> mem))).
Proof. reflexivity. Qed.

Lemma EEPROM_ReadBytes_4 addr mem :
  Avr.EEPROM_ReadBytes addr 4 mem
  = [default xff (mem !! (addr + 0)); default xff (mem !! (addr + 1));
     default xff (mem !! (addr + 2)); default xff (mem !! (addr + 3))].
Proof. reflexivity. Qed.

Lemma EEPROM_read_after_write addr v mem :
  Avr.EEPROM_ReadBytes addr 4 (Avr.EEPROM_WriteBytes addr (le32_encode v) mem) = le32_encode v.
Proof.
  unfold le32_encode. rewrite EEPROM_WriteBytes_4, EEPROM_ReadBytes_4.
  rewrite lookup_insert_eq.
  rewrite (lookup_insert_ne _ (addr + 3) (addr + 2)), lookup_insert_eq by lia.
  rewrite (lookup_insert_ne _ (addr + 3) (addr + 1)),
          (lookup_insert_ne _ (addr + 2) (addr + 1)), lookup_insert_eq by lia.
  rewrite (lookup_insert_ne _ (addr + 3) (addr + 0)),
          (lookup_insert_ne _ (addr + 2) (addr + 0)),
          (lookup_insert_ne _ (addr + 1) (addr + 0)), lookup_insert_eq by lia.
  reflexivity.
Qed.

Lemma EEPROM_write_elsewhere addr v mem a :
  ~ (addr <= a < addr + 4) ->
  Avr.EEPROM_WriteBytes addr (le32_encode v) mem !! a = mem !! a.
Proof.
  intros H. unfold le32_encode. rewrite EEPROM_WriteBytes_4.
  rewrite !lookup_insert_ne by lia. reflexivity.
Qed.

(** X21. The [__AVR] write. While the machine is moving it is refused: it
    reports [STAT_FILE_NOT_OPEN] on the exception channel and returns it,
    and neither the EEPROM nor [*nv] nor the singleton is touched. With the
    machine idle it returns [STAT_OK] and hands [*nv] back as it was
    passed; the slot is written when the value it holds is a NaN or an
    infinity or [fp_NE] tells it from the new one, and then a read of the
    index returns the new value; otherwise the EEPROM is not touched at
    all. No cell outside the slot ever changes. *)
Theorem avr_write_is_gated_and_skips_unchanged fp_NE nv w :
  word32 (value nv) ->
  let old := value (snd (Avr.read_persistent_value nv w)) in
  let addr := wrap16 (Avr.profile_base (Avr.nvm w) + index nv * NVM_VALUE_LEN) in
  let r := Avr.write_persistent_value fp_NE nv w in
  (Avr.cycle_state w <> CYCLE_OFF ->
   fst r = (STAT_FILE_NOT_OPEN, nv) /\
   Avr.eeprom (snd r) = Avr.eeprom w /\ Avr.nvm (snd r) = Avr.nvm w /\
   Avr.exceptions (snd r) = Avr.exceptions w ++ [STAT_FILE_NOT_OPEN]) /\
  (Avr.cycle_state w = CYCLE_OFF ->
   fst r = (STAT_OK, nv) /\
   (if isnan old || isinf old || fp_NE old (value nv)
    then Avr.read_persistent_value nv (snd r) = (STAT_OK, nv)
    else Avr.eeprom (snd r) = Avr.eeprom w) /\
   (forall a, ~ (addr <= a < addr + 4) -> Avr.eeprom (snd r) !! a = Avr.eeprom w !! a)).
Proof.
  intros Hv old addr r. subst r.
  split; intros Hcs.
  - unfold Avr.write_persistent_value.
    destruct (decide (Avr.cycle_state w <> CYCLE_OFF)); [| contradiction].
    repeat split.
  - set (bytes := le32_encode (value nv)).
    set (n1 := Avr.mkNvm (Avr.base_addr (Avr.nvm w)) (Avr.profile_base (Avr.nvm w))
                        (Avr.address (Avr.nvm w)) (value nv) (Avr.byte_array (Avr.nvm w))).
    set (w1 := Avr.mkWorld n1 (Avr.eeprom w) (Avr.cycle_state w) (Avr.exceptions w)).
    set (w2 := if isnan old || isinf old || fp_NE old (value nv)
               then Avr.mkWorld
                      (Avr.mkNvm (Avr.base_addr n1) (Avr.profile_base n1) addr (value nv) bytes)
                      (Avr.EEPROM_WriteBytes addr bytes (Avr.eeprom w1))
                      (Avr.cycle_state w1) (Avr.exceptions w1)
               else w1).
    assert (E : Avr.write_persistent_value fp_NE nv w = (STAT_OK, nv, w2)).
    { unfold Avr.write_persistent_value.
      destruct (decide (Avr.cycle_state w <> CYCLE_OFF)); [contradiction |].
      cbv zeta. unfold Avr.read_persistent_value. cbn [fst snd index value].
      destruct (decide (STAT_OK = STAT_OK)); [| congruence].
      destruct nv; reflexivity. }
    rewrite E. cbn [fst snd]. split; [reflexivity |]. unfold w2.
    destruct (isnan old || isinf old || fp_NE old (value nv)).
    + split.
      * unfold Avr.read_persistent_value. cbn [Avr.nvm Avr.profile_base Avr.eeprom n1 w1].
        fold addr. unfold NVM_VALUE_LEN, bytes. rewrite EEPROM_read_after_write.
        rewrite le32_decode_encode_small by exact Hv. destruct nv; reflexivity.
      * intros a Ha. cbn [Avr.eeprom w1]. apply EEPROM_write_elsewhere. exact Ha.
    + split; reflexivity.
Qed.

Lemma avr_write_is_gated_and_skips_unchanged_witness :
  fst (Avr.write_persistent_value float_ne (mkNv 5 float_5_5) blank_eeprom)
  = (STAT_OK, mkNv 5 float_5_5) /\
  Avr.read_persistent_value (mkNv 5 float_5_5)
    (snd (Avr.write_persistent_value float_ne (mkNv 5 float_5_5) blank_eeprom))
  = (STAT_OK, mkNv 5 float_5_5).
Proof.
  destruct (avr_write_is_gated_and_skips_unchanged float_ne (mkNv 5 float_5_5)
              blank_eeprom ltac:(unfold word32, float_5_5; simpl; lia))
    as [_ Hidle].
  destruct (Hidle eq_refl) as (Hret & Hread & _).
  split; [exact Hret | exact Hread].
Defined.
